(** * neurotic: a feed-forward network engine (src/neuron.c)

    A shallow embedding of [neuron.c].  C functions become computations in a
    state-and-failure monad over a [world] that holds the heap of matrix
    storage, the files, the wall clock and the state of the C library's
    random generator.  Undefined behaviour of the C program (an access out
    of bounds, the use of an indeterminate handle, a release of storage
    that is not allocated) is the outcome [Undefined]. *)

From Stdlib Require Import ZArith.
From Stdlib Require Floats.
From stdpp Require Import gmap strings list.

Local Open Scope Z_scope.
Set Warnings "-clear-no-such-hyp".

(** ** Numbers of the C program *)

(** The operations [neuron.c] applies to a [double]: the arithmetic of
    [sigma] and of the matrix product, and [exp] of the C library. *)
Class Double (D : Type) := {
  d_zero : D;
  d_one : D;
  d_add : D → D → D;
  d_mul : D → D → D;
  d_div : D → D → D;
  d_opp : D → D;
  d_exp : D → D;
  (** what freshly allocated, never written storage holds *)
  d_uninit : D
}.

(** The object representation of a [double]: the [sizeof(double) = 8] bytes
    that [fwrite] copies out of memory and [fread] copies back.  When the
    stream ends inside an item, [fread] has stored the bytes it got over
    the start of the destination, and C leaves the value of the item
    indeterminate: [d_partial bs x] is what an item that held [x] is read
    as afterwards, and nothing is known of it. *)
Class DoubleRepr (D : Type) := {
  d_bytes : D → list Z;
  d_of_bytes : list Z → D;
  d_partial : list Z → D → D;
  d_bytes_length : ∀ x, length (d_bytes x) = 8%nat;
  d_of_bytes_bytes : ∀ x, d_of_bytes (d_bytes x) = x
}.

(** The sampler collaborator (random.h): [gauss0] draws a normal deviate
    and steps the seed it is given by address; [rand_lim] draws an integer
    from the generator of the C library, whose state is global. *)
Class Sampler (D : Type) := {
  rng : Type;
  gauss0 : Z → D * Z;
  rand_lim : Z → rng → Z * rng
}.

Definition INT_MAX : Z := 2147483647.
Definition INT_MIN : Z := -2147483648.

Definition in_int (z : Z) : Prop := INT_MIN ≤ z ≤ INT_MAX.

#[global] Instance in_int_dec z : Decision (in_int z).
Proof. unfold in_int. apply _. Defined.

(** An array of handles: a slot is [None] until it is assigned. *)
Abbreviation slots A := (list (option A)) (only parsing).

(** ** The world and the monad *)

Section Neuron.
Context {D : Type} `{DblOps : Double D} `{DblRepr : DoubleRepr D} `{Smp : Sampler D}.

(** A block of matrix storage, [data[i][j]] row by row, is a
    [list (list D)]. *)

Record world := World {
  heap : gmap positive (list (list D));
  files : gmap string (list Z);
  clock : Z;
  rand : rng
}.

Definition with_heap (f : gmap positive (list (list D)) → gmap positive (list (list D))) (w : world) : world :=
  World (f (heap w)) (files w) (clock w) (rand w).

Definition with_files (f : gmap string (list Z) → gmap string (list Z)) (w : world) : world :=
  World (heap w) (f (files w)) (clock w) (rand w).

Definition with_rand (r : rng) (w : world) : world :=
  World (heap w) (files w) (clock w) r.

Inductive outcome (A : Type) : Type :=
  | Done (a : A) (w : world)
  | Undefined
  | OutOfFuel.
Arguments Done {A} a w.
Arguments Undefined {A}.
Arguments OutOfFuel {A}.

Definition M (A : Type) : Type := world → outcome A.

Definition ret {A} (a : A) : M A := λ w, Done a w.

Definition bind {A B} (m : M A) (k : A → M B) : M B :=
  λ w, match m w with
       | Done a w' => k a w'
       | Undefined => Undefined
       | OutOfFuel => OutOfFuel
       end.

Definition undef {A} : M A := λ _, Undefined.

Definition out_of_fuel {A} : M A := λ _, OutOfFuel.

#[global] Instance M_ret : MRet M := @ret.
#[global] Instance M_bind : MBind M := λ A B k m, bind m k.

Definition lift_option {A} (o : option A) : M A :=
  match o with Some a => ret a | None => undef end.

(** [for (i = lo; i < hi; i++) s = body(i, s)], the locals the body
    assigns threaded through as [s]. *)
Fixpoint for_iter {S} (n : nat) (i : Z) (body : Z → S → M S) (s : S) : M S :=
  match n with
  | O => ret s
  | S n' => s' ← body i s; for_iter n' (i + 1) body s'
  end.

Definition for_fold {S} (lo hi : Z) (body : Z → S → M S) (s : S) : M S :=
  for_iter (Z.to_nat (hi - lo)) lo body s.

Definition for_range (lo hi : Z) (body : Z → M ()) : M () :=
  for_fold lo hi (λ i _, body i) ().

(** ** C arrays *)

(** [a[i]] for a C array held as a list: out of bounds is undefined. *)
Definition zlookup {A} (l : list A) (i : Z) : option A :=
  if decide (0 ≤ i) then l !! Z.to_nat i else None.

Definition zinsert {A} (l : list A) (i : Z) (x : A) : option (list A) :=
  if decide (0 ≤ i < Z.of_nat (length l)) then Some (<[Z.to_nat i := x]> l) else None.


Definition slot_get {A} (a : slots A) (i : Z) : M A :=
  lift_option (mjoin (zlookup a i)).

Definition slot_set {A} (a : slots A) (i : Z) (x : A) : M (slots A) :=
  lift_option (zinsert a i (Some x)).

(** [malloc (n * sizeof ...)] of an array of [n] handles. *)
Definition slots_alloc {A} (n : Z) : slots A := replicate (Z.to_nat n) None.

(** ** The heap *)

Definition malloc (b : list (list D)) : M positive :=
  λ w, let a := fresh (dom (heap w)) in Done a (with_heap (insert a b) w).

Definition mfree (a : positive) : M () :=
  λ w, match heap w !! a with
       | Some _ => Done () (with_heap (delete a) w)
       | None => Undefined
       end.

Definition mload (a : positive) : M (list (list D)) :=
  λ w, match heap w !! a with
       | Some b => Done b w
       | None => Undefined
       end.

Definition mstore (a : positive) (b : list (list D)) : M () :=
  λ w, match heap w !! a with
       | Some _ => Done () (with_heap (insert a b) w)
       | None => Undefined
       end.

(** ** The matrix collaborator (matrix.h)

    [neuron.c] reads three fields of a [matrix_double]: [data], [nrows] and
    [ncols].  The struct is passed by value, so the dimensions travel with
    the handle, and [data] points at storage that every copy of the handle
    shares. *)

Record matrix_double := Matrix {
  data : positive;
  nrows : Z;
  ncols : Z
}.

Record coordinate := Coordinate { row : Z; col : Z }.
Record pair_coordinates := Pair_coordinates { a : coordinate; b : coordinate }.

Definition block_get (bl : list (list D)) (i j : Z) : option D :=
  r ← zlookup bl i; zlookup r j.

Definition block_set (bl : list (list D)) (i j : Z) (x : D) : option (list (list D)) :=
  r ← zlookup bl i; r' ← zinsert r j x; zinsert bl i r'.

(** [m.data[i][j]] *)
Definition data_get (m : matrix_double) (i j : Z) : M D :=
  bl ← mload (data m); lift_option (block_get bl i j).

(** [m.data[i][j] = x] *)
Definition data_set (m : matrix_double) (i j : Z) (x : D) : M () :=
  bl ← mload (data m); bl' ← lift_option (block_set bl i j x); mstore (data m) bl'.

(** The storage has [r] rows of [c] entries each. *)
Definition has_dims (bl : list (list D)) (r c : Z) : Prop :=
  Z.of_nat (length bl) = r ∧ Forall (λ rw, Z.of_nat (length rw) = c) bl.

#[global] Instance has_dims_dec bl r c : Decision (has_dims bl r c).
Proof. unfold has_dims. apply _. Defined.

(** The storage of a handle, for the collaborator's operations: they walk
    [nrows] rows of [ncols] entries, so the storage must have them. *)
Definition matrix_block (m : matrix_double) : M (list (list D)) :=
  bl ← mload (data m);
  if decide (has_dims bl (nrows m) (ncols m)) then mret bl else undef.

(** Modelled from the spec: [alloc_matrix_double] of matrix.h, "construct(rows,
    cols) zero/uninitialized matrix"; a negative dimension has no defined
    result. *)
Definition alloc_matrix_double (r c : Z) : M matrix_double :=
  if decide (0 ≤ r ∧ 0 ≤ c) then
    p ← malloc (replicate (Z.to_nat r) (replicate (Z.to_nat c) d_uninit));
    mret (Matrix p r c)
  else undef.

(** Modelled from the spec: [free_matrix_double] of matrix.h, "release". *)
Definition free_matrix_double (m : matrix_double) : M () := mfree (data m).

Definition block_col (bl : list (list D)) (c : Z) : option (list D) :=
  mapM (λ rw, zlookup rw c) bl.

Definition block_set_col (bl : list (list D)) (arr : list D) (c : Z) : option (list (list D)) :=
  if decide (length bl ≤ length arr)%nat
  then mapM (λ rx : list D * D, zinsert rx.1 c rx.2) (zip bl arr)
  else None.

(** Modelled from the spec: [set_col_matrix_double] of matrix.h, "column
    set-from-array": [m.data[i][c] = arr[i]] for every row [i]. *)
Definition set_col_matrix_double (m : matrix_double) (arr : list D) (c : Z) : M () :=
  bl ← matrix_block m;
  bl' ← lift_option (block_set_col bl arr c);
  mstore (data m) bl'.

(** Modelled from the spec: [copy_col_matrix_double] of matrix.h, "column
    extract-as-array": [arr[i] = m.data[i][c]] for every row [i]; the array
    it fills is the result. *)
Definition copy_col_matrix_double (m : matrix_double) (c : Z) : M (list D) :=
  bl ← matrix_block m;
  lift_option (block_col bl c).

(** The sum [u[0]*v[0] + u[1]*v[1] + ...], accumulated from zero in index
    order. *)
Definition dot (u v : list D) : D :=
  foldl (λ acc xy, d_add acc (d_mul xy.1 xy.2)) d_zero (zip u v).

Definition block_product (ba bb : list (list D)) (cb : Z) : option (list (list D)) :=
  mapM (λ ra, mapM (λ j, dot ra <$> block_col bb (Z.of_nat j)) (seq 0 (Z.to_nat cb))) ba.

(** Modelled from the spec: [matrix_product_matrix_double] of matrix.h,
    "matrix product (rows/cols must be compatible, else error)": a new
    matrix; incompatible dimensions have no defined result. *)
Definition matrix_product_matrix_double (A B : matrix_double) : M matrix_double :=
  ba ← matrix_block A;
  bb ← matrix_block B;
  if decide (ncols A = nrows B) then
    bc ← lift_option (block_product ba bb (ncols B));
    p ← malloc bc;
    mret (Matrix p (nrows A) (ncols B))
  else undef.

(** Modelled from the spec: [copy_matrix_double] of matrix.h, "deep copy". *)
Definition copy_matrix_double (m : matrix_double) : M matrix_double :=
  bl ← matrix_block m;
  p ← malloc bl;
  mret (Matrix p (nrows m) (ncols m)).

Definition sublist {A} (lo hi : Z) (l : list A) : list A :=
  take (Z.to_nat (hi - lo)) (drop (Z.to_nat lo) l).

(** Modelled from the spec: [extract_section_matrix_double] of matrix.h,
    "sub-block extraction by a (top-left, bottom-right) coordinate pair": a
    new matrix of the rows [a.row .. b.row - 1] and columns
    [a.col .. b.col - 1], as [network_SGD] calls it with [b.row = nrows]. *)
Definition extract_section_matrix_double (m : matrix_double) (s : pair_coordinates)
  : M matrix_double :=
  bl ← matrix_block m;
  if decide (0 ≤ row (a s) ≤ row (b s) ∧ row (b s) ≤ nrows m ∧
             0 ≤ col (a s) ≤ col (b s) ∧ col (b s) ≤ ncols m) then
    p ← malloc (sublist (col (a s)) (col (b s)) <$> sublist (row (a s)) (row (b s)) bl);
    mret (Matrix p (row (b s) - row (a s)) (col (b s) - col (a s)))
  else undef.

Definition swap {A} (i j : nat) (l : list A) : list A :=
  match l !! i, l !! j with
  | Some x, Some y => <[i := y]> (<[j := x]> l)
  | _, _ => l
  end.

(** Modelled from the spec: [interchange_cols_matrix_double] of matrix.h,
    "in-place column interchange". *)
Definition interchange_cols_matrix_double (m : matrix_double) (i j : Z) : M () :=
  bl ← matrix_block m;
  if decide (0 ≤ i < ncols m ∧ 0 ≤ j < ncols m) then
    mstore (data m) (swap (Z.to_nat i) (Z.to_nat j) <$> bl)
  else undef.

(** Modelled from the spec: [copy_array_int] of matrix.h: the first [n]
    entries of [src], copied into the destination, which is the result. *)
Definition copy_array_int (n : Z) (src : list Z) : M (list Z) :=
  if decide (Z.to_nat n ≤ length src)%nat then mret (take (Z.to_nat n) src) else undef.

(** ** The sampler collaborator (random.h) and the clock *)

(** [time(NULL)] *)
Definition time : M Z := λ w, Done (clock w) w.

(** [rand_lim(limit)], on the generator's global state. *)
Definition rand_lim_call (limit : Z) : M Z :=
  λ w, let jr := rand_lim limit (rand w) in Done jr.1 (with_rand jr.2 w).

(** ** neuron.c *)

Record network := Network {
  n_layers : Z;
  biases : slots matrix_double;
  weights : slots matrix_double;
  net_structure : list Z
}.

Definition create_network (n_layers : Z) (net_structure : list Z) : M network :=
  let biases0 : slots matrix_double := slots_alloc (n_layers - 1) in
  let weights0 : slots matrix_double := slots_alloc (n_layers - 1) in
  ns ← copy_array_int n_layers net_structure;
  bw ← for_fold 0 (n_layers - 1) (λ i (bw : slots matrix_double * slots matrix_double),
      s1 ← lift_option (zlookup net_structure (i + 1));
      bi ← alloc_matrix_double s1 1;
      bs ← slot_set bw.1 i bi;
      s0 ← lift_option (zlookup net_structure i);
      wi ← alloc_matrix_double s1 s0;
      ws ← slot_set bw.2 i wi;
      mret (bs, ws)) (biases0, weights0);
  mret (Network n_layers bw.1 bw.2 ns).

Definition set_random_weights_biases (net : network) : M () :=
  seed ← time;
  for_fold 0 (n_layers net - 1) (λ i seed,
    nj ← lift_option (zlookup (net_structure net) (i + 1));
    for_fold 0 nj (λ j seed,
      bi ← slot_get (biases net) i;
      let g := gauss0 seed in
      data_set bi j 0 g.1;;
      nk ← lift_option (zlookup (net_structure net) i);
      for_fold 0 nk (λ k seed,
        wi ← slot_get (weights net) i;
        let g := gauss0 seed in
        data_set wi j k g.1;;
        mret g.2) g.2) seed) seed;;
  mret ().

Definition destroy_network (net : network) : M () :=
  for_range 0 (n_layers net - 1) (λ i,
    wi ← slot_get (weights net) i;
    free_matrix_double wi;;
    bi ← slot_get (biases net) i;
    free_matrix_double bi).

(** [1 / (1 + exp(-x))] *)
Definition sigma (x : D) : D := d_div d_one (d_add d_one (d_exp (d_opp x))).

Definition vectorized_sigma (matrix : matrix_double) : M () :=
  for_range 0 (nrows matrix) (λ i,
    for_range 0 (ncols matrix) (λ j,
      x ← data_get matrix i j;
      data_set matrix i j (sigma x))).

(** The array [output] the caller passes is the result: the entries the
    function writes into it. *)
Definition feedforward (net : network) (input : list D) : M (list D) :=
  n0 ← lift_option (zlookup (net_structure net) 0);
  activation ← alloc_matrix_double n0 1;
  set_col_matrix_double activation input 0;;
  activation ← for_fold 1 (n_layers net) (λ l activation,
    wl ← slot_get (weights net) (l - 1);
    zs ← matrix_product_matrix_double wl activation;
    free_matrix_double activation;;
    activation ← copy_matrix_double zs;
    vectorized_sigma activation;;
    free_matrix_double zs;;
    mret activation) activation;
  output ← copy_col_matrix_double activation 0;
  free_matrix_double activation;;
  mret output.

(** *** Files

    A stream open for writing is the bytes written so far, and [fclose]
    stores them under the file's name; a stream open for reading is the
    bytes not read yet.  An [int] takes 4 bytes and a [double] 8, in the
    host's order (least significant byte first). *)

Definition int_bytes (z : Z) : list Z :=
  (λ k, (z `div` 2 ^ (8 * Z.of_nat k)) `mod` 256) <$> seq 0 4.

Definition int_of_bytes (bs : list Z) : Z :=
  let u := foldr (λ x acc, x + 256 * acc) 0 bs in
  if decide (u < 2 ^ 31) then u else u - 2 ^ 32.

(** [fopen(filename, "rb")]: a stream on the file's bytes; a missing file
    gives the null pointer, which [fread] may not be given. *)
Definition fopen_rb (filename : string) : M (list Z) :=
  λ w, match files w !! filename with
       | Some bs => Done bs w
       | None => Undefined
       end.

(** [fclose] of a stream opened by [fopen(filename, "wb")]. *)
Definition fclose_wb (filename : string) (ptr : list Z) : M () :=
  λ w, Done () (with_files (insert filename ptr) w).

(** [fread(&x, size, 1, ptr)] of an [int]: the item when [size] bytes are
    left.  Otherwise the stream is exhausted and the destination holds no
    item: it is indeterminate, and the callers that go on to use it have
    no defined result. *)
Definition fread_item {A} (size : nat) (decode : list Z → A) (ptr : list Z)
  : option A * list Z :=
  if decide (size ≤ length ptr)%nat
  then (Some (decode (take size ptr)), drop size ptr)
  else (None, []).

(** [fread(arr, sizeof(int), n, ptr)] into a fresh array of [n] ints.  With
    fewer than [n] items left the array keeps indeterminate entries, which
    [load_network] goes on to read: no defined result. *)
Fixpoint fread_ints (n : nat) (ptr : list Z) : option (list Z * list Z) :=
  match n with
  | O => Some ([], ptr)
  | S n' =>
    match fread_item 4 int_of_bytes ptr with
    | (Some x, ptr') =>
      match fread_ints n' ptr' with
      | Some (xs, ptr'') => Some (x :: xs, ptr'')
      | None => None
      end
    | (None, _) => None
    end
  end.

(** The lvalue [m.data[i][j]] must exist for its address to be taken. *)
Definition data_addr (m : matrix_double) (i j : Z) : M () :=
  data_get m i j;; mret ().

(** [fread(&m.data[i][j], sizeof(double), 1, ptr)].  With 8 bytes left
    the entry becomes the [double] they are; with fewer, the bytes are
    stored over the start of the entry, which is indeterminate from then
    on; with none, nothing is stored.  The result is never looked at. *)
Definition fread_double_into (m : matrix_double) (i j : Z) (ptr : list Z) : M (list Z) :=
  data_addr m i j;;
  (if decide (8 ≤ length ptr)%nat then data_set m i j (d_of_bytes (take 8 ptr))
   else if decide (ptr = []) then mret ()
   else x ← data_get m i j; data_set m i j (d_partial ptr x));;
  mret (drop 8 ptr).

Definition save_network (net : network) (filename : string) : M () :=
  let ptr : list Z := [] in
  let ptr := ptr ++ int_bytes (n_layers net) in
  ns ← copy_array_int (n_layers net) (net_structure net);
  let ptr := ptr ++ mjoin (int_bytes <$> ns) in
  ptr ← for_fold 0 (n_layers net - 1) (λ l ptr,
    n_neurons ← lift_option (zlookup (net_structure net) (l + 1));
    n_neurons_prev ← lift_option (zlookup (net_structure net) l);
    for_fold 0 n_neurons (λ i ptr,
      bl ← slot_get (biases net) l;
      x ← data_get bl i 0;
      let ptr := ptr ++ d_bytes x in
      for_fold 0 n_neurons_prev (λ j ptr,
        wl ← slot_get (weights net) l;
        x ← data_get wl i j;
        mret (ptr ++ d_bytes x)) ptr) ptr) ptr;
  fclose_wb filename ptr.

(** Neither [fopen], nor the count that is read, nor any [fread] is
    checked. *)
Definition load_network (filename : string) : M network :=
  ptr ← fopen_rb filename;
  let r := fread_item 4 int_of_bytes ptr in
  n_layers ← lift_option r.1;
  let ptr := r.2 in
  nsp ← lift_option (fread_ints (Z.to_nat n_layers) ptr);
  let net_structure := nsp.1 in
  let ptr := nsp.2 in
  net ← create_network n_layers net_structure;
  for_fold 0 (n_layers - 1) (λ l ptr,
    n_neurons ← lift_option (zlookup net_structure (l + 1));
    n_neurons_prev ← lift_option (zlookup net_structure l);
    for_fold 0 n_neurons (λ i ptr,
      bl ← slot_get (biases net) l;
      ptr ← fread_double_into bl i 0 ptr;
      for_fold 0 n_neurons_prev (λ j ptr,
        wl ← slot_get (weights net) l;
        fread_double_into wl i j ptr) ptr) ptr) ptr;;
  mret net.

(** *** Training *)

(** [for (i = n; i >= 1; i--) body(i)] *)
Fixpoint for_down (n : nat) (body : Z → M ()) : M () :=
  match n with
  | O => mret ()
  | S n' => body (Z.of_nat n);; for_down n' body
  end.

Definition shuffle_data (data labels : matrix_double) : M () :=
  for_down (Z.to_nat (ncols data - 1)) (λ i,
    j ← rand_lim_call i;
    interchange_cols_matrix_double data i j;;
    interchange_cols_matrix_double labels i j).

Definition calculate_costs (labels : matrix_double) (outputs : slots matrix_double)
  : M matrix_double :=
  alloc_matrix_double 0 0.

(** [arr[l][i]] and [arr[l][i] = x] for the arrays
    [matrix_double arr[n_layers][ncols]] of [network_backprop]. *)
Definition slot2_get (arr : list (slots matrix_double)) (l i : Z) : M matrix_double :=
  r ← lift_option (zlookup arr l); slot_get r i.

Definition slot2_set (arr : list (slots matrix_double)) (l i : Z) (x : matrix_double)
  : M (list (slots matrix_double)) :=
  r ← lift_option (zlookup arr l);
  r' ← slot_set r i x;
  lift_option (zinsert arr l r').

Definition network_backprop (net : network) (training_data training_labels : matrix_double)
  : M () :=
  let zs : list (slots matrix_double) :=
    replicate (Z.to_nat (n_layers net)) (slots_alloc (ncols training_data)) in
  let activs : list (slots matrix_double) :=
    replicate (Z.to_nat (n_layers net)) (slots_alloc (ncols training_data)) in
  let costs : option matrix_double := None in
  st ← for_fold 0 (ncols training_data)
    (λ i (st : list (slots matrix_double) * list (slots matrix_double) * option matrix_double),
      let zs := st.1.1 in
      let activs := st.1.2 in
      a0 ← alloc_matrix_double (nrows training_data) 1;
      activs ← slot2_set activs 0 i a0;
      input ← copy_col_matrix_double training_data i;
      a0 ← slot2_get activs 0 i;
      set_col_matrix_double a0 input 0;;
      z0 ← alloc_matrix_double 0 0;
      zs ← slot2_set zs 0 i z0;
      za ← for_fold 1 (n_layers net)
        (λ l (za : list (slots matrix_double) * list (slots matrix_double)),
          wl ← slot_get (weights net) (l - 1);
          al ← slot2_get za.2 (l - 1) i;
          z ← matrix_product_matrix_double wl al;
          zs ← slot2_set za.1 l i z;
          zl ← slot2_get zs l i;
          al ← copy_matrix_double zl;
          activs ← slot2_set za.2 l i al;
          al ← slot2_get activs l i;
          vectorized_sigma al;;
          mret (zs, activs)) (zs, activs);
      outputs ← lift_option (zlookup za.2 (n_layers net - 1));
      costs ← calculate_costs training_labels outputs;
      mret (za.1, za.2, Some costs)) (zs, activs, costs);
  let zs := st.1.1 in
  let activs := st.1.2 in
  costs ← lift_option st.2;
  free_matrix_double costs;;
  for_range 0 (ncols training_data) (λ i,
    for_range 0 (ncols training_data) (λ l,
      al ← slot2_get activs l i;
      free_matrix_double al;;
      zl ← slot2_get zs l i;
      free_matrix_double zl)).

(** [x + y] on [int]: an overflow has no defined result. *)
Definition int_add (x y : Z) : M Z :=
  if decide (in_int (x + y)) then mret (x + y) else undef.

(** The loop [for (j = 0; j < data_size; j += mini_batch_size)] of
    [network_SGD], from the point where the condition is tested.  It need
    not end, so it runs on [fuel]. *)
Fixpoint mini_batches (fuel : nat) (net : network)
    (training_data training_labels : matrix_double)
    (mini_batch_size data_size j : Z) : M () :=
  match fuel with
  | O => out_of_fuel
  | S fuel' =>
    if decide (j < data_size) then
      k ← int_add j mini_batch_size;
      let k := if decide (k > data_size) then data_size else k in
      let section := Pair_coordinates (Coordinate 0 j)
                                      (Coordinate (nrows training_data) k) in
      mini_batch_data ← extract_section_matrix_double training_data section;
      let section := Pair_coordinates (a section)
                                      (Coordinate (nrows training_labels) (col (b section))) in
      mini_batch_labels ← extract_section_matrix_double training_labels section;
      network_backprop net mini_batch_data mini_batch_labels;;
      free_matrix_double mini_batch_data;;
      free_matrix_double mini_batch_labels;;
      j ← int_add j mini_batch_size;
      mini_batches fuel' net training_data training_labels mini_batch_size data_size j
    else mret ()
  end.

Definition network_SGD (fuel : nat) (net : network)
    (training_data training_labels : matrix_double)
    (epochs mini_batch_size : Z) (eta : D) : M () :=
  let data_size := ncols training_data in
  for_range 0 epochs (λ i,
    shuffle_data training_data training_labels;;
    mini_batches fuel net training_data training_labels mini_batch_size data_size 0).

End Neuron.

Arguments Done {D Smp A} a w.
Arguments Undefined {D Smp A}.
Arguments OutOfFuel {D Smp A}.

(** ** Well-formed handles and networks *)

Section Shapes.
Context {D : Type} `{DblOps : Double D} `{Smp : Sampler D}.

(** The handles an array of slots holds. *)
Definition handles (s : slots matrix_double) : list matrix_double := omap (λ x, x) s.

(** The storage a network owns. *)
Definition net_addrs (net : network) : list positive :=
  data <$> (handles (biases net) ++ handles (weights net)).

(** In [w] the handle [m] has storage of its dimensions. *)
Definition matrix_ok (w : world) (m : matrix_double) : Prop :=
  ∃ bl, heap w !! data m = Some bl ∧ has_dims bl (nrows m) (ncols m).

(** Layer [l] of [net]: the handles of its weights and biases, and the
    sizes of the two layers they connect. *)
Record layer_of (net : network) (l : nat) (wm bm : matrix_double) (s0 s1 : Z) : Prop := {
  layer_s0 : net_structure net !! l = Some s0;
  layer_s1 : net_structure net !! S l = Some s1;
  layer_w : weights net !! l = Some (Some wm);
  layer_b : biases net !! l = Some (Some bm);
  layer_w_rows : nrows wm = s1;
  layer_w_cols : ncols wm = s0;
  layer_b_rows : nrows bm = s1;
  layer_b_cols : ncols bm = 1
}.

(** The shape invariant of a network in a world: one size per layer, one
    weight matrix and one bias vector per layer but the first, each of the
    dimensions the sizes give, each with storage of its own. *)
Record net_ok (w : world) (net : network) : Prop := {
  ok_structure : Z.of_nat (length (net_structure net)) = n_layers net;
  ok_sizes : Forall (λ s, 0 ≤ s) (net_structure net);
  ok_biases : length (biases net) = Z.to_nat (n_layers net - 1);
  ok_weights : length (weights net) = Z.to_nat (n_layers net - 1);
  ok_layers : ∀ l, (l < Z.to_nat (n_layers net - 1))%nat →
    ∃ wm bm s0 s1, layer_of net l wm bm s0 s1 ∧ matrix_ok w wm ∧ matrix_ok w bm;
  ok_separate : NoDup (net_addrs net)
}.

(** What [create_network] has built after [k] rounds of its loop: the
    handles [bms] and [wms] of the layers so far, each with fresh storage
    of the layer's dimensions that no write has reached yet. *)
Definition created (ns : list Z) (w0 w : world) (k : nat) (bms wms : list matrix_double) : Prop :=
  files w = files w0 ∧ clock w = clock w0 ∧ rand w = rand w0 ∧
  (∀ p, p ∈ dom (heap w0) → heap w !! p = heap w0 !! p) ∧
  length bms = k ∧ length wms = k ∧
  (∀ l bm wm, bms !! l = Some bm → wms !! l = Some wm →
     ∃ s0 s1, ns !! l = Some s0 ∧ ns !! S l = Some s1 ∧ 0 ≤ s0 ∧ 0 ≤ s1 ∧
       bm = Matrix (data bm) s1 1 ∧ wm = Matrix (data wm) s1 s0 ∧
       heap w !! data bm = Some (replicate (Z.to_nat s1) (replicate 1 d_uninit)) ∧
       heap w !! data wm = Some (replicate (Z.to_nat s1) (replicate (Z.to_nat s0) d_uninit))) ∧
  NoDup (data <$> (bms ++ wms)) ∧
  (∀ p, p ∈ data <$> (bms ++ wms) → p ∉ dom (heap w0)).

(** ** Total and partial correctness

    [wp m w Q]: from [w] the computation [m] returns, with a result and a
    world that satisfy [Q].  [wlp m w Q]: if it returns, they satisfy [Q]. *)

Definition wp {A} (m : M A) (w : world) (Q : A → world → Prop) : Prop :=
  ∃ x w', m w = Done x w' ∧ Q x w'.

Definition wlp {A} (m : M A) (w : world) (Q : A → world → Prop) : Prop :=
  ∀ x w', m w = Done x w' → Q x w'.

(** The world [w] with the heap [h]. *)
Definition set_heap (h : gmap positive (list (list D))) (w : world) : world :=
  World h (files w) (clock w) (rand w).

(** The spec's words for the forward pass: "[sigmoid(x) = 1/(1+e^{-x})]",
    and "let [a_0 = input]; for [l = 1..L-1]: [z_l = weights[l-1] · a_(l-1)];
    [a_l = sigmoid(z_l)] applied elementwise; return [a_(L-1)]".  No bias
    enters. *)
Definition sigmoid (x : D) : D := d_div d_one (d_add d_one (d_exp (d_opp x))).

Definition mat_vec (W : list (list D)) (v : list D) : list D := (λ rw, dot rw v) <$> W.

Definition forward_spec (Ws : list (list (list D))) (input : list D) : list D :=
  foldl (λ a_prev W, sigmoid <$> mat_vec W a_prev) input Ws.

(** The weighted inputs of the last layer, [z_(L-1)]: what the last
    sigmoid is applied to. *)
Definition last_weighted (Ws : list (list (list D))) (input : list D) : list D :=
  match reverse Ws with
  | [] => []
  | W :: before => mat_vec W (forward_spec (reverse before) input)
  end.

(** A vector as the storage of a matrix of one column. *)
Definition col_block (v : list D) : list (list D) := (λ x, [x]) <$> v.

(** The storage of the weight matrices of a network, layer by layer. *)
Definition weight_blocks (w : world) (net : network) : option (list (list (list D))) :=
  mapM (λ s : option matrix_double, m ← s; heap w !! data m) (weights net).

(** The spec's words for the shuffle, on one list: for [i] from [n] down to
    1, draw [j] with limit [i] and swap the entries [i] and [j]. *)
Fixpoint fisher_yates {A} (n : nat) (r : rng) (l : list A) : list A * rng :=
  match n with
  | O => (l, r)
  | S n' =>
    let jr := rand_lim (Z.of_nat n) r in
    fisher_yates n' jr.2 (swap n (Z.to_nat jr.1) l)
  end.

(** The sampler keeps its contract: a draw with limit [i] is in [0, i]. *)
Definition rand_lim_in_range : Prop :=
  ∀ limit r, 0 ≤ limit → 0 ≤ (rand_lim limit r).1 ≤ limit.

(** The index that [swap i j] moves to position [k]. *)
Definition transpose (i j k : nat) : nat :=
  if decide (k = i) then j else if decide (k = j) then i else k.

(** The storage at the addresses [P] is what it is in [h0]. *)
Definition keeps (P : list positive) (h0 : gmap positive (list (list D))) (w : world) : Prop :=
  ∀ p, p ∈ P → heap w !! p = h0 !! p.

(** A computation that keeps [P] and whose result satisfies [R]. *)
Definition frame_post {A} (P : list positive) (h0 : gmap positive (list (list D)))
    (R : A → Prop) : A → world → Prop :=
  λ x w, keeps P h0 w ∧ R x.

(** No handle stored in the array points into [P]. *)
Definition clean (P : list positive) (arr : list (slots matrix_double)) : Prop :=
  ∀ l i rw m, arr !! l = Some rw → rw !! i = Some (Some m) → data m ∉ P.

(** *** Filling the parameters from a source of values

    [set_random_weights_biases] and [load_network] walk the parameters in
    one order: layer by layer, neuron by neuron, the bias and then the
    weights of the neuron.  [next] is the source: from a state it gives what
    becomes of an entry (a new value, whatever the entry held, for a
    source that does not run dry) and the state after. *)

Section Source.
Context {St : Type} (next : St → (D → D) * St).

Fixpoint fill_list (old : list D) (s : St) : list D * St :=
  match old with
  | [] => ([], s)
  | x :: old' =>
    let r := next s in
    let rest := fill_list old' r.2 in
    (r.1 x :: rest.1, rest.2)
  end.

Fixpoint fill_rows (bold wold : list (list D)) (s : St)
  : (list (list D) * list (list D)) * St :=
  match bold, wold with
  | brow :: bold', wrow :: wold' =>
    let rb := fill_list brow s in
    let rw := fill_list wrow rb.2 in
    let rest := fill_rows bold' wold' rw.2 in
    ((rb.1 :: rest.1.1, rw.1 :: rest.1.2), rest.2)
  | _, _ => (([], []), s)
  end.

Fixpoint fill_layers (old : list (list (list D) * list (list D))) (s : St)
  : list (list (list D) * list (list D)) * St :=
  match old with
  | [] => ([], s)
  | bw :: old' =>
    let r := fill_rows bw.1 bw.2 s in
    let rest := fill_layers old' r.2 in
    (r.1 :: rest.1, rest.2)
  end.

(** The heap after filling the layers [hs] in turn. *)
Fixpoint fill_heap (hs : list (matrix_double * matrix_double)) (s : St)
    (h : gmap positive (list (list D))) : gmap positive (list (list D)) * St :=
  match hs with
  | [] => (h, s)
  | bw :: hs' =>
    let r := fill_rows (default [] (h !! data bw.1)) (default [] (h !! data bw.2)) s in
    fill_heap hs' r.2 (<[data bw.2 := r.1.2]> (<[data bw.1 := r.1.1]> h))
  end.

(** The source never runs dry: every entry gets a value of the source's. *)
Definition unfailing : Prop := ∀ s, ∃ y, ∀ x, (next s).1 x = y.

End Source.

(** The handles of the layers, biases first. *)
Definition layer_handles (net : network) : list (matrix_double * matrix_double) :=
  zip (handles (biases net)) (handles (weights net)).

(** The storage of the layers in a heap. *)
Definition layer_blocks (h : gmap positive (list (list D)))
    (hs : list (matrix_double * matrix_double)) : list (list (list D) * list (list D)) :=
  (λ bw, (default [] (h !! data bw.1), default [] (h !! data bw.2))) <$> hs.

(** No two of the handles share storage. *)
Fixpoint separate (hs : list (matrix_double * matrix_double)) : Prop :=
  match hs with
  | [] => True
  | bw :: hs' =>
    data bw.1 ≠ data bw.2 ∧
    (data bw.1 ∉ data <$> hs'.*1) ∧ (data bw.1 ∉ data <$> hs'.*2) ∧
    (data bw.2 ∉ data <$> hs'.*1) ∧ (data bw.2 ∉ data <$> hs'.*2) ∧
    separate hs'
  end.

(** Rows of the same lengths, row by row. *)
Definition same_shape (B B' : list (list D)) : Prop :=
  Forall2 (λ r r' : list D, length r = length r') B B'.

(** The source [set_random_weights_biases] draws from: [gauss0] on the
    seed. *)
Definition gauss_next (seed : Z) : (D → D) * Z := (λ _, (gauss0 seed).1, (gauss0 seed).2).

End Shapes.


(** ** The bytes of a network *)

Section Images.
Context {D : Type} `{DblOps : Double D} `{DblRepr : DoubleRepr D} `{Smp : Sampler D}.

Definition encode_list (row : list D) : list Z := mjoin (d_bytes <$> row).

(** Neuron by neuron: the bias and then the weights of the neuron. *)
Definition encode_rows (B W : list (list D)) : list Z :=
  mjoin ((λ bw : list D * list D, encode_list bw.1 ++ encode_list bw.2) <$> zip B W).

Definition encode_layers (L : list (list (list D) * list (list D))) : list Z :=
  mjoin ((λ bw, encode_rows bw.1 bw.2) <$> L).

(** The file of a network of [n] layers of the sizes [ns] whose layers
    hold [L]: the layer count, the sizes, the parameters. *)
Definition file_image (n : Z) (ns : list Z) (L : list (list (list D) * list (list D)))
  : list Z :=
  int_bytes n ++ mjoin (int_bytes <$> ns) ++ encode_layers L.

(** The source [load_network] fills the parameters from: [fread] of one
    [double].  A whole item replaces the entry; the bytes of a torn one
    leave it indeterminate; an exhausted stream leaves it as it is. *)
Definition fread_next (ptr : list Z) : (D → D) * list Z :=
  (if decide (8 ≤ length ptr)%nat then λ _, d_of_bytes (take 8 ptr)
   else if decide (ptr = []) then λ x, x
   else d_partial ptr,
   drop 8 ptr).

End Images.
(** ** Binary64 numbers

    The [double] of the host: Rocq's primitive floats are IEEE 754 binary64
    with round-to-nearest-even, which is what [+], [*] and [/] on a C
    [double] compute. *)

Module Binary64.
Import Stdlib.Floats.Floats.

Definition of_Z (z : Z) : float :=
  if decide (z < 0) then (- of_uint63 (Uint63.of_Z (- z)))%float
  else of_uint63 (Uint63.of_Z z).

(** The integer part of a finite number, rounded down. *)
Definition floor (x : float) : Z :=
  match Prim2SF x with
  | S754_finite s m e =>
    let v := if decide (0 ≤ e) then Z.pos m * 2 ^ e
             else if s then - ((- Z.pos m) `div` 2 ^ (- e)) else Z.pos m `div` 2 ^ (- e) in
    if s then - v else v
  | _ => 0
  end.

(** [1 + r (1 + r/2 (1 + r/3 (... (1 + r/n))))], the Taylor polynomial of
    [exp] at 0. *)
Fixpoint exp_poly (r : float) (n : nat) (acc : float) : float :=
  match n with
  | O => acc
  | S n' => exp_poly r n' (1 + r / of_Z (Z.of_nat n) * acc)%float
  end.

(** Modelled from the spec: [exp] of the C library (math.h), which the
    repository calls and does not define.  The usual scheme: write
    [x = k ln 2 + r] with [k] the nearest integer, evaluate the polynomial
    at [r] and scale by [2^k]; out of range the result is [+inf] or [0]. *)
Definition exp (x : float) : float :=
  if is_nan x then x
  else if (0x1.62e42fefa39efp+9 <? x)%float then infinity
  else if (x <? -0x1.74910d52d3051p+9)%float then 0%float
  else
    let k := floor (x * 0x1.71547652b82fep+0 + 0.5)%float in
    let kf := of_Z k in
    let r := (x - kf * 0x1.62e42fee00000p-1 - kf * 0x1.a39ef35793c76p-33)%float in
    Z.ldexp (exp_poly r 13 1%float) k.

(** *** The object representation

    The 8 bytes of a [double] in memory, which [fwrite] copies to a file
    and [fread] copies back: the IEEE 754 binary64 interchange format,
    least significant byte first.  From the top bit down: the sign, 11
    bits of biased exponent, 52 bits of fraction. *)

Definition sign_bit (s : bool) : Z := if s then 2 ^ 63 else 0.

Definition bits_of_SF (x : spec_float) : Z :=
  match x with
  | S754_zero s => sign_bit s
  | S754_infinity s => sign_bit s + 2047 * 2 ^ 52
  | S754_nan => 2047 * 2 ^ 52 + 2 ^ 51
  | S754_finite s m e =>
    sign_bit s +
    (if decide (2 ^ 52 ≤ Z.pos m) then (e + 1075) * 2 ^ 52 + (Z.pos m - 2 ^ 52)
     else Z.pos m)
  end.

Definition SF_of_bits (b : Z) : spec_float :=
  let s := bool_decide (2 ^ 63 ≤ b `mod` 2 ^ 64) in
  let e := (b `div` 2 ^ 52) `mod` 2 ^ 11 in
  let m := b `mod` 2 ^ 52 in
  if decide (e = 0) then
    match m with Z.pos p => S754_finite s p (-1074) | _ => S754_zero s end
  else if decide (e = 2047) then
    if decide (m = 0) then S754_infinity s else S754_nan
  else
    match m + 2 ^ 52 with Z.pos p => S754_finite s p (e - 1075) | _ => S754_nan end.

(** The [n] low bytes of [z], least significant first, and back. *)
Definition le_bytes (n : nat) (z : Z) : list Z :=
  (λ k, (z `div` 2 ^ (8 * Z.of_nat k)) `mod` 256) <$> seq 0 n.

Definition of_le_bytes (bs : list Z) : Z := foldr (λ x acc, x + 256 * acc) 0 bs.

Definition bytes (x : float) : list Z := le_bytes 8 (bits_of_SF (Prim2SF x)).

Definition of_bytes (bs : list Z) : float := SF2Prim (SF_of_bits (of_le_bytes bs)).

(** What a [double] that held [x] is read as after [fread] stored the
    bytes [bs], fewer than 8, over its start: the other bytes are those
    of [x] still. *)
Definition partial (bs : list Z) (x : float) : float :=
  of_bytes (bs ++ drop (length bs) (bytes x)).

(** The operations of [neuron.c] on binary64 numbers, whatever function
    the C library has for [exp]. *)
Definition double_with (libm_exp : float → float) : Double float := {|
  d_zero := 0%float;
  d_one := 1%float;
  d_add := PrimFloat.add;
  d_mul := PrimFloat.mul;
  d_div := PrimFloat.div;
  d_opp := PrimFloat.opp;
  d_exp := libm_exp;
  d_uninit := nan
|}.

#[export] Instance double : Double float := double_with exp.

(** The binary64 number 1. *)
Definition SF_one : spec_float := S754_finite false 4503599627370496 (-52).

(** A NaN, or a number that is not negative: what the [exp] of the C
    library returns. *)
Definition nonneg_or_nan (e : float) : Prop :=
  is_nan e = true ∨ (0 <=? e)%float = true.

(** A NaN, or a number from 0 to 1, the bounds included. *)
Definition unit_or_nan (y : float) : Prop :=
  is_nan y = true ∨ ((0 <=? y)%float = true ∧ (y <=? 1)%float = true).

End Binary64.

(** ** A sampler

    Modelled from the spec: the sampler collaborator of random.h, "normal(seed)
    → float64 (standard normal deviate, mutates seed), uniformInt(seed, limit)
    → integer in [0, limit]".  A linear congruential generator; the normal
    deviate is the sum of twelve uniform draws less six. *)

Section Lcg.
Context {D : Type} `{DblOps : Double D} (of_Z : Z → D).

Definition lcg (s : Z) : Z :=
  Z.of_N (N.land (Z.to_N s * 1103515245 + 12345) 2147483647).

Fixpoint lcg_sum (n : nat) (s : Z) (acc : D) : D * Z :=
  match n with
  | O => (acc, s)
  | S n' => lcg_sum n' (lcg s) (d_add acc (d_div (of_Z (lcg s)) (of_Z (2 ^ 31))))
  end.

Definition lcg_gauss0 (seed : Z) : D * Z :=
  let r := lcg_sum 12 seed d_zero in (d_add r.1 (d_opp (of_Z 6)), r.2).

Definition lcg_rand_lim (limit : Z) (s : Z) : Z * Z :=
  (lcg s `mod` (limit + 1), lcg s).

Definition lcg_sampler : Sampler D :=
  {| rng := Z; gauss0 := lcg_gauss0; rand_lim := lcg_rand_lim |}.

End Lcg.

(** A world with an empty heap and no files, for concrete runs on
    binary64 numbers. *)
Definition float_sampler : Sampler PrimFloat.float :=
  @lcg_sampler PrimFloat.float Binary64.double Binary64.of_Z.

Definition boot (clk seed : Z) : @world PrimFloat.float float_sampler :=
  @World PrimFloat.float float_sampler ∅ ∅ clk seed.

(** A network of two layers of one neuron each, and a world that holds its
    bias [bias] and its weight [wt] and nothing else. *)
Definition net11 : network :=
  Network 2 [Some (Matrix 1 1 1)] [Some (Matrix 2 1 1)] [1; 1].

Definition world11 {D : Type} `{Smp : Sampler D} (bias wt : D) (r : rng) : world :=
  World (<[2%positive := [[wt]]]> (<[1%positive := [[bias]]]> ∅)) ∅ 0 r.

(** Training data of three examples: inputs of two entries, labels of
    one, in a world that holds nothing else. *)
Definition data23 : matrix_double := Matrix 1 2 3.
Definition labels13 : matrix_double := Matrix 2 1 3.

Section Corpus.
Import PrimFloat.

(** The network [net11] with two training examples: inputs at address 3,
    labels at address 4. *)
Definition examples12 : matrix_double := Matrix 3 1 2.
Definition targets12 : matrix_double := Matrix 4 1 2.

Definition classroom : @world PrimFloat.float float_sampler :=
  @World PrimFloat.float float_sampler
    (<[4%positive := [[1; 0]%float]]>
       (<[3%positive := [[0.5; -0.25]%float]]>
          (<[2%positive := [[1%float]]]> (<[1%positive := [[0%float]]]> ∅)))) ∅ 0 7.

(** A corpus of no examples. *)
Definition no_examples : matrix_double := Matrix 3 1 0.
Definition no_targets : matrix_double := Matrix 4 1 0.

Definition recess : @world PrimFloat.float float_sampler :=
  @World PrimFloat.float float_sampler
    (<[4%positive := [[]]]>
       (<[3%positive := [[]]]>
          (<[2%positive := [[1%float]]]> (<[1%positive := [[0%float]]]> ∅)))) ∅ 0 7.

(** The world [w] when the clock reads [c]. *)
Definition at_time (c : Z) (w : @world PrimFloat.float float_sampler)
  : @world PrimFloat.float float_sampler :=
  World (heap w) (files w) c (rand w).

(** Whether a run returns. *)
Definition returns {A} (o : @outcome PrimFloat.float float_sampler A) : bool :=
  match o with Done _ _ => true | _ => false end.

(** The world a run ends in, or [w] when it does not return. *)
Definition final {A} (o : @outcome PrimFloat.float float_sampler A)
    (w : @world PrimFloat.float float_sampler) : @world PrimFloat.float float_sampler :=
  match o with Done _ w' => w' | _ => w end.

(** A world with two files and nothing in memory.  Both start with the
    header of a network of two layers of one neuron each, which has one
    bias and one weight; [whole.bin] goes on with two numbers and
    [cut.bin] with one. *)
Definition header11 : list Z := int_bytes 2 ++ mjoin (int_bytes <$> [1; 1]).

Definition shelf : @world PrimFloat.float float_sampler :=
  @World PrimFloat.float float_sampler ∅
    (<["cut.bin"%string := header11 ++ Binary64.bytes 0.5%float]>
       (<["whole.bin"%string := header11 ++ Binary64.bytes 0.5%float ++ Binary64.bytes (-1.25)%float]> ∅))
    0 1.

(** A world with one file, which ends inside the second number: after the
    header and the 8 bytes of 0.5 come 3 bytes of the 8 of -1.25. *)
Definition torn : @world PrimFloat.float float_sampler :=
  @World PrimFloat.float float_sampler ∅
    (<["torn.bin"%string := header11 ++ Binary64.bytes 0.5%float ++ [0; 0; 0]]> ∅) 0 1.

Definition corpus (seed : Z) : @world PrimFloat.float float_sampler :=
  @World PrimFloat.float float_sampler
    (<[2%positive := [[10; 20; 30]%float]]>
       (<[1%positive := [[1; 2; 3]%float; [4; 5; 6]%float]]> ∅)) ∅ 0 seed.

End Corpus.


(** ** More of the program: lifetime, parameters, training *)

(** The number of parameters of a network of the layer sizes [ns]: for
    each layer but the first, one bias and one weight per neuron of the
    layer before, for each of its neurons. *)
Fixpoint param_count (ns : list Z) : Z :=
  match ns with
  | [] => 0
  | s0 :: ns' =>
    match ns' with
    | [] => 0
    | s1 :: _ => s1 * (s0 + 1) + param_count ns'
    end
  end.

(** The arrays [zs] and [activs] of [network_backprop] and the places in
    them: [Cell KA l i] is [activs[l][i]], [Cell KZ l i] is [zs[l][i]], and
    [Cost i] is what [costs] holds after example [i]. *)
Inductive kind := KA | KZ.
Inductive tag := Cell (kd : kind) (l i : nat) | Cost (i : nat).

#[global] Instance kind_eq_dec : EqDecision kind.
Proof. solve_decision. Defined.
#[global] Instance tag_eq_dec : EqDecision tag.
Proof. solve_decision. Defined.

Definition cell (arr : list (list (option matrix_double))) (l i : nat)
  : option (option matrix_double) :=
  arr !! l ≫= (λ row, row !! i).

Definition pick (kd : kind) (zs activs : list (list (option matrix_double)))
  : list (list (option matrix_double)) :=
  match kd with KA => activs | KZ => zs end.

(** The places filled when the examples before [i] are done, and when in
    addition the layers before [l] of example [i] are. *)
Definition V_main (n i : nat) (t : tag) : Prop :=
  match t with
  | Cell _ l i' => (l < n)%nat ∧ (i' < i)%nat
  | Cost i' => (i' < i)%nat
  end.

Definition V_in (n i l : nat) (t : tag) : Prop :=
  V_main n i t ∨
  match t with
  | Cell _ l' i' => i' = i ∧ (l' < l)%nat
  | Cost _ => False
  end.

(** The places whose storage the cleanup of [network_backprop] has
    released when it is at example [i] and layer [l], for a batch of [c]
    examples. *)
Definition freed (c i l : nat) (t : tag) : Prop :=
  match t with
  | Cell _ l' i' => (i' < i)%nat ∧ (l' < c)%nat ∨ i' = i ∧ (l' < l)%nat
  | Cost i' => i' = (c - 1)%nat
  end.

(** The number of blocks a call of [network_backprop] on a batch of [c]
    columns leaves allocated, for a network of [n] layers. *)
Definition backprop_leak (n c : Z) : Z := 2 * c * (n - c) + (c - 1).

(** The same for one epoch of [network_SGD] over [N] examples in batches of
    [m]: [N / m] whole batches and, if [m] does not divide [N], the rest. *)
Definition epoch_leak (n m N : Z) : Z :=
  (N / m) * backprop_leak n m
  + (if decide (N mod m = 0) then 0 else backprop_leak n (N mod m)).

Section More.
Context {D : Type} `{DblOps : Double D} `{Smp : Sampler D}.

(** The storage [destroy_network] has released after [k] rounds: that of
    the first [k] layers. *)
Definition released (net : network) (k : nat) : list positive :=
  data <$> (take k (handles (biases net)) ++ take k (handles (weights net))).

(** The first [n] draws of [gauss0] from a seed, and the seed after. *)
Fixpoint gauss_draws (n : nat) (seed : Z) : list D * Z :=
  match n with
  | O => ([], seed)
  | S n' =>
    let g := gauss0 seed in
    let r := gauss_draws n' g.2 in
    (g.1 :: r.1, r.2)
  end.

(** The parameters in the order the program walks them: layer by layer,
    neuron by neuron, the bias and then the weights of the neuron. *)
Definition parameters (L : list (list (list D) * list (list D))) : list D :=
  mjoin ((λ bw : list (list D) * list (list D),
            mjoin ((λ r : list D * list D, r.1 ++ r.2) <$> zip bw.1 bw.2)) <$> L).

(** The generator of [rand_lim] after the draws with the limits [n],
    [n - 1], ..., 1. *)
Fixpoint rand_after (n : nat) (r : rng) : rng :=
  match n with
  | O => r
  | S n' => rand_after n' (rand_lim (Z.of_nat n) r).2
  end.

(** A computation that never stops for lack of fuel. *)
Definition fuelless {A} (m : M A) : Prop := ∀ w, m w ≠ OutOfFuel.

(** What the bookkeeping of [network_backprop] maintains, from a world
    [w]: the matrices at the places [V] are [k] in number, each in storage
    of its own that [w] did not have, and [w]'s storage is as it was. *)
Record tracked (w : world) (n c : nat) (V : tag → Prop) (k : nat)
    (zs activs : list (list (option matrix_double))) (addr : tag → positive)
    (w' : world) : Prop := {
  tr_files : files w' = files w;
  tr_clock : clock w' = clock w;
  tr_rand : rand w' = rand w;
  tr_frame : ∀ p, p ∈ dom (heap w) → heap w' !! p = heap w !! p;
  tr_size : size (dom (heap w')) = (size (dom (heap w)) + k)%nat;
  tr_zs : length zs = n;
  tr_activs : length activs = n;
  tr_zs_rows : Forall (λ row, length row = c) zs;
  tr_activs_rows : Forall (λ row, length row = c) activs;
  tr_alloc : ∀ t, V t → is_Some (heap w' !! addr t) ∧ heap w !! addr t = None;
  tr_inj : ∀ t1 t2, V t1 → V t2 → addr t1 = addr t2 → t1 = t2;
  tr_cells : ∀ kd l i, V (Cell kd l i) →
    ∃ m, cell (pick kd zs activs) l i = Some (Some m) ∧ data m = addr (Cell kd l i)
}.

(** The cleanup of [network_backprop], from [free_matrix_double(costs)]
    on. *)
Definition backprop_cleanup (zs activs : list (list (option matrix_double)))
    (costs : matrix_double) (cols : Z) : M () :=
  free_matrix_double costs;;
  for_range 0 cols (λ i,
    for_range 0 cols (λ l,
      al ← slot2_get activs l i;
      free_matrix_double al;;
      zl ← slot2_get zs l i;
      free_matrix_double zl)).

(** The world during that cleanup, [cnt] releases in, from the world [w]
    in which [network_backprop] was called on [n] layers and [c] examples,
    the matrices of the places being at the addresses [addr]: the storage
    of the places [F] is released, the rest is allocated still. *)
Definition cleaning (w : world) (n c : nat) (addr : tag → positive)
    (F : tag → Prop) (cnt : nat) (w' : world) : Prop :=
  files w' = files w ∧ clock w' = clock w ∧ rand w' = rand w ∧
  (∀ p, p ∈ dom (heap w) → heap w' !! p = heap w !! p) ∧
  (size (dom (heap w')) + cnt = size (dom (heap w)) + c * (2 * n + 1))%nat ∧
  ∀ t, V_main n c t → ¬ F t → is_Some (heap w' !! addr t).

(** [w] is [w0] with [s] more blocks: nothing that was allocated in [w0]
    has changed, and the files, the clock and the generator are the same. *)
Definition grown (w0 : world) (s : Z) (w : world) : Prop :=
  files w = files w0 ∧ clock w = clock w0 ∧ rand w = rand w0 ∧
  (∀ p, p ∈ dom (heap w0) → heap w !! p = heap w0 !! p) ∧
  Z.of_nat (size (dom (heap w))) = Z.of_nat (size (dom (heap w0))) + s.

End More.

Section MoreCorpora.
Import PrimFloat.

(** A network of a single layer of two neurons: no weights, no biases. *)
Definition net1 : network := Network 1 [] [] [2].

(** The network [net11] and a batch of three examples of one input each,
    at address 3. *)
Definition triples : matrix_double := Matrix 3 1 3.

Definition crowd : @world PrimFloat.float float_sampler :=
  @World PrimFloat.float float_sampler
    (<[3%positive := [[0.5; -0.25; 1]%float]]>
       (<[2%positive := [[1%float]]]> (<[1%positive := [[0%float]]]> ∅))) ∅ 0 7.

(** The same with labels for the three examples, at address 4. *)
Definition answers : matrix_double := Matrix 4 1 3.

Definition assembly : @world PrimFloat.float float_sampler :=
  @World PrimFloat.float float_sampler
    (<[4%positive := [[1; 0; 1]%float]]>
       (<[3%positive := [[0.5; -0.25; 1]%float]]>
          (<[2%positive := [[1%float]]]> (<[1%positive := [[0%float]]]> ∅)))) ∅ 0 7.

(** A world with two files that stop inside the header: [short.bin] has
    2 bytes, and [sizes.bin] announces 3 layers and has the size of one. *)
Definition scraps : @world PrimFloat.float float_sampler :=
  @World PrimFloat.float float_sampler ∅
    (<["short.bin"%string := [2; 0]]>
       (<["sizes.bin"%string := int_bytes 3 ++ int_bytes 2]> ∅)) 0 1.

End MoreCorpora.
(** * Proofs *)

Section Basics.
Context {D : Type} `{DblOps : Double D} `{Smp : Sampler D}.

Lemma bind_Done {A B} (m : M A) (k : A → M B) w x w' :
  m w = Done x w' → (m ≫= k) w = k x w'.
Proof. intros H. unfold mbind, M_bind, bind. by rewrite H. Qed.

Lemma bind_inv {A B} (m : M A) (k : A → M B) w y w2 :
  (m ≫= k) w = Done y w2 → ∃ x w1, m w = Done x w1 ∧ k x w1 = Done y w2.
Proof.
  unfold mbind, M_bind, bind. destruct (m w) as [x w1| |]; [eauto|done|done].
Qed.

Lemma ret_Done {A} (x : A) w : (mret x : M A) w = Done x w.
Proof. done. Qed.

Lemma ret_inv {A} (x y : A) w w' : (mret x : M A) w = Done y w' → y = x ∧ w' = w.
Proof. unfold mret, M_ret, ret. by intros [= -> ->]. Qed.

Lemma lift_option_Done {A} (o : option A) x w :
  o = Some x → lift_option o w = Done x w.
Proof. by intros ->. Qed.

Lemma lift_option_inv {A} (o : option A) x w w' :
  lift_option o w = Done x w' → o = Some x ∧ w' = w.
Proof. destruct o; cbn; [|done]. unfold ret. by intros [= -> ->]. Qed.

(** The loop rule: an invariant [I k s w] of the state after [k] rounds. *)
Lemma for_fold_total {St} (I : nat → St → world → Prop) lo hi body (s : St) w :
  I 0%nat s w →
  (∀ k s w, (k < Z.to_nat (hi - lo))%nat → I k s w →
     ∃ s' w', body (lo + Z.of_nat k) s w = Done s' w' ∧ I (S k) s' w') →
  ∃ s' w', for_fold lo hi body s w = Done s' w' ∧ I (Z.to_nat (hi - lo)) s' w'.
Proof.
  unfold for_fold. generalize (Z.to_nat (hi - lo)) as n. intros n H0 Hstep.
  assert (Hgen : ∀ m k s w, (k + m = n)%nat → I k s w →
     ∃ s' w', for_iter m (lo + Z.of_nat k) body s w = Done s' w' ∧ I n s' w').
  { induction m as [|m IH]; intros k s1 w1 Hk HI.
    - replace n with k by lia. cbn. eauto.
    - destruct (Hstep k s1 w1) as (s2 & w2 & Hb & HI2); [lia|done|].
      cbn. rewrite (bind_Done _ _ _ _ _ Hb).
      replace (lo + Z.of_nat k + 1) with (lo + Z.of_nat (S k)) by lia.
      apply IH; [lia|done]. }
  specialize (Hgen n 0%nat s w). replace (lo + Z.of_nat 0) with lo in Hgen by lia.
  apply Hgen; [lia|done].
Qed.

(** The same for a run that is only known to return. *)
Lemma for_fold_partial {St} (I : nat → St → world → Prop) lo hi body (s : St) w s' w' :
  I 0%nat s w →
  (∀ k s w s' w', (k < Z.to_nat (hi - lo))%nat → I k s w →
     body (lo + Z.of_nat k) s w = Done s' w' → I (S k) s' w') →
  for_fold lo hi body s w = Done s' w' → I (Z.to_nat (hi - lo)) s' w'.
Proof.
  unfold for_fold. generalize (Z.to_nat (hi - lo)) as n. intros n H0 Hstep.
  assert (Hgen : ∀ m k s w, (k + m = n)%nat → I k s w →
     for_iter m (lo + Z.of_nat k) body s w = Done s' w' → I n s' w').
  { induction m as [|m IH]; intros k s1 w1 Hk HI.
    - replace n with k by lia. cbn. unfold ret. by intros [= <- <-].
    - cbn. intros (s2 & w2 & Hb & Hrest)%bind_inv.
      replace (lo + Z.of_nat k + 1) with (lo + Z.of_nat (S k)) in Hrest by lia.
      eapply (IH (S k)); [lia| |done]. eapply Hstep; [lia|done|done]. }
  specialize (Hgen n 0%nat s w). replace (lo + Z.of_nat 0) with lo in Hgen by lia.
  apply Hgen; [lia|done].
Qed.

Lemma zlookup_of_nat {A} (l : list A) (k : nat) : zlookup l (Z.of_nat k) = l !! k.
Proof. unfold zlookup. rewrite decide_True by lia. by rewrite Nat2Z.id. Qed.

Lemma zlookup_Some {A} (l : list A) i x :
  zlookup l i = Some x ↔ 0 ≤ i ∧ l !! Z.to_nat i = Some x.
Proof. unfold zlookup. case_decide; naive_solver. Qed.

Lemma zinsert_of_nat {A} (l : list A) (k : nat) x :
  (k < length l)%nat → zinsert l (Z.of_nat k) x = Some (<[k := x]> l).
Proof. intros. unfold zinsert. rewrite decide_True by lia. by rewrite Nat2Z.id. Qed.

Lemma zinsert_Some {A} (l : list A) i x l' :
  zinsert l i x = Some l' ↔ (0 ≤ i < Z.of_nat (length l)) ∧ l' = <[Z.to_nat i := x]> l.
Proof. unfold zinsert. case_decide; naive_solver. Qed.

(** *** Total and partial correctness *)

Lemma wp_ret {A} (x : A) w Q : Q x w → wp (mret x) w Q.
Proof. intros. by exists x, w. Qed.

Lemma wp_bind {A B} (m : M A) (k : A → M B) w Q :
  wp m w (λ x w', wp (k x) w' Q) → wp (m ≫= k) w Q.
Proof.
  intros (x & w' & Hm & y & w2 & Hk & HQ). exists y, w2.
  by rewrite (bind_Done _ _ _ _ _ Hm).
Qed.

Lemma wp_mono {A} (m : M A) w (Q Q' : A → world → Prop) :
  wp m w Q → (∀ x w', Q x w' → Q' x w') → wp m w Q'.
Proof. intros (x & w' & Hm & HQ) HQQ. exists x, w'. eauto. Qed.

Lemma wp_lift_option {A} (o : option A) x w Q :
  o = Some x → Q x w → wp (lift_option o) w Q.
Proof. intros -> HQ. by exists x, w. Qed.

Lemma wp_wlp {A} (m : M A) w (Q Q' : A → world → Prop) :
  wp m w Q → wlp m w Q' → wp m w (λ x w', Q x w' ∧ Q' x w').
Proof. intros (x & w' & Hm & HQ) HQ'. exists x, w'. eauto. Qed.

Lemma wp_for_fold {St} (I : nat → St → world → Prop) lo hi body (s : St) w Q :
  I 0%nat s w →
  (∀ k s w, (k < Z.to_nat (hi - lo))%nat → I k s w →
     wp (body (lo + Z.of_nat k) s) w (I (S k))) →
  (∀ s w, I (Z.to_nat (hi - lo)) s w → Q s w) →
  wp (for_fold lo hi body s) w Q.
Proof.
  intros H0 Hstep HQ. eapply wp_mono; [|apply HQ].
  by apply for_fold_total.
Qed.

Lemma wp_for_range (I : nat → world → Prop) lo hi body w Q :
  I 0%nat w →
  (∀ k w, (k < Z.to_nat (hi - lo))%nat → I k w →
     wp (body (lo + Z.of_nat k)) w (λ _, I (S k))) →
  (∀ w, I (Z.to_nat (hi - lo)) w → Q () w) →
  wp (for_range lo hi body) w Q.
Proof.
  intros H0 Hstep HQ. unfold for_range.
  apply (wp_for_fold (λ k _, I k)); [done| |by intros []].
  intros k [] w1 Hk HI. eapply wp_mono; [by apply Hstep|]. by intros [].
Qed.

Lemma wlp_ret {A} (x : A) w (Q : A → world → Prop) : Q x w → wlp (mret x) w Q.
Proof. intros HQ y w' [-> ->]%ret_inv. done. Qed.

Lemma wlp_bind {A B} (m : M A) (k : A → M B) w Q :
  wlp m w (λ x w', wlp (k x) w' Q) → wlp (m ≫= k) w Q.
Proof. intros Hm y w2 (x & w1 & H1 & H2)%bind_inv. by eapply Hm. Qed.

Lemma wlp_mono {A} (m : M A) w (Q Q' : A → world → Prop) :
  wlp m w Q → (∀ x w', Q x w' → Q' x w') → wlp m w Q'.
Proof. intros Hm HQQ x w' H. eauto. Qed.

Lemma wlp_lift_option {A} (o : option A) w (Q : A → world → Prop) :
  (∀ x, o = Some x → Q x w) → wlp (lift_option o) w Q.
Proof. intros HQ x w' [-> ->]%lift_option_inv. by apply HQ. Qed.

Lemma wlp_undef {A} w (Q : A → world → Prop) : wlp undef w Q.
Proof. by intros x w'. Qed.

Lemma wlp_for_fold {St} (I : nat → St → world → Prop) lo hi body (s : St) w Q :
  I 0%nat s w →
  (∀ k s w, (k < Z.to_nat (hi - lo))%nat → I k s w →
     wlp (body (lo + Z.of_nat k) s) w (I (S k))) →
  (∀ s w, I (Z.to_nat (hi - lo)) s w → Q s w) →
  wlp (for_fold lo hi body s) w Q.
Proof.
  intros H0 Hstep HQ s' w' Hrun. apply HQ.
  eapply for_fold_partial; [done| |done].
  intros k s1 w1 s2 w2 Hk HI Hb. by eapply Hstep.
Qed.

Lemma wlp_for_range (I : nat → world → Prop) lo hi body w Q :
  I 0%nat w →
  (∀ k w, (k < Z.to_nat (hi - lo))%nat → I k w →
     wlp (body (lo + Z.of_nat k)) w (λ _, I (S k))) →
  (∀ w, I (Z.to_nat (hi - lo)) w → Q () w) →
  wlp (for_range lo hi body) w Q.
Proof.
  intros H0 Hstep HQ. unfold for_range.
  apply (wlp_for_fold (λ k _, I k)); [done| |by intros []].
  intros k [] w1 Hk HI. eapply wlp_mono; [by apply Hstep|]. by intros [].
Qed.

(** *** The heap primitives *)

Lemma malloc_Done bl w :
  malloc bl w = Done (fresh (dom (heap w))) (with_heap (insert (fresh (dom (heap w))) bl) w).
Proof. done. Qed.

Lemma fresh_heap w : heap w !! fresh (dom (heap w)) = None.
Proof. apply not_elem_of_dom, is_fresh. Qed.

Lemma alloc_matrix_double_Done r c w :
  0 ≤ r → 0 ≤ c →
  alloc_matrix_double r c w =
    Done (Matrix (fresh (dom (heap w))) r c)
         (with_heap (insert (fresh (dom (heap w)))
                            (replicate (Z.to_nat r) (replicate (Z.to_nat c) d_uninit))) w).
Proof. intros. unfold alloc_matrix_double. rewrite decide_True by done. done. Qed.

Lemma alloc_matrix_double_inv r c w m w' :
  alloc_matrix_double r c w = Done m w' →
  0 ≤ r ∧ 0 ≤ c ∧ m = Matrix (fresh (dom (heap w))) r c ∧
  w' = with_heap (insert (fresh (dom (heap w)))
                         (replicate (Z.to_nat r) (replicate (Z.to_nat c) d_uninit))) w.
Proof.
  unfold alloc_matrix_double. case_decide as Hd; [|done].
  intros [= <- <-]. naive_solver.
Qed.

Lemma has_dims_replicate r c (x : D) :
  0 ≤ r → 0 ≤ c → has_dims (replicate (Z.to_nat r) (replicate (Z.to_nat c) x)) r c.
Proof.
  intros. split.
  - rewrite length_replicate. lia.
  - apply Forall_replicate. rewrite length_replicate. lia.
Qed.

Lemma handles_insert (s : slots matrix_double) k m :
  s !! k = Some None → handles (<[k := Some m]> s) ≡ₚ m :: handles s.
Proof.
  unfold handles. revert k. induction s as [|x s IH]; intros [|k] Hk; simplify_eq/=; [done|].
  destruct x as [x|]; cbn.
  - rewrite IH by done. apply Permutation_swap.
  - by apply IH.
Qed.

Lemma handles_replicate n : handles (replicate n None) = [].
Proof. unfold handles. induction n; [done|]. done. Qed.

Lemma elem_of_handles (s : slots matrix_double) m :
  m ∈ handles s ↔ ∃ k, s !! k = Some (Some m).
Proof.
  unfold handles. rewrite list_elem_of_omap. split.
  - intros (x & (k & Hk)%list_elem_of_lookup & Hx). exists k. by simplify_eq/=.
  - intros (k & Hk). exists (Some m). split; [|done]. by eapply list_elem_of_lookup_2.
Qed.

Lemma set_heap_id w : set_heap (heap w) w = w.
Proof. by destruct w. Qed.

Lemma with_heap_set_heap f h w : with_heap f (set_heap h w) = set_heap (f h) w.
Proof. done. Qed.

Lemma set_heap_set_heap h h' w : set_heap h (set_heap h' w) = set_heap h w.
Proof. done. Qed.

Lemma with_heap_eq f w : with_heap f w = set_heap (f (heap w)) w.
Proof. done. Qed.

Lemma heap_set_heap h w : heap (set_heap h w) = h.
Proof. done. Qed.

End Basics.

Create Rewrite HintDb world.
#[global] Hint Rewrite @set_heap_set_heap @heap_set_heap @with_heap_set_heap : world.

(** ** create_network *)

Section Create.
Context {D : Type} `{DblOps : Double D} `{Smp : Sampler D}.

Lemma wp_alloc_matrix_double r c w Q :
  0 ≤ r → 0 ≤ c →
  (∀ p, heap w !! p = None →
     Q (Matrix p r c)
       (with_heap (insert p (replicate (Z.to_nat r) (replicate (Z.to_nat c) d_uninit))) w)) →
  wp (alloc_matrix_double r c) w Q.
Proof.
  intros Hr Hc HQ. eexists _, _. split; [by apply alloc_matrix_double_Done|].
  apply HQ, fresh_heap.
Qed.

Lemma wp_slot_set {A} (s : slots A) (k : nat) x w Q :
  (k < length s)%nat → Q (<[k := Some x]> s) w → wp (slot_set s (Z.of_nat k) x) w Q.
Proof. intros. eapply wp_lift_option; [|done]. by apply zinsert_of_nat. Qed.

Lemma handles_app s1 s2 : handles (s1 ++ s2) = handles s1 ++ handles s2.
Proof. apply omap_app. Qed.

Lemma handles_Some ms : handles (Some <$> ms) = ms.
Proof. unfold handles. induction ms; [done|]. cbn. by f_equal. Qed.

Lemma slots_fill {A} (ms : list A) (k r : nat) (m : A) :
  k = length ms →
  <[k := Some m]> ((Some <$> ms) ++ replicate (S r) None)
  = (Some <$> (ms ++ [m])) ++ replicate r None.
Proof.
  intros ->. rewrite insert_app_r_alt by (rewrite length_fmap; lia).
  rewrite length_fmap, Nat.sub_diag. cbn. rewrite fmap_app. cbn. by rewrite <- app_assoc.
Qed.

Lemma created_step ns w0 w k bms wms s0 s1 pb pw :
  created ns w0 w k bms wms →
  ns !! k = Some s0 → ns !! S k = Some s1 → 0 ≤ s0 → 0 ≤ s1 →
  heap w !! pb = None →
  <[pb := replicate (Z.to_nat s1) (replicate 1 d_uninit)]> (heap w) !! pw = None →
  created ns w0
    (with_heap (insert pw (replicate (Z.to_nat s1) (replicate (Z.to_nat s0) d_uninit)))
       (with_heap (insert pb (replicate (Z.to_nat s1) (replicate 1 d_uninit))) w))
    (S k) (bms ++ [Matrix pb s1 1]) (wms ++ [Matrix pw s1 s0]).
Proof.
  intros (Hf & Hcl & Hr & Hframe & Hlb & Hlw & Hlay & Hnd & Hnew) Hs0 Hs1 H0 H1 Hpb Hpw.
  assert (pw ≠ pb) as Hne by (intros ->; by rewrite lookup_insert_eq in Hpw).
  rewrite lookup_insert_ne in Hpw by done.
  assert (Hold : ∀ p, p ∈ data <$> (bms ++ wms) → is_Some (heap w !! p)).
  { intros p (m & -> & Hm)%list_elem_of_fmap. apply elem_of_app in Hm as [Hm|Hm].
    - apply list_elem_of_lookup in Hm as [l Hl].
      destruct (lookup_lt_is_Some_2 wms l) as [wm Hwm]; [apply lookup_lt_Some in Hl; lia|].
      destruct (Hlay l m wm Hl Hwm) as (?&?&?&?&?&?&?&?&?&?). eauto.
    - apply list_elem_of_lookup in Hm as [l Hl].
      destruct (lookup_lt_is_Some_2 bms l) as [bm Hbm]; [apply lookup_lt_Some in Hl; lia|].
      destruct (Hlay l bm m Hbm Hl) as (?&?&?&?&?&?&?&?&?&?). eauto. }
  unfold created; cbn. repeat split; try done.
  - intros p Hp. specialize (Hframe p Hp). apply elem_of_dom in Hp as [bl Hbl].
    rewrite Hbl in Hframe.
    assert (pw ≠ p) by (intros ->; rewrite Hpw in Hframe; done).
    assert (pb ≠ p) by (intros ->; rewrite Hpb in Hframe; done).
    rewrite !lookup_insert_ne by done. by rewrite Hframe.
  - rewrite length_app. cbn. lia.
  - rewrite length_app. cbn. lia.
  - intros l bm wm Hbm Hwm.
    destruct (decide (l = k)) as [->|Hlk].
    + rewrite lookup_app_r, Hlb, Nat.sub_diag in Hbm by lia.
      rewrite lookup_app_r, Hlw, Nat.sub_diag in Hwm by lia. simplify_eq/=.
      exists s0, s1. repeat split; try done.
      * rewrite lookup_insert_ne by done. by rewrite lookup_insert_eq.
      * by rewrite lookup_insert_eq.
    + assert (l < k)%nat.
      { apply lookup_lt_Some in Hbm. rewrite length_app in Hbm. cbn in Hbm. lia. }
      rewrite lookup_app_l in Hbm by lia. rewrite lookup_app_l in Hwm by lia.
      destruct (Hlay l bm wm Hbm Hwm) as (t0&t1&?&?&?&?&?&?&Hb&Hw).
      assert (pb ≠ data bm) by (intros Heq; rewrite <- Heq, Hpb in Hb; done).
      assert (pw ≠ data bm) by (intros Heq; rewrite <- Heq, Hpw in Hb; done).
      assert (pb ≠ data wm) by (intros Heq; rewrite <- Heq, Hpb in Hw; done).
      assert (pw ≠ data wm) by (intros Heq; rewrite <- Heq, Hpw in Hw; done).
      exists t0, t1. repeat split; try done.
      * by rewrite !lookup_insert_ne.
      * by rewrite !lookup_insert_ne.
  - rewrite !fmap_app. cbn.
    rewrite (Permutation_app_comm _ [pb]), (Permutation_app_comm (data <$> wms) [pw]). cbn.
    rewrite <- Permutation_middle, <- fmap_app.
    constructor; [|constructor; [|done]].
    + rewrite not_elem_of_cons. split; [done|]. intros Hin%Hold. rewrite Hpb in Hin. by destruct Hin.
    + intros Hin%Hold. rewrite Hpw in Hin. by destruct Hin.
  - intros p Hp.
    assert (p = pb ∨ p = pw ∨ p ∈ data <$> (bms ++ wms)) as [->|[->|Hin]].
    { rewrite !fmap_app in *. cbn in Hp. set_solver. }
    + intros Hd. specialize (Hframe _ Hd). apply elem_of_dom in Hd as [? Hd]. congruence.
    + intros Hd. specialize (Hframe _ Hd). apply elem_of_dom in Hd as [? Hd]. congruence.
    + by apply Hnew.
Qed.

Lemma create_network_spec n ns w :
  (Z.to_nat n ≤ length ns)%nat →
  Forall (λ s, 0 ≤ s) (take (Z.to_nat n) ns) →
  wp (create_network n ns) w (λ net w',
    ∃ bms wms, net = Network n (Some <$> bms) (Some <$> wms) (take (Z.to_nat n) ns) ∧
      created ns w w' (Z.to_nat (n - 1)) bms wms).
Proof.
  intros Hlen Hpos. unfold create_network.
  apply wp_bind. unfold copy_array_int. rewrite decide_True by done. apply wp_ret.
  apply wp_bind.
  set (N := Z.to_nat (n - 1)).
  apply (wp_for_fold
    (λ k (bw : slots matrix_double * slots matrix_double) w',
       ∃ bms wms, bw = ((Some <$> bms) ++ replicate (N - k) None,
                        (Some <$> wms) ++ replicate (N - k) None) ∧
                  created ns w w' k bms wms)).
  - exists [], []. rewrite Nat.sub_0_r. split; [done|].
    unfold created. repeat split; try done.
    + cbn. constructor.
    + cbn. intros p Hp. inversion Hp.
  - intros k [bs ws] w1 Hk (bms & wms & [= -> ->] & Hc).
    rewrite Z.sub_0_r in Hk. fold N in Hk. rewrite Z.add_0_l.
    assert (Hlb : length bms = k) by apply Hc.
    assert (Hlw : length wms = k) by apply Hc.
    destruct (lookup_lt_is_Some_2 ns k) as [s0 Hs0]; [lia|].
    destruct (lookup_lt_is_Some_2 ns (S k)) as [s1 Hs1]; [lia|].
    assert (0 ≤ s0).
    { eapply (Forall_lookup_1 _ _ k) in Hpos; [done|]. rewrite lookup_take_lt by lia. done. }
    assert (0 ≤ s1).
    { eapply (Forall_lookup_1 _ _ (S k)) in Hpos; [done|]. rewrite lookup_take_lt by lia. done. }
    apply wp_bind. eapply wp_lift_option.
    { replace (Z.of_nat k + 1) with (Z.of_nat (S k)) by lia. by rewrite zlookup_of_nat. }
    apply wp_bind, wp_alloc_matrix_double; [done|lia|]. intros pb Hpb.
    apply wp_bind, wp_slot_set. { cbn [fst snd]. rewrite length_app, length_fmap, length_replicate. lia. }
    apply wp_bind. eapply wp_lift_option. { by rewrite zlookup_of_nat. }
    apply wp_bind, wp_alloc_matrix_double; [done|done|]. intros pw Hpw.
    apply wp_bind, wp_slot_set. { cbn [fst snd]. rewrite length_app, length_fmap, length_replicate. lia. }
    apply wp_ret. cbn [fst snd].
    exists (bms ++ [Matrix pb s1 1]), (wms ++ [Matrix pw s1 s0]). split.
    + replace (N - k)%nat with (S (N - S k)) by lia.
      by rewrite (slots_fill bms), (slots_fill wms).
    + by eapply created_step.
  - intros [bs ws] w' (bms & wms & [= -> ->] & Hc). apply wp_ret.
    rewrite Z.sub_0_r in *. fold N in Hc |- *. rewrite Nat.sub_diag. cbn [fst snd replicate].
    rewrite !app_nil_r. eauto.
Qed.
Lemma created_net_ok n ns w0 w bms wms :
  Z.of_nat (length ns) = n → Forall (λ s, 0 ≤ s) ns →
  created ns w0 w (Z.to_nat (n - 1)) bms wms →
  net_ok w (Network n (Some <$> bms) (Some <$> wms) ns).
Proof.
  intros Hn Hpos (Hf & Hcl & Hr & Hframe & Hlb & Hlw & Hlay & Hnd & Hnew).
  split; cbn [n_layers net_structure weights biases]; [done|done|by rewrite length_fmap|by rewrite length_fmap| |].
  - intros l Hl.
    destruct (lookup_lt_is_Some_2 bms l) as [bm Hbm]; [lia|].
    destruct (lookup_lt_is_Some_2 wms l) as [wm Hwm]; [lia|].
    destruct (Hlay l bm wm Hbm Hwm) as (s0 & s1 & Hs0 & Hs1 & ? & ? & Hb & Hw & Hhb & Hhw).
    exists wm, bm, s0, s1. split; [|split].
    + split; cbn [net_structure weights biases]; try done.
      * by rewrite list_lookup_fmap, Hwm.
      * by rewrite list_lookup_fmap, Hbm.
      * by rewrite Hw.
      * by rewrite Hw.
      * by rewrite Hb.
      * by rewrite Hb.
    + exists (replicate (Z.to_nat s1) (replicate (Z.to_nat s0) d_uninit)).
      split; [done|]. rewrite Hw. cbn. by apply has_dims_replicate.
    + exists (replicate (Z.to_nat s1) (replicate 1 d_uninit)).
      split; [done|]. rewrite Hb. cbn. by apply (has_dims_replicate s1 1).
  - unfold net_addrs. cbn. by rewrite !handles_Some.
Qed.

(** C4. For every schedule of positive layer sizes with at least two
    layers, [create_network] returns a network in which, for every layer
    [l] but the last, [weights[l]] has [net_structure[l+1]] rows and
    [net_structure[l]] columns and [biases[l]] is a column of
    [net_structure[l+1]] entries, each with storage of these dimensions. *)
Theorem create_network_shape (n : Z) (ns : list Z) (w : world) :
  2 ≤ n → Z.of_nat (length ns) = n → Forall (λ s, 0 < s) ns →
  ∃ net w', create_network n ns w = Done net w' ∧
    ∀ l : nat, (l < Z.to_nat (n - 1))%nat →
      ∃ wm bm, weights net !! l = Some (Some wm) ∧ biases net !! l = Some (Some bm) ∧
        ns !! S l = Some (nrows wm) ∧ ns !! l = Some (ncols wm) ∧
        ns !! S l = Some (nrows bm) ∧ ncols bm = 1 ∧
        matrix_ok w' wm ∧ matrix_ok w' bm.
Proof.
  intros Hn Hlen Hpos.
  assert (Hpos' : Forall (λ s, 0 ≤ s) ns) by (eapply Forall_impl; [done|]; cbn; lia).
  destruct (create_network_spec n ns w) as (net & w' & Hrun & bms & wms & -> & Hc).
  { lia. }
  { by apply Forall_take. }
  eexists _, w'. split; [done|].
  rewrite firstn_all2 in * by lia.
  destruct (created_net_ok n ns w w' bms wms Hlen Hpos' Hc) as [_ _ _ _ Hlay _].
  intros l Hl.
  destruct (Hlay l Hl) as (wm & bm & s0 & s1 & [Hs0 Hs1 Hwl Hbl Hwr Hwc Hbr Hbc] & Hw & Hb).
  cbn [net_structure weights biases] in *.
  exists wm, bm. rewrite Hwr, Hwc, Hbr. done.
Qed.

(** C7, as the code has it.  [create_network] checks nothing and reports
    nothing: for every layer count, below two as well, and for sizes that
    are zero as well, it returns a network with the count and the schedule
    it was given. *)
Theorem create_network_returns (n : Z) (ns : list Z) (w : world) :
  (Z.to_nat n ≤ length ns)%nat → Forall (λ s, 0 ≤ s) (take (Z.to_nat n) ns) →
  ∃ net w', create_network n ns w = Done net w' ∧
    n_layers net = n ∧ net_structure net = take (Z.to_nat n) ns.
Proof.
  intros Hlen Hpos.
  destruct (create_network_spec n ns w Hlen Hpos) as (net & w' & Hrun & bms & wms & -> & Hc).
  by eexists _, w'.
Qed.

End Create.

(** ** The matrix operations *)

Section MatrixOps.
Context {D : Type} `{DblOps : Double D} `{Smp : Sampler D}.

Lemma wp_malloc bl w Q :
  (∀ p, heap w !! p = None → Q p (set_heap (<[p := bl]> (heap w)) w)) →
  wp (malloc bl) w Q.
Proof. intros HQ. eexists _, _. split; [apply malloc_Done|]. apply HQ, fresh_heap. Qed.

Lemma wp_mfree p bl w Q :
  heap w !! p = Some bl → Q () (set_heap (delete p (heap w)) w) → wp (mfree p) w Q.
Proof. intros Hp HQ. exists (), (set_heap (delete p (heap w)) w). unfold mfree. by rewrite Hp. Qed.

Lemma wp_mload p bl w Q : heap w !! p = Some bl → Q bl w → wp (mload p) w Q.
Proof. intros Hp HQ. exists bl, w. unfold mload. by rewrite Hp. Qed.

Lemma wp_mstore p bl bl' w Q :
  heap w !! p = Some bl → Q () (set_heap (<[p := bl']> (heap w)) w) → wp (mstore p bl') w Q.
Proof.
  intros Hp HQ. exists (), (set_heap (<[p := bl']> (heap w)) w). unfold mstore. by rewrite Hp.
Qed.

Lemma wp_matrix_block m bl w Q :
  heap w !! data m = Some bl → has_dims bl (nrows m) (ncols m) → Q bl w →
  wp (matrix_block m) w Q.
Proof.
  intros Hp Hd HQ. unfold matrix_block. apply wp_bind. eapply wp_mload; [done|].
  rewrite decide_True by done. by apply wp_ret.
Qed.

Lemma wp_data_get m i j bl x w Q :
  heap w !! data m = Some bl → block_get bl i j = Some x → Q x w → wp (data_get m i j) w Q.
Proof.
  intros Hp Hg HQ. unfold data_get. apply wp_bind. eapply wp_mload; [done|].
  by eapply wp_lift_option.
Qed.

Lemma wp_data_set m i j x bl bl' w Q :
  heap w !! data m = Some bl → block_set bl i j x = Some bl' →
  Q () (set_heap (<[data m := bl']> (heap w)) w) → wp (data_set m i j x) w Q.
Proof.
  intros Hp Hs HQ. unfold data_set. apply wp_bind. eapply wp_mload; [done|].
  apply wp_bind. eapply wp_lift_option; [done|]. by eapply wp_mstore.
Qed.

Lemma wp_free_matrix_double m bl w Q :
  heap w !! data m = Some bl → Q () (set_heap (delete (data m) (heap w)) w) →
  wp (free_matrix_double m) w Q.
Proof. apply wp_mfree. Qed.

Lemma wp_slot_get {A} (s : slots A) (k : nat) x w Q :
  s !! k = Some (Some x) → Q x w → wp (slot_get s (Z.of_nat k)) w Q.
Proof. intros Hk HQ. eapply wp_lift_option; [|done]. by rewrite zlookup_of_nat, Hk. Qed.

(** *** Blocks *)

Lemma block_get_of_nat (bl : list (list D)) (i j : nat) :
  block_get bl (Z.of_nat i) (Z.of_nat j) = bl !! i ≫= (λ r, r !! j).
Proof.
  unfold block_get. rewrite zlookup_of_nat. destruct (bl !! i); cbn; [|done].
  by rewrite zlookup_of_nat.
Qed.

Lemma block_set_of_nat (bl : list (list D)) (i j : nat) rw x :
  bl !! i = Some rw → (j < length rw)%nat →
  block_set bl (Z.of_nat i) (Z.of_nat j) x = Some (<[i := <[j := x]> rw]> bl).
Proof.
  intros Hi Hj. unfold block_set. rewrite zlookup_of_nat, Hi. cbn.
  rewrite zinsert_of_nat by done. cbn. apply zinsert_of_nat. by eapply lookup_lt_Some.
Qed.

(** [vectorized_sigma] applies [sigma] to every entry. *)
Lemma wp_vectorized_sigma m bl w Q :
  heap w !! data m = Some bl → has_dims bl (nrows m) (ncols m) →
  Q () (set_heap (<[data m := (λ rw : list D, sigma <$> rw) <$> bl]> (heap w)) w) →
  wp (vectorized_sigma m) w Q.
Proof.
  intros Hp [Hr Hc] HQ. unfold vectorized_sigma.
  apply (wp_for_range (λ i w', w' = set_heap
     (<[data m := ((λ rw : list D, sigma <$> rw) <$> take i bl) ++ drop i bl]> (heap w)) w)).
  - cbn. rewrite drop_0, insert_id by done. by rewrite set_heap_id.
  - intros i w1 Hi ->. rewrite Z.sub_0_r in Hi. rewrite Z.add_0_l.
    destruct (lookup_lt_is_Some_2 bl i) as [rw Hrw]; [lia|].
    assert (Hlen : Z.of_nat (length rw) = ncols m) by (by eapply Forall_lookup_1 in Hc).
    apply (wp_for_range (λ j w', w' = set_heap
      (<[data m := ((λ rw : list D, sigma <$> rw) <$> take i bl) ++
                   ((sigma <$> take j rw) ++ drop j rw) :: drop (S i) bl]> (heap w)) w)).
    + by rewrite (drop_S _ _ _ Hrw).
    + intros j w2 Hj ->. rewrite Z.sub_0_r in Hj. rewrite Z.add_0_l.
      destruct (lookup_lt_is_Some_2 rw j) as [x Hx]; [lia|].
      assert (Hi' : length ((λ rw : list D, sigma <$> rw) <$> take i bl) = i).
      { rewrite length_fmap, length_take. lia. }
      assert (Hj' : length (sigma <$> take j rw) = j).
      { rewrite length_fmap, length_take. lia. }
      apply wp_bind. eapply wp_data_get.
      { autorewrite with world. apply lookup_insert_eq. }
      { rewrite block_get_of_nat. rewrite lookup_app_r by lia.
        rewrite Hi', Nat.sub_diag. cbn.
        rewrite lookup_app_r by lia. rewrite Hj', Nat.sub_diag.
        rewrite lookup_drop, Nat.add_0_r. done. }
      eapply wp_data_set.
      { autorewrite with world. apply lookup_insert_eq. }
      { apply block_set_of_nat.
        - rewrite lookup_app_r by lia. by rewrite Hi', Nat.sub_diag.
        - rewrite length_app, length_drop, Hj'. lia. }
      autorewrite with world. rewrite insert_insert_eq. f_equal. f_equal.
      rewrite insert_app_r_alt by lia. rewrite Hi', Nat.sub_diag. cbn. f_equal. f_equal.
      rewrite insert_app_r_alt by lia. rewrite Hj', Nat.sub_diag.
      rewrite (drop_S _ _ _ Hx). cbn.
      rewrite (take_S_r _ _ _ Hx), fmap_app. cbn. by rewrite <- app_assoc.
    + intros w2 ->. f_equal. f_equal. rewrite Z.sub_0_r.
      replace (Z.to_nat (ncols m)) with (length rw) by lia.
      rewrite firstn_all, drop_all, app_nil_r.
      rewrite (take_S_r _ _ _ Hrw), fmap_app. cbn. by rewrite <- app_assoc.
  - intros w1 ->. rewrite Z.sub_0_r.
    replace (Z.to_nat (nrows m)) with (length bl) by lia.
    by rewrite firstn_all, drop_all, app_nil_r.
Qed.





Lemma col_block_dims (v : list D) : has_dims (col_block v) (Z.of_nat (length v)) 1.
Proof.
  split; [by unfold col_block; rewrite length_fmap|].
  unfold col_block. apply Forall_fmap, Forall_forall. done.
Qed.

Lemma block_col_col_block (v : list D) : block_col (col_block v) 0 = Some v.
Proof.
  unfold block_col, col_block. induction v as [|x v IH]; [done|].
  cbn. cbn in IH. by rewrite IH.
Qed.

Lemma block_set_col_fresh (n : nat) (v : list D) (x : D) :
  length v = n → block_set_col (replicate n [x]) v 0 = Some (col_block v).
Proof.
  intros <-. unfold block_set_col. rewrite length_replicate, decide_True by done.
  induction v as [|y v IH]; [done|]. cbn. cbn in IH. by rewrite IH.
Qed.

Lemma block_product_row (ra v : list D) :
  mapM (λ j : nat, dot ra <$> block_col (col_block v) (Z.of_nat j)) (seq 0 (Z.to_nat 1))
  = Some [dot ra v].
Proof.
  change (Z.to_nat 1) with 1%nat. cbn [seq mapM]. change (Z.of_nat 0) with 0.
  by rewrite block_col_col_block.
Qed.

Lemma block_product_col (W : list (list D)) (v : list D) :
  block_product W (col_block v) 1 = Some (col_block (mat_vec W v)).
Proof.
  unfold block_product. induction W as [|rw W IH]; [done|].
  cbn [mapM]. rewrite block_product_row, IH. done.
Qed.

Lemma col_block_sigma (v : list D) :
  (λ rw : list D, sigma <$> rw) <$> col_block v = col_block (sigma <$> v).
Proof. unfold col_block. rewrite <- !list_fmap_compose. done. Qed.

Lemma wp_set_col_fresh m (v : list D) (x : D) w Q :
  heap w !! data m = Some (replicate (length v) [x]) →
  nrows m = Z.of_nat (length v) → ncols m = 1 →
  Q () (set_heap (<[data m := col_block v]> (heap w)) w) →
  wp (set_col_matrix_double m v 0) w Q.
Proof.
  intros Hp Hr Hc HQ. unfold set_col_matrix_double.
  apply wp_bind. eapply wp_matrix_block; [done| |].
  { rewrite Hr, Hc. split; [by rewrite length_replicate|]. by apply Forall_replicate. }
  apply wp_bind. eapply wp_lift_option; [by apply block_set_col_fresh|].
  by eapply wp_mstore.
Qed.

Lemma wp_copy_col_col m (v : list D) w Q :
  heap w !! data m = Some (col_block v) →
  nrows m = Z.of_nat (length v) → ncols m = 1 →
  Q v w → wp (copy_col_matrix_double m 0) w Q.
Proof.
  intros Hp Hr Hc HQ. unfold copy_col_matrix_double.
  apply wp_bind. eapply wp_matrix_block; [done| |].
  { rewrite Hr, Hc. apply col_block_dims. }
  eapply wp_lift_option; [apply block_col_col_block|done].
Qed.

Lemma wp_copy_matrix_double m bl w Q :
  heap w !! data m = Some bl → has_dims bl (nrows m) (ncols m) →
  (∀ p, heap w !! p = None →
     Q (Matrix p (nrows m) (ncols m)) (set_heap (<[p := bl]> (heap w)) w)) →
  wp (copy_matrix_double m) w Q.
Proof.
  intros Hp Hd HQ. unfold copy_matrix_double.
  apply wp_bind. eapply wp_matrix_block; [done|done|].
  apply wp_bind, wp_malloc. intros p Hnew. by apply wp_ret, HQ.
Qed.

Lemma wp_matrix_product_col A B (W : list (list D)) (v : list D) w Q :
  heap w !! data A = Some W → has_dims W (nrows A) (ncols A) →
  heap w !! data B = Some (col_block v) →
  nrows B = Z.of_nat (length v) → ncols B = 1 → ncols A = nrows B →
  (∀ p, heap w !! p = None →
     Q (Matrix p (nrows A) 1) (set_heap (<[p := col_block (mat_vec W v)]> (heap w)) w)) →
  wp (matrix_product_matrix_double A B) w Q.
Proof.
  intros HA HdA HB HrB HcB Hcompat HQ. unfold matrix_product_matrix_double.
  apply wp_bind. eapply wp_matrix_block; [done|done|].
  apply wp_bind. eapply wp_matrix_block; [done| |].
  { rewrite HrB, HcB. apply col_block_dims. }
  rewrite decide_True by done.
  apply wp_bind. eapply wp_lift_option. { rewrite HcB. apply block_product_col. }
  apply wp_bind, wp_malloc. intros p Hnew. apply wp_ret. rewrite HcB. by apply HQ.
Qed.



Lemma weight_blocks_lookup (w : world) net (Ws : list (list (list D))) k wm :
  weight_blocks w net = Some Ws → weights net !! k = Some (Some wm) →
  ∃ W, Ws !! k = Some W ∧ heap w !! data wm = Some W.
Proof.
  unfold weight_blocks. intros HF%mapM_Some Hk.
  destruct (Forall2_lookup_l _ _ _ _ _ HF Hk) as (W & HW & Hh). eauto.
Qed.

Lemma mat_vec_length (W : list (list D)) (v : list D) : length (mat_vec W v) = length W.
Proof. unfold mat_vec. by rewrite length_fmap. Qed.

Lemma delete_insert_fresh (h : gmap positive (list (list D))) p q x y :
  h !! p = None → p ≠ q → delete p (<[q := y]> (<[p := x]> h)) = <[q := y]> h.
Proof.
  intros Hp Hne. rewrite delete_insert_ne by done. by rewrite delete_insert_id.
Qed.

(** The [sigma] of the code is the sigmoid of the spec. *)
Lemma sigma_sigmoid (x : D) : sigma x = sigmoid x.
Proof. reflexivity. Qed.

Lemma sigma_fmap (v : list D) : sigma <$> v = sigmoid <$> v.
Proof. apply list_fmap_ext. intros i x _. apply sigma_sigmoid. Qed.

(** C1. For every network of at least two layers, well-formed in the
    world it lives in, and every input of [net_structure[0]] entries,
    [feedforward] returns what the spec's recurrence gives on the stored
    weight matrices: [a_0 = input], [z_l = weights[l-1] · a_(l-1)],
    [a_l = sigmoid(z_l)] entry by entry with [sigmoid(x) = 1/(1+e^{-x})],
    the last [a_l] being the output.  The biases do not enter it, and the
    world is left as it was. *)
Theorem feedforward_spec (net : network) (input : list D) (w : world)
    (Ws : list (list (list D))) :
  net_ok w net → 2 ≤ n_layers net →
  net_structure net !! 0%nat = Some (Z.of_nat (length input)) →
  weight_blocks w net = Some Ws →
  feedforward net input w = Done (forward_spec Ws input) w.
Proof.
  intros [Hns Hsz Hlb Hlw Hlay Hsep] Hn H0 HWs.
  cut (wp (feedforward net input) w (λ out w', out = forward_spec Ws input ∧ w' = w)).
  { by intros (out & w' & -> & -> & ->). }
  assert (HlenWs : length Ws = Z.to_nat (n_layers net - 1)).
  { unfold weight_blocks in HWs. apply length_mapM in HWs. lia. }
  unfold feedforward.
  apply wp_bind. eapply wp_lift_option. { by rewrite (zlookup_of_nat _ 0). }
  apply wp_bind, wp_alloc_matrix_double; [lia|done|]. intros p0 Hp0.
  rewrite with_heap_eq. rewrite Nat2Z.id. change (Z.to_nat 1) with 1%nat. cbn [replicate].
  apply wp_bind. eapply wp_set_col_fresh; [by autorewrite with world; apply lookup_insert_eq|done|done|].
  autorewrite with world. rewrite insert_insert_eq.
  apply wp_bind.
  apply (wp_for_fold (λ k act w',
    ∃ p v, act = Matrix p (Z.of_nat (length v)) 1 ∧ heap w !! p = None ∧
      w' = set_heap (<[p := col_block v]> (heap w)) w ∧
      v = forward_spec (take k Ws) input ∧
      net_structure net !! k = Some (Z.of_nat (length v)))).
  - exists p0, input. done.
  - intros k act w1 Hk (p & v & -> & Hp & -> & Hv & Hlen).
    replace (1 + Z.of_nat k - 1) with (Z.of_nat k) by lia.
    destruct (Hlay k) as (wm & bm & s0 & s1 & [Hs0 Hs1 Hwl Hbl Hwr Hwc Hbr Hbc] & Hwok & Hbok);
      [lia|].
    destruct (weight_blocks_lookup _ _ _ _ _ HWs Hwl) as (W & HW & HhW).
    destruct Hwok as (W' & HhW' & HdW). assert (W' = W) as -> by congruence. clear HhW'.
    assert (data wm ≠ p) by (intros Heq; rewrite Heq in HhW; congruence).
    apply wp_bind. eapply wp_slot_get; [done|].
    apply wp_bind. eapply (wp_matrix_product_col wm _ W v).
    { autorewrite with world. by rewrite lookup_insert_ne. }
    { done. }
    { autorewrite with world. apply lookup_insert_eq. }
    { done. } { done. } { cbn. congruence. }
    intros q Hq. autorewrite with world in *.
    assert (q ≠ p) by (intros ->; by rewrite lookup_insert_eq in Hq).
    rewrite lookup_insert_ne in Hq by done.
    apply wp_bind. eapply wp_free_matrix_double.
    { autorewrite with world. rewrite lookup_insert_ne by done. apply lookup_insert_eq. }
    autorewrite with world. cbn [data]. rewrite delete_insert_fresh by done.
    apply wp_bind. eapply wp_copy_matrix_double.
    { autorewrite with world. apply lookup_insert_eq. }
    { cbn [nrows ncols]. destruct HdW as [HdW _]. rewrite <- HdW, <- (mat_vec_length W v).
      apply col_block_dims. }
    intros r Hr. autorewrite with world in *. cbn [nrows ncols].
    assert (r ≠ q) by (intros ->; by rewrite lookup_insert_eq in Hr).
    rewrite lookup_insert_ne in Hr by done.
    apply wp_bind. eapply wp_vectorized_sigma.
    { autorewrite with world. apply lookup_insert_eq. }
    { cbn [nrows ncols]. destruct HdW as [HdW _]. rewrite <- HdW, <- (mat_vec_length W v).
      apply col_block_dims. }
    autorewrite with world. cbn [data]. rewrite insert_insert_eq, col_block_sigma.
    apply wp_bind. eapply wp_free_matrix_double.
    { autorewrite with world. rewrite lookup_insert_ne by done. apply lookup_insert_eq. }
    autorewrite with world. cbn [data].
    rewrite delete_insert_fresh by done.
    apply wp_ret.
    exists r, (sigma <$> mat_vec W v). repeat split; try done.
    + f_equal. rewrite length_fmap, mat_vec_length. destruct HdW as [HdW _]. lia.
    + rewrite (take_S_r _ _ _ HW). rewrite Hv. unfold forward_spec. rewrite foldl_app.
      apply sigma_fmap.
    + rewrite Hs1. f_equal. rewrite length_fmap, mat_vec_length. destruct HdW as [HdW _]. lia.
  - intros act w1 (p & v & -> & Hp & -> & Hv & Hlen).
    apply wp_bind. eapply wp_copy_col_col.
    { autorewrite with world. apply lookup_insert_eq. } { done. } { done. }
    apply wp_bind. eapply wp_free_matrix_double.
    { autorewrite with world. apply lookup_insert_eq. }
    apply wp_ret. split.
    + rewrite Hv. f_equal. apply take_ge. lia.
    + autorewrite with world. cbn [data]. rewrite delete_insert_id by done. apply set_heap_id.
Qed.

(** The forward pass on a well-formed network of any number of layers:
    the recurrence over the weight matrices, in a world left as it was. *)
Lemma feedforward_run (net : network) (input : list D) (w : world)
    (Ws : list (list (list D))) :
  net_ok w net →
  net_structure net !! 0%nat = Some (Z.of_nat (length input)) →
  weight_blocks w net = Some Ws →
  feedforward net input w = Done (forward_spec Ws input) w.
Proof.
  intros [Hns Hsz Hlb Hlw Hlay Hsep] H0 HWs.
  cut (wp (feedforward net input) w (λ out w', out = forward_spec Ws input ∧ w' = w)).
  { by intros (out & w' & -> & -> & ->). }
  assert (HlenWs : length Ws = Z.to_nat (n_layers net - 1)).
  { unfold weight_blocks in HWs. apply length_mapM in HWs. lia. }
  unfold feedforward.
  apply wp_bind. eapply wp_lift_option. { by rewrite (zlookup_of_nat _ 0). }
  apply wp_bind, wp_alloc_matrix_double; [lia|done|]. intros p0 Hp0.
  rewrite with_heap_eq. rewrite Nat2Z.id. change (Z.to_nat 1) with 1%nat. cbn [replicate].
  apply wp_bind. eapply wp_set_col_fresh; [by autorewrite with world; apply lookup_insert_eq|done|done|].
  autorewrite with world. rewrite insert_insert_eq.
  apply wp_bind.
  apply (wp_for_fold (λ k act w',
    ∃ p v, act = Matrix p (Z.of_nat (length v)) 1 ∧ heap w !! p = None ∧
      w' = set_heap (<[p := col_block v]> (heap w)) w ∧
      v = forward_spec (take k Ws) input ∧
      net_structure net !! k = Some (Z.of_nat (length v)))).
  - exists p0, input. done.
  - intros k act w1 Hk (p & v & -> & Hp & -> & Hv & Hlen).
    replace (1 + Z.of_nat k - 1) with (Z.of_nat k) by lia.
    destruct (Hlay k) as (wm & bm & s0 & s1 & [Hs0 Hs1 Hwl Hbl Hwr Hwc Hbr Hbc] & Hwok & Hbok);
      [lia|].
    destruct (weight_blocks_lookup _ _ _ _ _ HWs Hwl) as (W & HW & HhW).
    destruct Hwok as (W' & HhW' & HdW). assert (W' = W) as -> by congruence. clear HhW'.
    assert (data wm ≠ p) by (intros Heq; rewrite Heq in HhW; congruence).
    apply wp_bind. eapply wp_slot_get; [done|].
    apply wp_bind. eapply (wp_matrix_product_col wm _ W v).
    { autorewrite with world. by rewrite lookup_insert_ne. }
    { done. }
    { autorewrite with world. apply lookup_insert_eq. }
    { done. } { done. } { cbn. congruence. }
    intros q Hq. autorewrite with world in *.
    assert (q ≠ p) by (intros ->; by rewrite lookup_insert_eq in Hq).
    rewrite lookup_insert_ne in Hq by done.
    apply wp_bind. eapply wp_free_matrix_double.
    { autorewrite with world. rewrite lookup_insert_ne by done. apply lookup_insert_eq. }
    autorewrite with world. cbn [data]. rewrite delete_insert_fresh by done.
    apply wp_bind. eapply wp_copy_matrix_double.
    { autorewrite with world. apply lookup_insert_eq. }
    { cbn [nrows ncols]. destruct HdW as [HdW _]. rewrite <- HdW, <- (mat_vec_length W v).
      apply col_block_dims. }
    intros r Hr. autorewrite with world in *. cbn [nrows ncols].
    assert (r ≠ q) by (intros ->; by rewrite lookup_insert_eq in Hr).
    rewrite lookup_insert_ne in Hr by done.
    apply wp_bind. eapply wp_vectorized_sigma.
    { autorewrite with world. apply lookup_insert_eq. }
    { cbn [nrows ncols]. destruct HdW as [HdW _]. rewrite <- HdW, <- (mat_vec_length W v).
      apply col_block_dims. }
    autorewrite with world. cbn [data]. rewrite insert_insert_eq, col_block_sigma.
    apply wp_bind. eapply wp_free_matrix_double.
    { autorewrite with world. rewrite lookup_insert_ne by done. apply lookup_insert_eq. }
    autorewrite with world. cbn [data].
    rewrite delete_insert_fresh by done.
    apply wp_ret.
    exists r, (sigma <$> mat_vec W v). repeat split; try done.
    + f_equal. rewrite length_fmap, mat_vec_length. destruct HdW as [HdW _]. lia.
    + rewrite (take_S_r _ _ _ HW). rewrite Hv. unfold forward_spec. rewrite foldl_app.
      apply sigma_fmap.
    + rewrite Hs1. f_equal. rewrite length_fmap, mat_vec_length. destruct HdW as [HdW _]. lia.
  - intros act w1 (p & v & -> & Hp & -> & Hv & Hlen).
    apply wp_bind. eapply wp_copy_col_col.
    { autorewrite with world. apply lookup_insert_eq. } { done. } { done. }
    apply wp_bind. eapply wp_free_matrix_double.
    { autorewrite with world. apply lookup_insert_eq. }
    apply wp_ret. split.
    + rewrite Hv. f_equal. apply take_ge. lia.
    + autorewrite with world. cbn [data]. rewrite delete_insert_id by done. apply set_heap_id.
Qed.

Lemma weight_blocks_ok (w : world) net :
  net_ok w net → ∃ Ws : list (list (list D)), weight_blocks w net = Some Ws.
Proof.
  intros [Hns Hsz Hlb Hlw Hlay Hsep]. apply mapM_is_Some, Forall_lookup.
  intros k s Hk. assert (k < Z.to_nat (n_layers net - 1))%nat as Hlt.
  { rewrite <- Hlw. by eapply lookup_lt_Some. }
  destruct (Hlay k Hlt) as (wm & bm & s0 & s1 & [] & (W & HW & _) & _).
  assert (s = Some wm) as -> by congruence. cbn. by rewrite HW.
Qed.

(** The output is the sigmoid of the weighted inputs of the last layer. *)
Lemma forward_spec_last (Ws : list (list (list D))) (input : list D) :
  Ws ≠ [] → forward_spec Ws input = sigmoid <$> last_weighted Ws input.
Proof.
  destruct Ws as [|W Ws _] using rev_ind; [done|]. intros _.
  unfold last_weighted. rewrite reverse_snoc, reverse_involutive.
  unfold forward_spec. by rewrite foldl_app.
Qed.

End MatrixOps.


(** ** shuffle_data *)

Section Shuffle.
Context {D : Type} `{DblOps : Double D} `{Smp : Sampler D}.

Lemma swap_length {A} i j (l : list A) : length (swap i j l) = length l.
Proof. unfold swap. repeat case_match; by rewrite ?length_insert. Qed.

Lemma swap_Permutation {A} i j (l : list A) : swap i j l ≡ₚ l.
Proof.
  unfold swap. destruct (l !! i) as [x|] eqn:Hi; [|done].
  destruct (l !! j) as [y|] eqn:Hj; [|done].
  by apply Permutation_insert_swap.
Qed.


Lemma swap_lookup {A} i j k (l : list A) :
  (i < length l)%nat → (j < length l)%nat → swap i j l !! k = l !! transpose i j k.
Proof.
  intros Hi Hj. unfold swap, transpose.
  destruct (lookup_lt_is_Some_2 l i Hi) as [x Hx].
  destruct (lookup_lt_is_Some_2 l j Hj) as [y Hy]. rewrite Hx, Hy.
  destruct (decide (k = i)) as [->|Hki].
  - rewrite list_lookup_insert_eq by (by rewrite length_insert). done.
  - rewrite list_lookup_insert_ne by done.
    destruct (decide (k = j)) as [->|Hkj].
    + by rewrite list_lookup_insert_eq.
    + by rewrite list_lookup_insert_ne.
Qed.

Lemma transpose_lt i j k n : (i < n)%nat → (j < n)%nat → (k < n)%nat → (transpose i j k < n)%nat.
Proof. unfold transpose. repeat case_decide; lia. Qed.

Lemma fisher_yates_length {A} n r (l : list A) : length (fisher_yates n r l).1 = length l.
Proof. revert r l. induction n as [|n IH]; intros r l; [done|]. cbn. by rewrite IH, swap_length. Qed.

Lemma fisher_yates_Permutation {A} n r (l : list A) : (fisher_yates n r l).1 ≡ₚ l.
Proof.
  revert r l. induction n as [|n IH]; intros r l; [done|]. cbn.
  by rewrite IH, swap_Permutation.
Qed.

Lemma fisher_yates_rng {A B} n r (l : list A) (k : list B) :
  (fisher_yates n r l).2 = (fisher_yates n r k).2.
Proof. revert r l k. induction n as [|n IH]; intros r l k; [done|]. cbn. apply IH. Qed.

(** Shuffling a row moves to position [k] the entry whose index the
    shuffle of [0, 1, ..., N-1] holds at position [k]. *)
Lemma fisher_yates_lookup {A} n r (rw : list A) (k : nat) :
  rand_lim_in_range → (n < length rw)%nat → (k < length rw)%nat →
  (fisher_yates n r rw).1 !! k
  = rw !! ((fisher_yates n r (seq 0 (length rw))).1 !!! k).
Proof.
  intros Hrange Hn Hk.
  cut (∀ (σ : list nat) (cur : list A),
         length σ = length rw → length cur = length rw →
         Forall (λ i, (i < length rw)%nat) σ →
         (∀ k, (k < length rw)%nat → cur !! k = rw !! (σ !!! k)) →
         (fisher_yates n r cur).1 !! k = rw !! ((fisher_yates n r σ).1 !!! k)).
  { intros Hgen. apply Hgen.
    - by rewrite length_seq.
    - done.
    - apply Forall_forall. intros i Hi%elem_of_seq. lia.
    - intros k' Hk'. by rewrite lookup_total_seq_lt by lia. }
  revert r. induction n as [|n IH]; intros r σ cur Hlσ Hlc Hσ Hrel.
  - cbn. by apply Hrel.
  - cbn [fisher_yates]. set (jr := rand_lim (Z.of_nat (S n)) r).
    assert (0 ≤ jr.1 ≤ Z.of_nat (S n)) as Hj by (apply Hrange; lia).
    apply IH; [lia|by rewrite swap_length|by rewrite swap_length| |].
    + rewrite swap_Permutation. done.
    + intros k' Hk'. rewrite swap_lookup by lia. rewrite Hrel.
      2:{ apply transpose_lt; lia. }
      f_equal. symmetry. apply list_lookup_total_correct.
      rewrite swap_lookup by lia. apply list_lookup_lookup_total_lt.
      rewrite Hlσ. apply transpose_lt; lia.
Qed.

Lemma wp_rand_lim_call limit w Q :
  Q (rand_lim limit (rand w)).1 (with_rand (rand_lim limit (rand w)).2 w) →
  wp (rand_lim_call limit) w Q.
Proof. intros HQ. by eexists _, _. Qed.

Lemma wp_interchange_cols m i j bl w Q :
  heap w !! data m = Some bl → has_dims bl (nrows m) (ncols m) →
  0 ≤ i < ncols m → 0 ≤ j < ncols m →
  Q () (set_heap (<[data m := swap (Z.to_nat i) (Z.to_nat j) <$> bl]> (heap w)) w) →
  wp (interchange_cols_matrix_double m i j) w Q.
Proof.
  intros Hp Hd Hi Hj HQ. unfold interchange_cols_matrix_double.
  apply wp_bind. eapply wp_matrix_block; [done|done|].
  rewrite decide_True by done. by eapply wp_mstore.
Qed.

Lemma has_dims_swap (bl : list (list D)) r c i j :
  has_dims bl r c → has_dims (swap i j <$> bl) r c.
Proof.
  intros [Hr Hc]. split; [by rewrite length_fmap|].
  apply Forall_fmap. eapply Forall_impl; [done|]. intros rw Hrw. cbn. by rewrite swap_length.
Qed.

Lemma shuffle_data_spec (d l : matrix_double) (bd bl : list (list D)) (w : world) :
  rand_lim_in_range →
  heap w !! data d = Some bd → has_dims bd (nrows d) (ncols d) →
  heap w !! data l = Some bl → has_dims bl (nrows l) (ncols l) →
  data d ≠ data l → ncols d = ncols l →
  let n := Z.to_nat (ncols d - 1) in
  shuffle_data d l w =
    Done () (World (<[data l := (λ rw, (fisher_yates n (rand w) rw).1) <$> bl]>
                      (<[data d := (λ rw, (fisher_yates n (rand w) rw).1) <$> bd]> (heap w)))
                   (files w) (clock w) (fisher_yates n (rand w) (@nil nat)).2).
Proof.
  intros Hrange Hd Hdd Hl Hdl Hne Hcols n. unfold shuffle_data. fold n.
  assert (Hn : (n ≤ Z.to_nat (ncols d - 1))%nat) by lia.
  clearbody n. revert w bd bl Hd Hdd Hl Hdl.
  induction n as [|n IH]; intros w bd bl Hd Hdd Hl Hdl.
  - cbn. rewrite !list_fmap_id. rewrite (insert_id _ _ _ Hd), (insert_id _ _ _ Hl).
    by destruct w.
  - cbn [for_down fisher_yates].
    set (jr := rand_lim (Z.of_nat (S n)) (rand w)).
    assert (0 ≤ jr.1 ≤ Z.of_nat (S n)) as Hj by (apply Hrange; lia).
    match goal with |- ?m w = Done () ?w' =>
      cut (wp m w (λ _ w1, w1 = w')) end.
    { by intros ([] & ? & -> & ->). }
    apply wp_bind. apply wp_bind. apply wp_rand_lim_call. fold jr.
    apply wp_bind. eapply wp_interchange_cols; [done|done|lia|lia|].
    eapply wp_interchange_cols.
    { autorewrite with world. cbn. by rewrite lookup_insert_ne. }
    { done. } { lia. } { lia. }
    eexists (), _. split.
    { apply IH.
      - lia.
      - autorewrite with world. cbn. rewrite lookup_insert_ne by done. apply lookup_insert_eq.
      - by apply has_dims_swap.
      - autorewrite with world. cbn. apply lookup_insert_eq.
      - by apply has_dims_swap. }
    cbn. f_equal.
    rewrite (insert_insert_ne _ (data d) (data l)) by done.
    rewrite !insert_insert_eq.
    rewrite <- !list_fmap_compose. rewrite Nat2Z.id. done.
Qed.

(** C5. [shuffle_data] on two matrices of the same [N] columns, each with
    storage of its own, with a sampler that draws within its limit: the
    run is the Fisher-Yates pass of the spec ([i] from [N-1] down to 1, [j]
    drawn with limit [i], columns [i] and [j] swapped in both), and one
    permutation [σ] of the column indices describes both results: the
    column at [k] afterwards is the column formerly at [σ k], in the
    data and in the labels alike. *)
Theorem shuffle_data_aligned (d l : matrix_double) (bd bl : list (list D)) (w : world) :
  rand_lim_in_range →
  heap w !! data d = Some bd → has_dims bd (nrows d) (ncols d) →
  heap w !! data l = Some bl → has_dims bl (nrows l) (ncols l) →
  data d ≠ data l → ncols d = ncols l → 0 < ncols d →
  ∃ w' bd' bl' (σ : list nat),
    shuffle_data d l w = Done () w' ∧
    heap w' !! data d = Some bd' ∧ heap w' !! data l = Some bl' ∧
    σ = (fisher_yates (Z.to_nat (ncols d - 1)) (rand w) (seq 0 (Z.to_nat (ncols d)))).1 ∧
    σ ≡ₚ seq 0 (Z.to_nat (ncols d)) ∧
    ∀ r k : nat, (k < Z.to_nat (ncols d))%nat →
      bd' !! r ≫= (λ rw, rw !! k) = bd !! r ≫= (λ rw, rw !! (σ !!! k)) ∧
      bl' !! r ≫= (λ rw, rw !! k) = bl !! r ≫= (λ rw, rw !! (σ !!! k)).
Proof.
  intros Hrange Hd Hdd Hl Hdl Hne Hcols Hpos.
  pose proof (shuffle_data_spec d l bd bl w Hrange Hd Hdd Hl Hdl Hne Hcols) as Hrun.
  cbn zeta in Hrun. set (n := Z.to_nat (ncols d - 1)) in *.
  eexists _, _, _, _. split; [exact Hrun|]. cbn [heap].
  split; [by rewrite lookup_insert_ne, lookup_insert_eq|].
  split; [by rewrite lookup_insert_eq|].
  split; [done|]. split; [apply fisher_yates_Permutation|].
  assert (Hrow : ∀ (b : list (list D)) c (r k : nat),
    has_dims b c (ncols d) → (k < Z.to_nat (ncols d))%nat →
    ((λ rw, (fisher_yates n (rand w) rw).1) <$> b) !! r ≫= (λ rw, rw !! k)
    = b !! r ≫= (λ rw, rw !!
        ((fisher_yates n (rand w) (seq 0 (Z.to_nat (ncols d)))).1 !!! k))).
  { intros b c r k [_ Hb] Hk. rewrite list_lookup_fmap.
    destruct (b !! r) as [rw|] eqn:Hrw; [|done]. cbn.
    assert (Z.of_nat (length rw) = ncols d) as Hlen by (by eapply Forall_lookup_1 in Hb).
    replace (Z.to_nat (ncols d)) with (length rw) by lia.
    apply fisher_yates_lookup; [done|lia|lia]. }
  intros r k Hk. split; [by eapply Hrow|]. eapply Hrow; [|done]. by rewrite Hcols.
Qed.

End Shuffle.

(** ** What training leaves alone *)

Section Frame.
Context {D : Type} `{DblOps : Double D} `{Smp : Sampler D}.

Variable P : list positive.
Variable h0 : gmap positive (list (list D)).
Hypothesis P_allocated : ∀ p, p ∈ P → is_Some (h0 !! p).

Lemma wlp_bind_frame {A B} (m : M A) (k : A → M B) w (R : A → Prop) Q :
  wlp m w (frame_post P h0 R) →
  (∀ x w', keeps P h0 w' → R x → wlp (k x) w' Q) →
  wlp (m ≫= k) w Q.
Proof.
  intros Hm Hk. apply wlp_bind. eapply wlp_mono; [done|]. intros x w' [? ?]. by apply Hk.
Qed.

Lemma wlp_frame_weaken {A} (m : M A) w (R R' : A → Prop) :
  wlp m w (frame_post P h0 R) → (∀ x, R x → R' x) → wlp m w (frame_post P h0 R').
Proof. intros Hm HR. eapply wlp_mono; [done|]. intros x w' [? ?]. split; auto. Qed.

Lemma frame_ret {A} (x : A) w (R : A → Prop) :
  keeps P h0 w → R x → wlp (mret x) w (frame_post P h0 R).
Proof. intros. by apply wlp_ret. Qed.

Lemma frame_lift_option {A} (o : option A) w :
  keeps P h0 w → wlp (lift_option o) w (frame_post P h0 (λ x, o = Some x)).
Proof. intros Hk. apply wlp_lift_option. by intros x ->. Qed.

Lemma frame_malloc bl w :
  keeps P h0 w → wlp (malloc bl) w (frame_post P h0 (λ p, p ∉ P)).
Proof.
  intros Hk p w' Hrun. pose proof (fresh_heap w) as Hfresh.
  assert (fresh (dom (heap w)) ∉ P) as Hnot.
  { intros Hin. destruct (P_allocated _ Hin) as [x Hx].
    rewrite <- (Hk _ Hin), Hfresh in Hx. done. }
  rewrite malloc_Done in Hrun. injection Hrun as <- <-.
  split; [|done]. intros q Hq. cbn. rewrite lookup_insert_ne; [by apply Hk|].
  intros Heq. apply Hnot. by rewrite Heq.
Qed.

Lemma frame_mfree p w :
  keeps P h0 w → p ∉ P → wlp (mfree p) w (frame_post P h0 (λ _, True)).
Proof.
  intros Hk Hp [] w'. unfold mfree. destruct (heap w !! p); [|done]. intros [= <-].
  split; [|done]. intros q Hq. cbn. rewrite lookup_delete_ne; [by apply Hk|]. intros Heq. apply Hp. by rewrite Heq.
Qed.

Lemma frame_mload p w :
  keeps P h0 w → wlp (mload p) w (frame_post P h0 (λ _, True)).
Proof.
  intros Hk bl w'. unfold mload. destruct (heap w !! p); [|done]. by intros [= <- <-].
Qed.

Lemma frame_mstore p bl w :
  keeps P h0 w → p ∉ P → wlp (mstore p bl) w (frame_post P h0 (λ _, True)).
Proof.
  intros Hk Hp [] w'. unfold mstore. destruct (heap w !! p); [|done]. intros [= <-].
  split; [|done]. intros q Hq. cbn. rewrite lookup_insert_ne; [by apply Hk|].
  intros Heq. apply Hp. by rewrite Heq.
Qed.

Lemma frame_matrix_block m w :
  keeps P h0 w → wlp (matrix_block m) w (frame_post P h0 (λ _, True)).
Proof.
  intros Hk. unfold matrix_block. eapply wlp_bind_frame; [by apply frame_mload|].
  intros bl w' Hk' _. case_decide; [by apply frame_ret|apply wlp_undef].
Qed.

Lemma frame_alloc_matrix_double r c w :
  keeps P h0 w → wlp (alloc_matrix_double r c) w (frame_post P h0 (λ m, data m ∉ P)).
Proof.
  intros Hk. unfold alloc_matrix_double. case_decide; [|apply wlp_undef].
  eapply wlp_bind_frame; [by apply frame_malloc|]. intros p w' Hk' Hp. by apply frame_ret.
Qed.

Lemma frame_free_matrix_double m w :
  keeps P h0 w → data m ∉ P → wlp (free_matrix_double m) w (frame_post P h0 (λ _, True)).
Proof. apply frame_mfree. Qed.

Lemma frame_data_get m i j w :
  keeps P h0 w → wlp (data_get m i j) w (frame_post P h0 (λ _, True)).
Proof.
  intros Hk. unfold data_get. eapply wlp_bind_frame; [by apply frame_mload|].
  intros bl w' Hk' _. eapply wlp_frame_weaken; [by apply frame_lift_option|done].
Qed.

Lemma frame_data_set m i j x w :
  keeps P h0 w → data m ∉ P → wlp (data_set m i j x) w (frame_post P h0 (λ _, True)).
Proof.
  intros Hk Hm. unfold data_set. eapply wlp_bind_frame; [by apply frame_mload|].
  intros bl w' Hk' _. eapply wlp_bind_frame; [by apply frame_lift_option|].
  intros bl' w2 Hk2 _. by apply frame_mstore.
Qed.

Lemma frame_for_range lo hi body w :
  keeps P h0 w →
  (∀ i w, keeps P h0 w → wlp (body i) w (frame_post P h0 (λ _, True))) →
  wlp (for_range lo hi body) w (frame_post P h0 (λ _, True)).
Proof.
  intros Hk Hbody. apply (wlp_for_range (λ _ w', keeps P h0 w')); [done| |done].
  intros k w1 _ Hk1. eapply wlp_mono; [by apply Hbody|]. by intros [] w2 [? _].
Qed.

Lemma frame_for_fold {St} (R : St → Prop) lo hi body (s : St) w :
  keeps P h0 w → R s →
  (∀ i s w, keeps P h0 w → R s → wlp (body i s) w (frame_post P h0 R)) →
  wlp (for_fold lo hi body s) w (frame_post P h0 R).
Proof.
  intros Hk HR Hbody.
  apply (wlp_for_fold (λ _ s' w', keeps P h0 w' ∧ R s')); [done| |done].
  intros k s1 w1 _ [Hk1 HR1]. by apply Hbody.
Qed.

Lemma frame_set_col m arr c w :
  keeps P h0 w → data m ∉ P →
  wlp (set_col_matrix_double m arr c) w (frame_post P h0 (λ _, True)).
Proof.
  intros Hk Hm. unfold set_col_matrix_double.
  eapply wlp_bind_frame; [by apply frame_matrix_block|]. intros bl w1 Hk1 _.
  eapply wlp_bind_frame; [by apply frame_lift_option|]. intros bl' w2 Hk2 _.
  by apply frame_mstore.
Qed.

Lemma frame_copy_col m c w :
  keeps P h0 w → wlp (copy_col_matrix_double m c) w (frame_post P h0 (λ _, True)).
Proof.
  intros Hk. unfold copy_col_matrix_double.
  eapply wlp_bind_frame; [by apply frame_matrix_block|]. intros bl w1 Hk1 _.
  eapply wlp_frame_weaken; [by apply frame_lift_option|done].
Qed.

Lemma frame_matrix_product A B w :
  keeps P h0 w →
  wlp (matrix_product_matrix_double A B) w (frame_post P h0 (λ m, data m ∉ P)).
Proof.
  intros Hk. unfold matrix_product_matrix_double.
  eapply wlp_bind_frame; [by apply frame_matrix_block|]. intros ba w1 Hk1 _.
  eapply wlp_bind_frame; [by apply frame_matrix_block|]. intros bb w2 Hk2 _.
  case_decide; [|apply wlp_undef].
  eapply wlp_bind_frame; [by apply frame_lift_option|]. intros bc w3 Hk3 _.
  eapply wlp_bind_frame; [by apply frame_malloc|]. intros p w4 Hk4 Hp. by apply frame_ret.
Qed.

Lemma frame_copy_matrix m w :
  keeps P h0 w → wlp (copy_matrix_double m) w (frame_post P h0 (λ m', data m' ∉ P)).
Proof.
  intros Hk. unfold copy_matrix_double.
  eapply wlp_bind_frame; [by apply frame_matrix_block|]. intros bl w1 Hk1 _.
  eapply wlp_bind_frame; [by apply frame_malloc|]. intros p w2 Hk2 Hp. by apply frame_ret.
Qed.

Lemma frame_extract_section m s w :
  keeps P h0 w →
  wlp (extract_section_matrix_double m s) w (frame_post P h0 (λ m', data m' ∉ P)).
Proof.
  intros Hk. unfold extract_section_matrix_double.
  eapply wlp_bind_frame; [by apply frame_matrix_block|]. intros bl w1 Hk1 _.
  case_decide; [|apply wlp_undef].
  eapply wlp_bind_frame; [by apply frame_malloc|]. intros p w2 Hk2 Hp. by apply frame_ret.
Qed.

Lemma frame_interchange_cols m i j w :
  keeps P h0 w → data m ∉ P →
  wlp (interchange_cols_matrix_double m i j) w (frame_post P h0 (λ _, True)).
Proof.
  intros Hk Hm. unfold interchange_cols_matrix_double.
  eapply wlp_bind_frame; [by apply frame_matrix_block|]. intros bl w1 Hk1 _.
  case_decide; [|apply wlp_undef]. by apply frame_mstore.
Qed.

Lemma frame_vectorized_sigma m w :
  keeps P h0 w → data m ∉ P → wlp (vectorized_sigma m) w (frame_post P h0 (λ _, True)).
Proof.
  intros Hk Hm. unfold vectorized_sigma. apply frame_for_range; [done|].
  intros i w1 Hk1. apply frame_for_range; [done|]. intros j w2 Hk2.
  eapply wlp_bind_frame; [by apply frame_data_get|]. intros x w3 Hk3 _.
  by apply frame_data_set.
Qed.

Lemma frame_rand_lim_call limit w :
  keeps P h0 w → wlp (rand_lim_call limit) w (frame_post P h0 (λ _, True)).
Proof. intros Hk j w' [= <- <-]. done. Qed.

Lemma frame_shuffle_data d l w :
  keeps P h0 w → data d ∉ P → data l ∉ P →
  wlp (shuffle_data d l) w (frame_post P h0 (λ _, True)).
Proof.
  intros Hk Hd Hl. unfold shuffle_data. generalize (Z.to_nat (ncols d - 1)) as n.
  intros n. revert w Hk. induction n as [|n IH]; intros w Hk; [by apply frame_ret|].
  cbn [for_down]. eapply wlp_bind_frame; [|intros [] w4 Hk4 _; by apply IH].
  eapply wlp_bind_frame; [by apply frame_rand_lim_call|]. intros j w1 Hk1 _.
  eapply wlp_bind_frame; [by apply frame_interchange_cols|]. intros [] w2 Hk2 _.
  by apply frame_interchange_cols.
Qed.

(** *** The arrays of [network_backprop] *)

Lemma clean_replicate n k : clean P (replicate n (replicate k None)).
Proof.
  intros l i rw m [-> _]%lookup_replicate [? _]%lookup_replicate. done.
Qed.

Lemma frame_slot2_get arr l i w :
  keeps P h0 w → clean P arr → wlp (slot2_get arr l i) w (frame_post P h0 (λ m, data m ∉ P)).
Proof.
  intros Hk Hc. unfold slot2_get.
  eapply wlp_bind_frame; [by apply frame_lift_option|]. intros rw w1 Hk1 [_ Hrw]%zlookup_Some.
  unfold slot_get. eapply wlp_frame_weaken; [by apply frame_lift_option|].
  intros m Hm. cbn in Hm. destruct (zlookup rw i) as [[m'|]|] eqn:Hi; simplify_eq/=.
  apply zlookup_Some in Hi as [_ Hi]. by eapply Hc.
Qed.

Lemma frame_slot2_set arr l i m w :
  keeps P h0 w → clean P arr → data m ∉ P →
  wlp (slot2_set arr l i m) w (frame_post P h0 (clean P)).
Proof.
  intros Hk Hc Hm. unfold slot2_set.
  eapply wlp_bind_frame; [by apply frame_lift_option|]. intros rw w1 Hk1 [_ Hrw]%zlookup_Some.
  unfold slot_set.
  eapply wlp_bind_frame; [by apply frame_lift_option|]. intros rw' w2 Hk2 [_ ->]%zinsert_Some.
  eapply wlp_frame_weaken; [by apply frame_lift_option|].
  intros arr' [_ ->]%zinsert_Some. intros l' i' rw2 m2 Hl' Hi'.
  destruct (decide (l' = Z.to_nat l)) as [->|Hne].
  - rewrite list_lookup_insert_eq in Hl' by (by eapply lookup_lt_Some). simplify_eq.
    destruct (decide (i' = Z.to_nat i)) as [->|Hne'].
    + apply list_lookup_insert_Some in Hi' as [(_ & ? & _)|[? _]]; [by simplify_eq|done].
    + rewrite list_lookup_insert_ne in Hi' by done. by eapply Hc.
  - rewrite list_lookup_insert_ne in Hl' by done. by eapply Hc.
Qed.

Lemma frame_network_backprop net td tl w :
  keeps P h0 w → wlp (network_backprop net td tl) w (frame_post P h0 (λ _, True)).
Proof.
  intros Hk. unfold network_backprop.
  eapply (wlp_bind_frame _ _ _ (λ st, clean P st.1.1 ∧ clean P st.1.2 ∧
                                      ∀ c, st.2 = Some c → data c ∉ P)).
  - apply frame_for_fold; [done| |].
    { cbn. split; [apply clean_replicate|]. split; [apply clean_replicate|done]. }
    intros i [[zs activs] costs] w1 Hk1 (Hzs & Hac & _). cbn [fst snd].
    eapply wlp_bind_frame; [by apply frame_alloc_matrix_double|]. intros a0 w2 Hk2 Ha0.
    eapply wlp_bind_frame; [by apply frame_slot2_set|]. intros activs1 w3 Hk3 Hac1.
    eapply wlp_bind_frame; [by apply frame_copy_col|]. intros input w4 Hk4 _.
    eapply wlp_bind_frame; [by apply frame_slot2_get|]. intros a0' w5 Hk5 Ha0'.
    eapply wlp_bind_frame; [by apply frame_set_col|]. intros [] w6 Hk6 _.
    eapply wlp_bind_frame; [by apply frame_alloc_matrix_double|]. intros z0 w7 Hk7 Hz0.
    eapply wlp_bind_frame; [by apply frame_slot2_set|]. intros zs1 w8 Hk8 Hzs1.
    eapply (wlp_bind_frame _ _ _ (λ za, clean P za.1 ∧ clean P za.2)).
    + apply frame_for_fold; [done|done|].
      intros l [zs2 activs2] w9 Hk9 [Hzs2 Hac2]. cbn [fst snd].
      eapply wlp_bind_frame; [by apply frame_lift_option|]. intros wl w10 Hk10 _.
      eapply wlp_bind_frame; [by apply frame_slot2_get|]. intros al w11 Hk11 _.
      eapply wlp_bind_frame; [by apply frame_matrix_product|]. intros z w12 Hk12 Hz.
      eapply wlp_bind_frame; [by apply frame_slot2_set|]. intros zs3 w13 Hk13 Hzs3.
      eapply wlp_bind_frame; [by apply frame_slot2_get|]. intros zl w14 Hk14 _.
      eapply wlp_bind_frame; [by apply frame_copy_matrix|]. intros al' w15 Hk15 Hal'.
      eapply wlp_bind_frame; [by apply frame_slot2_set|]. intros activs3 w16 Hk16 Hac3.
      eapply wlp_bind_frame; [by apply frame_slot2_get|]. intros al2 w17 Hk17 Hal2.
      eapply wlp_bind_frame; [by apply frame_vectorized_sigma|]. intros [] w18 Hk18 _.
      by apply frame_ret.
    + intros [zs2 activs2] w9 Hk9 [Hzs2 Hac2]. cbn [fst snd].
      eapply wlp_bind_frame; [by apply frame_lift_option|]. intros outs w10 Hk10 _.
      eapply wlp_bind_frame; [by apply frame_alloc_matrix_double|]. intros c w11 Hk11 Hc.
      apply frame_ret; [done|]. cbn. split; [done|]. split; [done|]. by intros ? [= <-].
  - intros [[zs activs] costs] w1 Hk1 (Hzs & Hac & Hcosts). cbn [fst snd].
    eapply wlp_bind_frame; [by apply frame_lift_option|]. intros c w2 Hk2 Hc.
    eapply wlp_bind_frame; [apply frame_free_matrix_double; [done|by apply Hcosts]|].
    intros [] w3 Hk3 _.
    apply frame_for_range; [done|]. intros i w4 Hk4.
    apply frame_for_range; [done|]. intros l w5 Hk5.
    eapply wlp_bind_frame; [by apply frame_slot2_get|]. intros al w6 Hk6 Hal.
    eapply wlp_bind_frame; [by apply frame_free_matrix_double|]. intros [] w7 Hk7 _.
    eapply wlp_bind_frame; [by apply frame_slot2_get|]. intros zl w8 Hk8 Hzl.
    by apply frame_free_matrix_double.
Qed.

Lemma frame_int_add x y w :
  keeps P h0 w → wlp (int_add x y) w (frame_post P h0 (λ _, True)).
Proof. intros Hk. unfold int_add. case_decide; [by apply frame_ret|apply wlp_undef]. Qed.

Lemma frame_mini_batches fuel net td tl mbs size j w :
  keeps P h0 w →
  wlp (mini_batches fuel net td tl mbs size j) w (frame_post P h0 (λ _, True)).
Proof.
  revert j w. induction fuel as [|fuel IH]; intros j w Hk; [by intros ? ?|].
  cbn [mini_batches]. case_decide; [|by apply frame_ret].
  eapply wlp_bind_frame; [by apply frame_int_add|]. intros k w1 Hk1 _.
  eapply wlp_bind_frame; [by apply frame_extract_section|]. intros mbd w2 Hk2 Hmbd.
  eapply wlp_bind_frame; [by apply frame_extract_section|]. intros mbl w3 Hk3 Hmbl.
  eapply wlp_bind_frame; [by apply frame_network_backprop|]. intros [] w4 Hk4 _.
  eapply wlp_bind_frame; [by apply frame_free_matrix_double|]. intros [] w5 Hk5 _.
  eapply wlp_bind_frame; [by apply frame_free_matrix_double|]. intros [] w6 Hk6 _.
  eapply wlp_bind_frame; [by apply frame_int_add|]. intros j' w7 Hk7 _.
  by apply IH.
Qed.

Lemma frame_network_SGD fuel net td tl epochs mbs eta w :
  keeps P h0 w → data td ∉ P → data tl ∉ P →
  wlp (network_SGD fuel net td tl epochs mbs eta) w (frame_post P h0 (λ _, True)).
Proof.
  intros Hk Htd Htl. unfold network_SGD. apply frame_for_range; [done|].
  intros i w1 Hk1. eapply wlp_bind_frame; [by apply frame_shuffle_data|].
  intros [] w2 Hk2 _. by apply frame_mini_batches.
Qed.

End Frame.

Section Training.
Context {D : Type} `{DblOps : Double D} `{Smp : Sampler D}.

Lemma keeps_refl (P : list positive) (w : world) : keeps P (heap w) w.
Proof. by intros p Hp. Qed.

(** [network_backprop] writes to no storage of the network: whenever it
    returns, the storage of every weight matrix and of every bias vector
    is what it was. *)
Lemma network_backprop_keeps_parameters (net : network) (td tl : matrix_double)
    (w w' : world) :
  (∀ p, p ∈ net_addrs net → is_Some (heap w !! p)) →
  network_backprop net td tl w = Done () w' →
  ∀ p, p ∈ net_addrs net → heap w' !! p = heap w !! p.
Proof.
  intros Halloc Hrun.
  by destruct (frame_network_backprop (net_addrs net) (heap w) Halloc net td tl w
                 (keeps_refl _ w) () w' Hrun) as [Hk _].
Qed.

(** C3. Every run of [network_SGD] that returns leaves the storage of every
    weight matrix and of every bias vector of the network as it was: no
    entry is updated.  The network's storage is allocated, and the
    training matrices are not part of it. *)
Theorem network_SGD_keeps_parameters (fuel : nat) (net : network)
    (td tl : matrix_double) (epochs mbs : Z) (eta : D) (w w' : world) :
  (∀ p, p ∈ net_addrs net → is_Some (heap w !! p)) →
  data td ∉ net_addrs net → data tl ∉ net_addrs net →
  network_SGD fuel net td tl epochs mbs eta w = Done () w' →
  ∀ p, p ∈ net_addrs net → heap w' !! p = heap w !! p.
Proof.
  intros Halloc Htd Htl Hrun.
  by destruct (frame_network_SGD (net_addrs net) (heap w) Halloc fuel net td tl epochs mbs
                 eta w (keeps_refl _ w) Htd Htl () w' Hrun) as [Hk _].
Qed.

End Training.

(** ** The mini-batches of network_SGD *)

Section Batches.
Context {D : Type} `{DblOps : Double D} `{Smp : Sampler D}.

Lemma bind_ext {A B} (m : M A) (k1 k2 : A → M B) w :
  (∀ x w', k1 x w' = k2 x w') → (m ≫= k1) w = (m ≫= k2) w.
Proof. intros Hk. unfold mbind, M_bind, bind. destruct (m w); [apply Hk|done|done]. Qed.

Lemma for_range_ext lo hi (body1 body2 : Z → M ()) w :
  (∀ i w', body1 i w' = body2 i w') → for_range lo hi body1 w = for_range lo hi body2 w.
Proof.
  intros Hb. unfold for_range, for_fold. generalize (Z.to_nat (hi - lo)) as n. intros n.
  revert lo w. induction n as [|n IH]; intros lo w; [done|].
  cbn [for_iter]. unfold mbind, M_bind, bind. rewrite Hb.
  destruct (body2 lo w) as [[] ?| |]; [apply IH|done|done].
Qed.

Lemma int_add_0_l y : in_int y → int_add 0 y = mret y.
Proof. intros Hy. unfold int_add. by rewrite Z.add_0_l, decide_True. Qed.

Lemma ret_bind {A B} (x : A) (k : A → M B) w : (mret x ≫= k) w = k x w.
Proof. done. Qed.

(** A mini-batch size above the number of columns is clamped to it: the
    batch loop runs as it does with the number of columns itself. *)
Lemma mini_batches_clamp fuel net td tl mbs N w :
  1 ≤ N → N < mbs ≤ INT_MAX →
  mini_batches fuel net td tl mbs N 0 w = mini_batches fuel net td tl N N 0 w.
Proof.
  intros HN Hmbs. destruct fuel as [|fuel]; [done|]. cbn [mini_batches].
  assert (in_int mbs) by (unfold in_int, INT_MIN, INT_MAX in *; lia).
  assert (in_int N) by (unfold in_int, INT_MIN, INT_MAX in *; lia).
  rewrite !decide_True by lia.
  rewrite !int_add_0_l by done. rewrite !ret_bind. cbn beta zeta.
  rewrite decide_True by lia. rewrite (decide_False (P := N > N)) by lia.
  do 5 (apply bind_ext; intros ? ?).
  rewrite !ret_bind.
  destruct fuel as [|fuel]; [done|]. cbn [mini_batches]. by rewrite !decide_False by lia.
Qed.

(** An empty corpus: the batch loop ends before its first round. *)
Lemma mini_batches_empty fuel net td tl mbs :
  mini_batches (S fuel) net td tl mbs 0 0 = mret ().
Proof. done. Qed.

(** C6, as the code has it.  A mini-batch size above the number [N >= 1]
    of examples is clamped to [N]: the run is the run with mini-batch size
    [N].  With no examples the batch loop does no round, and the whole
    call returns with the world as it was, whatever the mini-batch
    size. *)
Theorem network_SGD_batch_size (fuel : nat) (net : network) (td tl : matrix_double)
    (epochs mbs : Z) (eta : D) (w : world) :
  (1 ≤ ncols td → ncols td < mbs ≤ INT_MAX →
     network_SGD fuel net td tl epochs mbs eta w
     = network_SGD fuel net td tl epochs (ncols td) eta w) ∧
  (ncols td = 0 →
     mini_batches (S fuel) net td tl mbs (ncols td) 0 = mret () ∧
     network_SGD (S fuel) net td tl epochs mbs eta w = Done () w).
Proof.
  split.
  - intros HN Hmbs. unfold network_SGD. apply for_range_ext. intros i w1.
    apply bind_ext. intros [] w2. by apply mini_batches_clamp.
  - intros HN. rewrite HN. split; [done|].
    cut (wp (network_SGD (S fuel) net td tl epochs mbs eta) w (λ _ w', w' = w)).
    { by intros ([] & w' & -> & ->). }
    unfold network_SGD. rewrite HN.
    apply (wp_for_range (λ _ w', w' = w)); [done| |done].
    intros k w1 _ ->. unfold shuffle_data. rewrite HN. cbn [Z.to_nat Z.sub Z.add Z.opp for_down].
    by eexists (), w.
Qed.

End Batches.

(** ** Filling the parameters *)

Section Fill.
Context {D : Type} `{DblOps : Double D} `{Smp : Sampler D}.

Section Source.
Context {St : Type} (next : St → (D → D) * St).




Lemma fill_list_length old s : length (fill_list next old s).1 = length old.
Proof. revert s. induction old as [|x old IH]; intros s; [done|]. cbn. by rewrite IH. Qed.

Lemma fill_layers_app old1 old2 s :
  fill_layers next (old1 ++ old2) s =
  ((fill_layers next old1 s).1 ++ (fill_layers next old2 (fill_layers next old1 s).2).1,
   (fill_layers next old2 (fill_layers next old1 s).2).2).
Proof.
  revert s. induction old1 as [|bw old1 IH]; intros s; cbn; [by destruct (fill_layers next old2 s)|].
  by rewrite IH.
Qed.

(** The loop over the entries of one row, given what one round does. *)
Lemma wp_fill_entries (p : positive) (body : Z → St → M St)
    (Wdone Wrest : list (list D)) :
  (∀ (rdone rrest : list D) x s w,
     heap w !! p = Some (Wdone ++ (rdone ++ x :: rrest) :: Wrest) →
     wp (body (Z.of_nat (length rdone)) s) w (λ s' w',
       s' = (next s).2 ∧
       w' = set_heap (<[p := Wdone ++ (rdone ++ (next s).1 x :: rrest) :: Wrest]>
                        (heap w)) w)) →
  ∀ (row : list D) s w Q,
    heap w !! p = Some (Wdone ++ row :: Wrest) →
    Q (fill_list next row s).2
      (set_heap (<[p := Wdone ++ (fill_list next row s).1 :: Wrest]> (heap w)) w) →
    wp (for_fold 0 (Z.of_nat (length row)) body s) w Q.
Proof.
  intros Hbody row s w Q Hp HQ. unfold for_fold. rewrite Z.sub_0_r, Nat2Z.id.
  cut (∀ rrest rdone s1 w1,
         heap w1 !! p = Some (Wdone ++ (rdone ++ rrest) :: Wrest) →
         wp (for_iter (length rrest) (Z.of_nat (length rdone)) body s1) w1 (λ s' w',
           s' = (fill_list next rrest s1).2 ∧
           w' = set_heap (<[p := Wdone ++ (rdone ++ (fill_list next rrest s1).1) :: Wrest]>
                            (heap w1)) w1)).
  { intros Hgen. eapply wp_mono; [apply (Hgen row [] s w); done|].
    intros s' w' [-> ->]. done. }
  clear row s w Q Hp HQ.
  induction rrest as [|x rrest IH]; intros rdone s1 w1 Hp.
  - cbn. apply wp_ret. split; [done|]. rewrite insert_id by done. by rewrite set_heap_id.
  - cbn [for_iter length fill_list]. apply wp_bind.
    eapply wp_mono; [by apply Hbody|]. intros s2 w2 [-> ->].
    replace (Z.of_nat (length rdone) + 1) with (Z.of_nat (length (rdone ++ [(next s1).1 x])))
      by (rewrite length_app; cbn; lia).
    eapply wp_mono; [apply IH|].
    { autorewrite with world. rewrite lookup_insert_eq. by rewrite <- app_assoc. }
    intros s3 w3 [-> ->]. split; [done|].
    autorewrite with world. rewrite insert_insert_eq. by rewrite <- app_assoc.
Qed.

(** The loop over the rows, given what one round does to its row of the
    bias vector and of the weight matrix. *)
Lemma wp_fill_rows (pb pw : positive) (body : Z → St → M St) (B W : list (list D)) :
  pb ≠ pw →
  (∀ (Bdone Wdone : list (list D)) brow wrow Brest Wrest s w,
     brow ∈ B → wrow ∈ W →
     length Bdone = length Wdone →
     heap w !! pb = Some (Bdone ++ brow :: Brest) →
     heap w !! pw = Some (Wdone ++ wrow :: Wrest) →
     wp (body (Z.of_nat (length Bdone)) s) w (λ s' w',
       s' = (fill_list next wrow (fill_list next brow s).2).2 ∧
       w' = set_heap (<[pw := Wdone ++ (fill_list next wrow (fill_list next brow s).2).1 :: Wrest]>
                       (<[pb := Bdone ++ (fill_list next brow s).1 :: Brest]> (heap w))) w)) →
  ∀ s w Q,
    length B = length W →
    heap w !! pb = Some B → heap w !! pw = Some W →
    Q (fill_rows next B W s).2
      (set_heap (<[pw := (fill_rows next B W s).1.2]> (<[pb := (fill_rows next B W s).1.1]> (heap w))) w) →
    wp (for_fold 0 (Z.of_nat (length B)) body s) w Q.
Proof.
  intros Hne Hbody s w Q Hlen Hpb Hpw HQ. unfold for_fold. rewrite Z.sub_0_r, Nat2Z.id.
  cut (∀ Brest Wrest Bdone Wdone s1 w1,
         (∀ r, r ∈ Brest → r ∈ B) → (∀ r, r ∈ Wrest → r ∈ W) →
         length Bdone = length Wdone → length Brest = length Wrest →
         heap w1 !! pb = Some (Bdone ++ Brest) → heap w1 !! pw = Some (Wdone ++ Wrest) →
         wp (for_iter (length Brest) (Z.of_nat (length Bdone)) body s1) w1 (λ s' w',
           s' = (fill_rows next Brest Wrest s1).2 ∧
           w' = set_heap (<[pw := Wdone ++ (fill_rows next Brest Wrest s1).1.2]>
                           (<[pb := Bdone ++ (fill_rows next Brest Wrest s1).1.1]> (heap w1))) w1)).
  { intros Hgen. eapply wp_mono; [apply (Hgen B W [] [] s w); done|].
    intros s' w' [-> ->]. done. }
  clear s w Q Hlen Hpb Hpw HQ.
  induction Brest as [|brow Brest IH];
    intros [|wrow Wrest] Bdone Wdone s1 w1 HinB HinW Hd Hr Hpb Hpw; try done.
  - cbn. apply wp_ret. split; [done|]. rewrite !app_nil_r in *.
    rewrite (insert_id _ pb) by done. rewrite insert_id by done. by rewrite set_heap_id.
  - cbn [for_iter length fill_rows fst snd]. apply wp_bind.
    eapply wp_mono.
    { apply Hbody; [apply HinB; left|apply HinW; left|done..]. }
    intros s2 w2 [-> ->].
    set (rb := fill_list next brow s1). set (rw := fill_list next wrow rb.2).
    replace (Z.of_nat (length Bdone) + 1) with (Z.of_nat (length (Bdone ++ [rb.1])))
      by (rewrite length_app; cbn; lia).
    eapply wp_mono; [apply (IH Wrest (Bdone ++ [rb.1]) (Wdone ++ [rw.1]))|].
    { intros r Hr'. apply HinB. by right. }
    { intros r Hr'. apply HinW. by right. }
    { rewrite !length_app. cbn. lia. }
    { cbn in Hr. lia. }
    { autorewrite with world. rewrite lookup_insert_ne by done. rewrite lookup_insert_eq.
      by rewrite <- app_assoc. }
    { autorewrite with world. rewrite lookup_insert_eq. by rewrite <- app_assoc. }
    intros s3 w3 [-> ->]. split; [done|].
    autorewrite with world. f_equal.
    rewrite (insert_insert_ne _ pb pw) by done. rewrite !insert_insert_eq.
    by rewrite <- !app_assoc.
Qed.




Lemma fill_heap_snoc hs bw s h :
  fill_heap next (hs ++ [bw]) s h =
  let hk := fill_heap next hs s h in
  let r := fill_rows next (default [] (hk.1 !! data bw.1)) (default [] (hk.1 !! data bw.2)) hk.2 in
  (<[data bw.2 := r.1.2]> (<[data bw.1 := r.1.1]> hk.1), r.2).
Proof. revert s h. induction hs as [|x hs IH]; intros s h; [done|]. cbn. by rewrite IH. Qed.

Lemma fill_heap_other hs s h p :
  p ∉ (data <$> hs.*1) → p ∉ (data <$> hs.*2) → (fill_heap next hs s h).1 !! p = h !! p.
Proof.
  revert s h. induction hs as [|[bm wm] hs IH]; intros s h Hb Hw; [done|].
  cbn in *. apply not_elem_of_cons in Hb as [? ?]. apply not_elem_of_cons in Hw as [? ?].
  rewrite IH by done. by rewrite !lookup_insert_ne.
Qed.

Lemma handles_all_Some (sl : slots matrix_double) :
  (∀ k, (k < length sl)%nat → ∃ m, sl !! k = Some (Some m)) → sl = Some <$> handles sl.
Proof.
  unfold handles. induction sl as [|x sl IH]; intros Hall; [done|].
  destruct (Hall 0%nat) as [m Hm]; [cbn; lia|]. cbn in Hm. simplify_eq. cbn.
  rewrite <- IH; [done|]. intros k Hk. apply (Hall (S k)). cbn. lia.
Qed.

Lemma net_ok_slots w net :
  net_ok w net →
  biases net = Some <$> handles (biases net) ∧ weights net = Some <$> handles (weights net).
Proof.
  intros [Hns Hsz Hlb Hlw Hlay Hsep]. split; apply handles_all_Some; intros k Hk.
  - destruct (Hlay k) as (wm & bm & s0 & s1 & [] & _); [lia|eauto].
  - destruct (Hlay k) as (wm & bm & s0 & s1 & [] & _); [lia|eauto].
Qed.

Lemma layer_handles_length w net :
  net_ok w net → length (layer_handles net) = Z.to_nat (n_layers net - 1).
Proof.
  intros Hok. destruct (net_ok_slots w net Hok) as [Hb Hw]. destruct Hok as [? ? Hlb Hlw ? ?].
  unfold layer_handles. rewrite length_zip.
  rewrite Hb, length_fmap in Hlb. rewrite Hw, length_fmap in Hlw. lia.
Qed.

Lemma layer_handles_lookup w net k bm wm :
  net_ok w net →
  layer_handles net !! k = Some (bm, wm) ↔
  biases net !! k = Some (Some bm) ∧ weights net !! k = Some (Some wm).
Proof.
  intros Hok. destruct (net_ok_slots w net Hok) as [Hb Hw].
  unfold layer_handles. rewrite Hb at 2. rewrite Hw at 2. rewrite !list_lookup_fmap.
  rewrite lookup_zip_Some. cbn.
  split; [intros [-> ->]; done|]. intros [Hbk Hwk].
  destruct (handles (biases net) !! k), (handles (weights net) !! k); by simplify_eq/=.
Qed.

Lemma layer_handles_addrs net :
  net_addrs net = data <$> (handles (biases net) ++ handles (weights net)).
Proof. done. Qed.

Lemma layer_handles_separate w net k bm wm :
  net_ok w net → layer_handles net !! k = Some (bm, wm) →
  data bm ≠ data wm ∧
  (data bm ∉ data <$> (take k (layer_handles net)).*1) ∧
  (data bm ∉ data <$> (take k (layer_handles net)).*2) ∧
  (data wm ∉ data <$> (take k (layer_handles net)).*1) ∧
  (data wm ∉ data <$> (take k (layer_handles net)).*2).
Proof.
  intros Hok Hk.
  assert (Hlen : length (handles (biases net)) = length (handles (weights net))).
  { destruct (net_ok_slots w net Hok) as [Hb Hw]. destruct Hok as [? ? Hlb Hlw ? ?].
    rewrite Hb, length_fmap in Hlb. rewrite Hw, length_fmap in Hlw. lia. }
  destruct Hok as [_ _ _ _ _ Hsep]. unfold net_addrs in Hsep.
  unfold layer_handles in *. apply lookup_zip_Some in Hk as [Hbk Hwk]. cbn in *.
  rewrite fmap_app in Hsep.
  rewrite <- (take_drop_middle _ _ _ Hbk), <- (take_drop_middle _ _ _ Hwk) in Hsep.
  rewrite !fmap_app, !fmap_cons in Hsep.
  rewrite zip_with_take.
  rewrite fst_zip, snd_zip by (rewrite !length_take; lia).
  apply NoDup_app in Hsep as (Hb & Hbw & Hw).
  apply NoDup_app in Hb as (_ & Hb1 & Hb2). apply NoDup_cons in Hb2 as [_ _].
  apply NoDup_app in Hw as (_ & Hw1 & Hw2). apply NoDup_cons in Hw2 as [_ _].
  repeat split.
  - intros Heq. apply (Hbw (data bm)); [set_solver|]. rewrite Heq. set_solver.
  - intros Hin. by apply (Hb1 _ Hin), list_elem_of_here.
  - intros Hin. apply (Hbw (data bm)); set_solver.
  - intros Hin. apply (Hbw (data wm)); set_solver.
  - intros Hin. by apply (Hw1 _ Hin), list_elem_of_here.
Qed.

(** The loop over the layers, given what one round does to its layer. *)
Lemma wp_fill_layers (net : network) (body : Z → St → M St) (w0 : world) (s0 : St) Q :
  net_ok w0 net →
  (∀ (k : nat) bm wm t0 t1 B W s w,
     layer_of net k wm bm t0 t1 → data bm ≠ data wm →
     heap w !! data bm = Some B → has_dims B t1 1 →
     heap w !! data wm = Some W → has_dims W t1 t0 →
     wp (body (Z.of_nat k) s) w (λ s' w',
       s' = (fill_rows next B W s).2 ∧
       w' = set_heap (<[data wm := (fill_rows next B W s).1.2]>
                        (<[data bm := (fill_rows next B W s).1.1]> (heap w))) w)) →
  Q (fill_heap next (layer_handles net) s0 (heap w0)).2
    (set_heap (fill_heap next (layer_handles net) s0 (heap w0)).1 w0) →
  wp (for_fold 0 (n_layers net - 1) body s0) w0 Q.
Proof.
  intros Hok Hbody HQ. set (hs := layer_handles net).
  assert (Hlen : length hs = Z.to_nat (n_layers net - 1)) by by eapply layer_handles_length.
  apply (wp_for_fold (λ k s w',
    s = (fill_heap next (take k hs) s0 (heap w0)).2 ∧
    w' = set_heap (fill_heap next (take k hs) s0 (heap w0)).1 w0)).
  - rewrite take_0. cbn [fill_heap fst snd]. by rewrite set_heap_id.
  - intros k s w1 Hk [-> ->]. rewrite Z.sub_0_r in Hk. rewrite Z.add_0_l.
    destruct (lookup_lt_is_Some_2 hs k) as [[bm wm] Hbw]; [lia|].
    pose proof Hbw as [Hbk Hwk]%(layer_handles_lookup w0 net k bm wm Hok).
    destruct (layer_handles_separate w0 net k bm wm Hok Hbw) as (Hne & Hb1 & Hb2 & Hw1 & Hw2).
    destruct Hok as [_ _ _ _ Hlay _].
    destruct (Hlay k Hk) as (wm' & bm' & t0 & t1 & Hl & (W & HW & HdW) & (B & HB & HdB)).
    pose proof Hl as [? ? Hwl Hbl Hwr Hwc Hbr Hbc].
    assert (wm' = wm) as -> by congruence. assert (bm' = bm) as -> by congruence.
    fold hs in Hb1, Hb2, Hw1, Hw2.
    set (hk := fill_heap next (take k hs) s0 (heap w0)).
    assert (HBk : hk.1 !! data bm = Some B) by (unfold hk; by rewrite fill_heap_other).
    assert (HWk : hk.1 !! data wm = Some W) by (unfold hk; by rewrite fill_heap_other).
    eapply wp_mono.
    { eapply (Hbody k bm wm t0 t1 B W); [done|done|by autorewrite with world| |by autorewrite with world|].
      - by rewrite <- Hbr, <- Hbc.
      - by rewrite <- Hwr, <- Hwc. }
    intros s' w' [-> ->]. rewrite (take_S_r _ _ _ Hbw), fill_heap_snoc. cbn zeta. fold hk.
    cbn [fst snd]. rewrite HBk, HWk. cbn [default]. autorewrite with world. done.
  - intros s w' [-> ->]. rewrite Z.sub_0_r, <- Hlen, firstn_all. done.
Qed.


Lemma NoDup_separate hs : NoDup (data <$> (hs.*1 ++ hs.*2)) → separate hs.
Proof.
  induction hs as [|[bm wm] hs IH]; [done|]. cbn [separate fst snd].
  rewrite fmap_cons. cbn [fst snd app]. rewrite fmap_cons, fmap_app, (fmap_cons snd). cbn [snd].
  rewrite (fmap_cons data wm).
  intros Hnd. apply NoDup_cons in Hnd as [Hb Hnd].
  apply NoDup_app in Hnd as (Hnd1 & Hx & Hnd2). apply NoDup_cons in Hnd2 as [Hw Hnd2].
  rewrite not_elem_of_app, not_elem_of_cons in Hb.
  repeat split; try tauto.
  - intros Hin. apply (Hx _ Hin). left.
  - apply IH. rewrite fmap_app. apply NoDup_app. repeat split; [done| |done].
    intros x Hin Hin'. apply (Hx x Hin). by right.
Qed.

Lemma layer_blocks_insert_other (h : gmap positive (list (list D))) hs p x :
  p ∉ (data <$> hs.*1) → p ∉ (data <$> hs.*2) →
  layer_blocks (<[p := x]> h) hs = layer_blocks h hs.
Proof.
  unfold layer_blocks. induction hs as [|[bm wm] hs IH]; intros H1 H2; [done|].
  cbn in *. apply not_elem_of_cons in H1 as [? ?]. apply not_elem_of_cons in H2 as [? ?].
  rewrite !lookup_insert_ne by done. by rewrite IH.
Qed.

(** Filling the heap layer by layer is filling the storage of the layers. *)
Lemma fill_heap_layers hs s (h : gmap positive (list (list D))) :
  separate hs →
  (fill_heap next hs s h).2 = (fill_layers next (layer_blocks h hs) s).2 ∧
  ∀ k bm wm, hs !! k = Some (bm, wm) →
    ∃ nb nw, (fill_layers next (layer_blocks h hs) s).1 !! k = Some (nb, nw) ∧
      (fill_heap next hs s h).1 !! data bm = Some nb ∧
      (fill_heap next hs s h).1 !! data wm = Some nw.
Proof.
  revert s h. induction hs as [|[bm0 wm0] hs IH]; intros s h Hsep; [done|].
  destruct Hsep as (Hne & Hb1 & Hb2 & Hw1 & Hw2 & Hsep). cbn [fst snd] in *.
  cbn [fill_heap layer_blocks fmap list_fmap fill_layers fst snd].
  set (r := fill_rows next (default [] (h !! data bm0)) (default [] (h !! data wm0)) s).
  set (h' := <[data wm0 := r.1.2]> (<[data bm0 := r.1.1]> h)).
  destruct (IH r.2 h' Hsep) as [IHs IHl].
  assert (Hlb : layer_blocks h' hs = layer_blocks h hs).
  { unfold h'. by rewrite !layer_blocks_insert_other. }
  unfold layer_blocks in Hlb. fold (layer_blocks h' hs) in *. rewrite Hlb in *.
  split; [done|]. intros [|k] bm wm Hk.
  - cbn in Hk. simplify_eq. exists r.1.1, r.1.2. split; [by destruct r as [[] ?]|].
    rewrite !fill_heap_other by done. unfold h'.
    rewrite lookup_insert_ne by done. by rewrite !lookup_insert_eq.
  - cbn in Hk. destruct (IHl k bm wm Hk) as (nb & nw & ? & ? & ?). by exists nb, nw.
Qed.



Lemma fill_list_shape old old' s :
  unfailing next → length old = length old' → fill_list next old s = fill_list next old' s.
Proof.
  intros Hnext. revert old' s. induction old as [|x old IH]; intros [|x' old'] s Hlen; try done.
  cbn. destruct (Hnext s) as [y Hy]. rewrite (Hy x), (Hy x'). rewrite (IH old') by (cbn in Hlen; lia).
  done.
Qed.

Lemma fill_rows_shape B B' W W' s :
  unfailing next → same_shape B B' → same_shape W W' → fill_rows next B W s = fill_rows next B' W' s.
Proof.
  intros Hnext HB. revert W W' s. induction HB as [|b b' B B' Hb HB IH]; intros W W' s HW.
  - by destruct W, W'.
  - destruct HW as [|w w' W W' Hw HW]; [done|]. cbn.
    rewrite (fill_list_shape b b') by done. rewrite (fill_list_shape w w') by done.
    by rewrite (IH W W').
Qed.

Lemma fill_layers_shape old old' s :
  unfailing next →
  Forall2 (λ bw bw' : list (list D) * list (list D),
             same_shape bw.1 bw'.1 ∧ same_shape bw.2 bw'.2) old old' →
  fill_layers next old s = fill_layers next old' s.
Proof.
  intros Hnext Hold. revert s. induction Hold as [|bw bw' old old' [HB HW] Hold IH]; intros s.
  - done.
  - cbn. rewrite (fill_rows_shape bw.1 bw'.1 bw.2 bw'.2) by done. by rewrite IH.
Qed.

End Source.


Lemma has_dims_same_shape (B B' : list (list D)) r c :
  has_dims B r c → has_dims B' r c → same_shape B B'.
Proof.
  intros [Hl Hr] [Hl' Hr']. apply Forall2_same_length_lookup. split; [lia|].
  intros i x y Hx Hy. eapply Forall_lookup_1 in Hr; [|done].
  eapply Forall_lookup_1 in Hr'; [|done]. cbn in *. lia.
Qed.

Lemma block_set_middle (Wdone Wrest : list (list D)) (rdone rrest : list D) x y :
  block_set (Wdone ++ (rdone ++ x :: rrest) :: Wrest)
            (Z.of_nat (length Wdone)) (Z.of_nat (length rdone)) y
  = Some (Wdone ++ (rdone ++ y :: rrest) :: Wrest).
Proof.
  rewrite (block_set_of_nat _ _ _ (rdone ++ x :: rrest)).
  - rewrite insert_app_r_alt, Nat.sub_diag by lia. cbn.
    by rewrite insert_app_r_alt, Nat.sub_diag by lia.
  - by rewrite lookup_app_r, Nat.sub_diag by lia.
  - rewrite length_app. cbn. lia.
Qed.

Lemma block_get_middle (Wdone Wrest : list (list D)) (rdone rrest : list D) x :
  block_get (Wdone ++ (rdone ++ x :: rrest) :: Wrest)
            (Z.of_nat (length Wdone)) (Z.of_nat (length rdone)) = Some x.
Proof.
  rewrite block_get_of_nat. rewrite lookup_app_r, Nat.sub_diag by lia. cbn.
  by rewrite lookup_app_r, Nat.sub_diag by lia.
Qed.


Lemma wp_time w Q : Q (clock w) w → wp time w Q.
Proof. intros HQ. by exists (clock w), w. Qed.

Lemma has_dims_row (B : list (list D)) r c rw :
  has_dims B r c → rw ∈ B → Z.of_nat (length rw) = c.
Proof. intros [_ HB] Hin. by eapply Forall_forall in HB. Qed.

(** [set_random_weights_biases] fills the layers in turn from [gauss0],
    seeded with the clock. *)
Lemma set_random_weights_biases_spec (net : network) (w : world) :
  net_ok w net →
  set_random_weights_biases net w
  = Done () (set_heap (fill_heap gauss_next (layer_handles net) (clock w) (heap w)).1 w).
Proof.
  intros Hok.
  cut (wp (set_random_weights_biases net) w (λ _ w',
         w' = set_heap (fill_heap gauss_next (layer_handles net) (clock w) (heap w)).1 w)).
  { by intros ([] & w' & -> & ->). }
  unfold set_random_weights_biases. apply wp_bind, wp_time. apply wp_bind.
  apply (wp_fill_layers gauss_next); [done| |by intros; apply wp_ret].
  intros k bm wm t0 t1 B W s w1 Hl Hne HB HdB HW HdW.
  pose proof Hl as [Hs0 Hs1 Hwl Hbl Hwr Hwc Hbr Hbc].
  apply wp_bind. eapply wp_lift_option.
  { replace (Z.of_nat k + 1) with (Z.of_nat (S k)) by lia. by rewrite zlookup_of_nat. }
  destruct HdB as [HlB HrB]. destruct HdW as [HlW HrW].
  rewrite <- HlB.
  apply (wp_fill_rows gauss_next (data bm) (data wm) _ B W); [done| |lia|done|done|done].
  intros Bdone Wdone brow wrow Brest Wrest s1 w2 HinB HinW Hlen HpB HpW.
  assert (∃ b, brow = [b]) as [b ->].
  { eapply Forall_forall in HrB; [|done]. destruct brow as [|b [|??]]; cbn in HrB; try lia. eauto. }
  assert (Z.of_nat (length wrow) = t0) as Hwrow by (by eapply Forall_forall in HrW).
  apply wp_bind. eapply wp_slot_get; [done|].
  apply wp_bind. eapply wp_data_set; [done|apply (block_set_middle Bdone Brest [] [] b)|].
  autorewrite with world.
  apply wp_bind. eapply wp_lift_option. { by rewrite zlookup_of_nat. }
  rewrite <- Hwrow.
  apply (wp_fill_entries gauss_next (data wm) _ Wdone Wrest).
  - intros rdone rrest x s2 w3 Hp3.
    apply wp_bind. eapply wp_slot_get; [done|].
    apply wp_bind. eapply wp_data_set; [done| |].
    { rewrite Hlen. apply block_set_middle. }
    apply wp_ret. done.
  - rewrite heap_set_heap. by rewrite lookup_insert_ne.
  - autorewrite with world. done.
Qed.

Lemma gauss_next_unfailing : unfailing gauss_next.
Proof. intros s. by exists (gauss0 s).1. Qed.

(** The storage of the layers of two well-formed networks of one schedule
    has the same shape. *)
Lemma layer_blocks_same_shape (net1 net2 : network) (w1 w2 : world) :
  net_ok w1 net1 → net_ok w2 net2 →
  n_layers net1 = n_layers net2 → net_structure net1 = net_structure net2 →
  Forall2 (λ bw bw' : list (list D) * list (list D),
             same_shape bw.1 bw'.1 ∧ same_shape bw.2 bw'.2)
    (layer_blocks (heap w1) (layer_handles net1))
    (layer_blocks (heap w2) (layer_handles net2)).
Proof.
  intros Hok1 Hok2 Hn Hns.
  pose proof (layer_handles_length w1 net1 Hok1) as Hl1.
  pose proof (layer_handles_length w2 net2 Hok2) as Hl2.
  apply Forall2_same_length_lookup. unfold layer_blocks. rewrite !length_fmap.
  split; [lia|]. intros k bw bw'. rewrite !list_lookup_fmap.
  destruct (layer_handles net1 !! k) as [[bm1 wm1]|] eqn:H1; [|done].
  destruct (layer_handles net2 !! k) as [[bm2 wm2]|] eqn:H2; [|done].
  cbn. intros [= <-] [= <-]. cbn.
  assert (k < Z.to_nat (n_layers net1 - 1))%nat as Hk.
  { apply lookup_lt_Some in H1. lia. }
  apply (layer_handles_lookup w1 net1 k bm1 wm1 Hok1) in H1 as [Hb1 Hw1].
  apply (layer_handles_lookup w2 net2 k bm2 wm2 Hok2) in H2 as [Hb2 Hw2].
  destruct Hok1 as [_ _ _ _ Hlay1 _]. destruct Hok2 as [_ _ _ _ Hlay2 _].
  destruct (Hlay1 k Hk) as (wm & bm & s0 & s1 & [] & (W1 & HW1 & HdW1) & (B1 & HB1 & HdB1)).
  assert (wm = wm1) as -> by congruence. assert (bm = bm1) as -> by congruence.
  destruct (Hlay2 k) as (wm & bm & t0 & t1 & [] & (W2 & HW2 & HdW2) & (B2 & HB2 & HdB2));
    [lia|].
  assert (wm = wm2) as -> by congruence. assert (bm = bm2) as -> by congruence.
  assert (t0 = s0) as -> by congruence. assert (t1 = s1) as -> by congruence.
  rewrite HB1, HW1, HB2, HW2. cbn. split.
  - eapply has_dims_same_shape; [exact HdB1|]. congruence.
  - eapply has_dims_same_shape; [exact HdW1|]. congruence.
Qed.

Lemma net_ok_separate (w : world) net : net_ok w net → separate (layer_handles net).
Proof.
  intros Hok. apply NoDup_separate.
  assert (Hlen : length (handles (biases net)) = length (handles (weights net))).
  { destruct (net_ok_slots w net Hok) as [Hb Hw]. destruct Hok as [? ? Hlb Hlw ? ?].
    rewrite Hb, length_fmap in Hlb. rewrite Hw, length_fmap in Hlw. lia. }
  unfold layer_handles. rewrite fst_zip, snd_zip by lia. by destruct Hok.
Qed.

(** C9, as the code has it.  The values [set_random_weights_biases] writes
    are a function of the clock reading at the call and of the schedule of
    the network: two calls on well-formed networks of one schedule, in
    worlds whose clocks read the same, leave the same values in every
    weight matrix and every bias vector.  The caller supplies no seed. *)
Theorem set_random_weights_biases_by_clock (net1 net2 : network) (w1 w2 : world) :
  net_ok w1 net1 → net_ok w2 net2 →
  n_layers net1 = n_layers net2 → net_structure net1 = net_structure net2 →
  clock w1 = clock w2 →
  ∃ w1' w2',
    set_random_weights_biases net1 w1 = Done () w1' ∧
    set_random_weights_biases net2 w2 = Done () w2' ∧
    ∀ l wm1 bm1 wm2 bm2,
      weights net1 !! l = Some (Some wm1) → biases net1 !! l = Some (Some bm1) →
      weights net2 !! l = Some (Some wm2) → biases net2 !! l = Some (Some bm2) →
      is_Some (heap w1' !! data wm1) ∧ is_Some (heap w1' !! data bm1) ∧
      heap w1' !! data wm1 = heap w2' !! data wm2 ∧
      heap w1' !! data bm1 = heap w2' !! data bm2.
Proof.
  intros Hok1 Hok2 Hn Hns Hclock.
  eexists _, _. split; [by apply set_random_weights_biases_spec|].
  split; [by apply set_random_weights_biases_spec|].
  intros l wm1 bm1 wm2 bm2 Hw1 Hb1 Hw2 Hb2. rewrite !heap_set_heap.
  pose proof (proj2 (layer_handles_lookup w1 net1 l bm1 wm1 Hok1) (conj Hb1 Hw1)) as Hl1.
  pose proof (proj2 (layer_handles_lookup w2 net2 l bm2 wm2 Hok2) (conj Hb2 Hw2)) as Hl2.
  destruct (fill_heap_layers gauss_next (layer_handles net1) (clock w1) (heap w1)
              (net_ok_separate w1 net1 Hok1)) as [_ Hfill1].
  destruct (fill_heap_layers gauss_next (layer_handles net2) (clock w2) (heap w2)
              (net_ok_separate w2 net2 Hok2)) as [_ Hfill2].
  destruct (Hfill1 l bm1 wm1 Hl1) as (nb1 & nw1 & Hk1 & HB1 & HW1).
  destruct (Hfill2 l bm2 wm2 Hl2) as (nb2 & nw2 & Hk2 & HB2 & HW2).
  rewrite HB1, HW1, HB2, HW2.
  rewrite (fill_layers_shape gauss_next _ (layer_blocks (heap w2) (layer_handles net2)))
    in Hk1; [|apply gauss_next_unfailing|by apply layer_blocks_same_shape].
  rewrite Hclock in Hk1. rewrite Hk1 in Hk2. simplify_eq. eauto.
Qed.

End Fill.

(** * Files *)

(** ** The bytes of a binary64 number

    Reading back the bytes of a number gives the number. *)

Section Binary64Bytes.
Import Stdlib.Floats.Floats Binary64.

Lemma digits2_pos_bounds (m : positive) :
  2 ^ (Z.pos (digits2_pos m) - 1) ≤ Z.pos m < 2 ^ Z.pos (digits2_pos m).
Proof.
  induction m as [m IH|m IH|]; cbn [digits2_pos]; [| |done].
  - rewrite Pos2Z.inj_succ. replace (Z.succ (Z.pos (digits2_pos m)) - 1)
      with (Z.succ (Z.pos (digits2_pos m) - 1)) by lia.
    rewrite !Z.pow_succ_r by lia. lia.
  - rewrite Pos2Z.inj_succ. replace (Z.succ (Z.pos (digits2_pos m)) - 1)
      with (Z.succ (Z.pos (digits2_pos m) - 1)) by lia.
    rewrite !Z.pow_succ_r by lia. lia.
Qed.

(** A valid finite number is normal, with a mantissa of 53 bits, or
    subnormal, with the least exponent. *)
Lemma valid_finite s m e :
  valid_binary (S754_finite s m e) = true →
  (2 ^ 52 ≤ Z.pos m < 2 ^ 53 ∧ -1074 ≤ e ≤ 971) ∨ (Z.pos m < 2 ^ 52 ∧ e = -1074).
Proof.
  unfold SpecFloat.valid_binary, bounded, canonical_mantissa, fexp, SpecFloat.emin, prec, emax.
  intros [He Hle]%andb_true_iff. apply Z.eqb_eq in He. apply Z.leb_le in Hle.
  pose proof (digits2_pos_bounds m) as [Hlo Hhi].
  set (d := Z.pos (digits2_pos m)) in *.
  assert (0 < d) by (unfold d; lia).
  destruct (decide (2 ^ 52 ≤ Z.pos m)) as [Hm|Hm].
  - left. assert (52 < d).
    { apply (Z.pow_lt_mono_r_iff 2); lia. }
    assert (d = 53) as Hd by lia. rewrite Hd in Hhi. lia.
  - right. assert (d - 1 < 52).
    { apply (Z.pow_lt_mono_r_iff 2); lia. }
    lia.
Qed.

Lemma SF_of_bits_of_SF (x : spec_float) :
  valid_binary x = true → SF_of_bits (bits_of_SF x) = x.
Proof.
  destruct x as [s|s| |s m e]; intros Hv.
  - by destruct s.
  - by destruct s.
  - done.
  - apply valid_finite in Hv. unfold bits_of_SF, SF_of_bits, sign_bit.
    change (2 ^ 64) with 18446744073709551616. change (2 ^ 63) with 9223372036854775808.
    change (2 ^ 53) with 9007199254740992 in *.
    change (2 ^ 52) with 4503599627370496 in *. change (2 ^ 11) with 2048.
    set (S := if s then 9223372036854775808 else 0).
    assert (HS : S = 0 ∧ s = false ∨ S = 9223372036854775808 ∧ s = true)
      by (destruct s; auto).
    clearbody S.
    destruct Hv as [[Hm He]|[Hm ->]].
    + destruct (decide (4503599627370496 ≤ Z.pos m)) as [_|?]; [|lia].
      set (b := S + ((e + 1075) * 4503599627370496 + (Z.pos m - 4503599627370496))).
      pose proof (Z.div_mod b 4503599627370496 ltac:(lia)) as H0.
      pose proof (Z.mod_pos_bound b 4503599627370496 ltac:(lia)) as B0.
      pose proof (Z.div_mod (b `div` 4503599627370496) 2048 ltac:(lia)) as H1.
      pose proof (Z.mod_pos_bound (b `div` 4503599627370496) 2048 ltac:(lia)) as B1.
      pose proof (Z.mod_small b 18446744073709551616 ltac:(unfold b; lia)) as H2.
      assert (b `mod` 4503599627370496 = Z.pos m - 4503599627370496) as -> by (unfold b in *; lia).
      assert ((b `div` 4503599627370496) `mod` 2048 = e + 1075) as -> by (unfold b in *; lia).
      rewrite H2. rewrite decide_False by lia. rewrite decide_False by lia.
      replace (Z.pos m - 4503599627370496 + 4503599627370496) with (Z.pos m) by lia.
      replace (e + 1075 - 1075) with e by lia.
      f_equal. destruct HS as [[-> ->]|[-> ->]].
      * apply bool_decide_eq_false. unfold b. lia.
      * apply bool_decide_eq_true. unfold b. lia.
    + destruct (decide (4503599627370496 ≤ Z.pos m)) as [?|_]; [lia|].
      set (b := S + Z.pos m).
      pose proof (Z.div_mod b 4503599627370496 ltac:(lia)) as H0.
      pose proof (Z.mod_pos_bound b 4503599627370496 ltac:(lia)) as B0.
      pose proof (Z.div_mod (b `div` 4503599627370496) 2048 ltac:(lia)) as H1.
      pose proof (Z.mod_pos_bound (b `div` 4503599627370496) 2048 ltac:(lia)) as B1.
      pose proof (Z.mod_small b 18446744073709551616 ltac:(unfold b; lia)) as H2.
      assert (b `mod` 4503599627370496 = Z.pos m) as -> by (unfold b in *; lia).
      assert ((b `div` 4503599627370496) `mod` 2048 = 0) as -> by (unfold b in *; lia).
      rewrite H2. rewrite decide_True by lia.
      f_equal. destruct HS as [[-> ->]|[-> ->]].
      * apply bool_decide_eq_false. unfold b. lia.
      * apply bool_decide_eq_true. unfold b. lia.
Qed.

Lemma bits_of_SF_range (x : spec_float) :
  valid_binary x = true → 0 ≤ bits_of_SF x < 2 ^ 64.
Proof.
  destruct x as [s|s| |s m e]; intros Hv.
  - by destruct s.
  - by destruct s.
  - done.
  - apply valid_finite in Hv. unfold bits_of_SF, sign_bit.
    change (2 ^ 64) with 18446744073709551616. change (2 ^ 63) with 9223372036854775808.
    change (2 ^ 53) with 9007199254740992 in *.
    change (2 ^ 52) with 4503599627370496 in *.
    destruct s; case_decide; lia.
Qed.

Lemma of_le_bytes_from (n k0 : nat) (z : Z) :
  of_le_bytes ((λ k, (z `div` 2 ^ (8 * Z.of_nat k)) `mod` 256) <$> seq k0 n)
  = (z `div` 2 ^ (8 * Z.of_nat k0)) `mod` 2 ^ (8 * Z.of_nat n).
Proof.
  revert k0. induction n as [|n IH]; intros k0.
  - cbn. by rewrite Z.mod_1_r.
  - cbn [seq fmap list_fmap of_le_bytes foldr]. fold (of_le_bytes).
    change (list_fmap nat Z ?f ?l) with (f <$> l).
    unfold of_le_bytes in IH. rewrite IH.
    replace (8 * Z.of_nat (S n)) with (8 + 8 * Z.of_nat n) by lia.
    replace (8 * Z.of_nat (S k0)) with (8 * Z.of_nat k0 + 8) by lia.
    rewrite !Z.pow_add_r by lia. change (2 ^ 8) with 256.
    rewrite <- Z.div_div by lia.
    rewrite Z.rem_mul_r by lia. done.
Qed.

Lemma of_le_bytes_le_bytes (n : nat) (z : Z) :
  0 ≤ z < 2 ^ (8 * Z.of_nat n) → of_le_bytes (le_bytes n z) = z.
Proof.
  intros Hz. unfold le_bytes. rewrite of_le_bytes_from. cbn. rewrite Z.div_1_r.
  by apply Z.mod_small.
Qed.

Lemma bytes_length (x : float) : length (bytes x) = 8%nat.
Proof. done. Qed.

Lemma of_bytes_bytes (x : float) : of_bytes (bytes x) = x.
Proof.
  unfold of_bytes, bytes. rewrite of_le_bytes_le_bytes.
  - rewrite SF_of_bits_of_SF by apply Prim2SF_valid. apply SF2Prim_Prim2SF.
  - apply (bits_of_SF_range _ (Prim2SF_valid x)).
Qed.

End Binary64Bytes.

#[global] Instance binary64_repr : DoubleRepr PrimFloat.float := {
  d_bytes := Binary64.bytes;
  d_of_bytes := Binary64.of_bytes;
  d_partial := Binary64.partial;
  d_bytes_length := bytes_length;
  d_of_bytes_bytes := of_bytes_bytes
}.

(** ** Saving and loading *)

Section Codec.
Context {D : Type} `{DblOps : Double D} `{DblRepr : DoubleRepr D} `{Smp : Sampler D}.

Lemma int_bytes_length z : length (int_bytes z) = 4%nat.
Proof. done. Qed.

Lemma int_of_bytes_bytes z : in_int z → int_of_bytes (int_bytes z) = z.
Proof.
  unfold in_int, INT_MIN, INT_MAX, int_of_bytes, int_bytes. intros Hz. cbn.
  change (2 ^ (8 * Z.of_nat 0)) with 1. change (2 ^ (8 * Z.of_nat 1)) with 256.
  change (2 ^ (8 * Z.of_nat 2)) with (256 * 256).
  change (2 ^ (8 * Z.of_nat 3)) with (256 * 256 * 256). change (2 ^ 31) with 2147483648.
  change (2 ^ 32) with 4294967296.
  rewrite Z.div_1_r. rewrite <- !Z.div_div by lia.
  pose proof (Z.div_mod z 256 ltac:(lia)) as H0.
  pose proof (Z.mod_pos_bound z 256 ltac:(lia)) as B0.
  pose proof (Z.div_mod (z `div` 256) 256 ltac:(lia)) as H1.
  pose proof (Z.mod_pos_bound (z `div` 256) 256 ltac:(lia)) as B1.
  pose proof (Z.div_mod (Z.div (Z.div z 256) 256) 256 ltac:(lia)) as H2.
  pose proof (Z.mod_pos_bound (Z.div (Z.div z 256) 256) 256 ltac:(lia)) as B2.
  pose proof (Z.div_mod (Z.div (Z.div (Z.div z 256) 256) 256) 256 ltac:(lia)) as H3.
  pose proof (Z.mod_pos_bound (Z.div (Z.div (Z.div z 256) 256) 256) 256 ltac:(lia)) as B3.
  case_decide; lia.
Qed.

Lemma fread_item_app {A} (size : nat) (decode : list Z → A) (bs rest : list Z) :
  length bs = size → fread_item size decode (bs ++ rest) = (Some (decode bs), rest).
Proof.
  intros Hlen. unfold fread_item. rewrite decide_True by (rewrite length_app; lia).
  by rewrite take_app_length', drop_app_length'.
Qed.

Lemma fread_int_bytes z rest :
  in_int z → fread_item 4 int_of_bytes (int_bytes z ++ rest) = (Some z, rest).
Proof. intros Hz. rewrite fread_item_app by done. by rewrite int_of_bytes_bytes. Qed.

Lemma mjoin_cons {A} (x : list A) (l : list (list A)) : mjoin (x :: l) = x ++ mjoin l.
Proof. done. Qed.

Lemma fread_ints_bytes (ns : list Z) rest :
  Forall in_int ns →
  fread_ints (length ns) (mjoin (int_bytes <$> ns) ++ rest) = Some (ns, rest).
Proof.
  induction 1 as [|z ns Hz Hns IH]; [done|].
  rewrite fmap_cons, mjoin_cons, <- app_assoc. cbn [length fread_ints].
  rewrite fread_int_bytes by done. by rewrite IH.
Qed.

Lemma fread_next_bytes (x : D) rest : fread_next (d_bytes x ++ rest) = (λ _, x, rest).
Proof.
  unfold fread_next. pose proof (d_bytes_length x) as Hlen.
  rewrite decide_True by (rewrite length_app; lia).
  rewrite take_app_length', drop_app_length' by done. by rewrite d_of_bytes_bytes.
Qed.

Lemma fill_list_encoded (old row : list D) rest :
  length old = length row →
  fill_list fread_next old (encode_list row ++ rest) = (row, rest).
Proof.
  revert row. induction old as [|x old IH]; intros [|y row] Hlen; try done.
  unfold encode_list. rewrite fmap_cons, mjoin_cons, <- app_assoc. cbn [fill_list].
  rewrite fread_next_bytes. cbn [fst snd]. fold (encode_list row).
  rewrite IH by (cbn in Hlen; lia). done.
Qed.

Lemma fill_rows_encoded (B' W' B W : list (list D)) rest :
  same_shape B' B → same_shape W' W → length B = length W →
  fill_rows fread_next B' W' (encode_rows B W ++ rest) = ((B, W), rest).
Proof.
  intros HB. revert W' W. induction HB as [|b' b B' B Hb HB IH]; intros W' W HW Hlen.
  - destruct HW; [done|cbn in Hlen; lia].
  - destruct HW as [|w' w W' W Hw HW]; [cbn in Hlen; lia|].
    unfold encode_rows. cbn [zip_with]. rewrite fmap_cons, mjoin_cons, <- !app_assoc.
    cbn [fill_rows fst snd].
    rewrite fill_list_encoded by done. cbn [fst snd].
    rewrite fill_list_encoded by done. cbn [fst snd].
    fold (encode_rows B W). rewrite (IH W' W) by (cbn in Hlen; lia || done). done.
Qed.

Lemma fill_layers_encoded (L' L : list (list (list D) * list (list D))) rest :
  Forall2 (λ bw' bw : list (list D) * list (list D),
             same_shape bw'.1 bw.1 ∧ same_shape bw'.2 bw.2) L' L →
  Forall (λ bw : list (list D) * list (list D), length bw.1 = length bw.2) L →
  fill_layers fread_next L' (encode_layers L ++ rest) = (L, rest).
Proof.
  intros HL. induction HL as [|bw' bw L' L [HB HW] HL IH]; intros Hlen; [done|].
  apply Forall_cons in Hlen as [Hbw Hlen].
  unfold encode_layers. rewrite fmap_cons, mjoin_cons, <- app_assoc. cbn [fill_layers].
  rewrite fill_rows_encoded by done. cbn [fst snd]. fold (encode_layers L).
  rewrite IH by done. by destruct bw.
Qed.

(** *** Writing *)

Lemma mjoin_snoc {A} (l : list (list A)) (x : list A) : mjoin (l ++ [x]) = mjoin l ++ x.
Proof.
  induction l as [|y l IH]; [apply app_nil_r|].
  rewrite <- app_comm_cons, !mjoin_cons, IH. apply app_assoc.
Qed.

(** A loop that reads the items [xs] in turn, appends the bytes of each to
    the stream and leaves the world as it is. *)
Lemma wp_emit {A} (enc : A → list Z) (xs : list A) hi (body : Z → list Z → M (list Z))
    (w : world) s Q :
  Z.to_nat hi = length xs →
  (∀ k x s, xs !! k = Some x →
     wp (body (Z.of_nat k) s) w (λ s' w', s' = s ++ enc x ∧ w' = w)) →
  Q (s ++ mjoin (enc <$> xs)) w →
  wp (for_fold 0 hi body s) w Q.
Proof.
  intros Hhi Hbody HQ.
  apply (wp_for_fold (λ k s' w', s' = s ++ mjoin (enc <$> take k xs) ∧ w' = w)).
  - split; [|done]. cbn. by rewrite app_nil_r.
  - intros k s1 w1 Hk [-> ->]. rewrite Z.add_0_l.
    destruct (lookup_lt_is_Some_2 xs k) as [x Hx]; [lia|].
    eapply wp_mono; [by apply Hbody|]. intros s' w' [-> ->]. split; [|done].
    rewrite (take_S_r _ _ x) by done. rewrite fmap_app. change (enc <$> [x]) with [enc x].
    by rewrite mjoin_snoc, !app_assoc.
  - intros s1 w1 [-> ->]. rewrite Z.sub_0_r, Hhi, firstn_all. done.
Qed.

(** [save_network] writes the image of the network and touches nothing
    else. *)
Lemma save_network_spec (net : network) (f : string) (w : world) :
  net_ok w net →
  save_network net f w =
    Done () (with_files (insert f (file_image (n_layers net) (net_structure net)
                                     (layer_blocks (heap w) (layer_handles net)))) w).
Proof.
  intros Hok.
  cut (wp (save_network net f) w (λ _ w',
         w' = with_files (insert f (file_image (n_layers net) (net_structure net)
                                      (layer_blocks (heap w) (layer_handles net)))) w)).
  { by intros ([] & w' & -> & ->). }
  pose proof Hok as [Hns Hsz Hlb Hlw Hlay Hsep].
  unfold save_network. apply wp_bind. unfold copy_array_int.
  rewrite decide_True by lia. apply wp_ret.
  rewrite firstn_all2 by lia. apply wp_bind.
  apply (wp_emit (λ bw : list (list D) * list (list D), encode_rows bw.1 bw.2)
                 (layer_blocks (heap w) (layer_handles net))).
  { unfold layer_blocks. rewrite length_fmap. by rewrite (layer_handles_length w). }
  - intros k [B W] s Hk. unfold layer_blocks in Hk. rewrite list_lookup_fmap in Hk.
    destruct (layer_handles net !! k) as [[bm wm]|] eqn:Hh; [|done].
    cbn in Hk. injection Hk as HB HW.
    assert (k < Z.to_nat (n_layers net - 1))%nat as Hkn.
    { apply lookup_lt_Some in Hh. rewrite (layer_handles_length w) in Hh; done. }
    apply (layer_handles_lookup w net k bm wm Hok) in Hh as [Hbk Hwk].
    destruct (Hlay k Hkn) as (wm' & bm' & t0 & t1 & [] & (W' & HpW & HdW) & (B' & HpB & HdB)).
    assert (wm' = wm) as -> by congruence. assert (bm' = bm) as -> by congruence.
    rewrite HpB in HB. rewrite HpW in HW. cbn in HB, HW. subst B' W'.
    apply wp_bind. eapply wp_lift_option.
    { replace (Z.of_nat k + 1) with (Z.of_nat (S k)) by lia. by rewrite zlookup_of_nat. }
    apply wp_bind. eapply wp_lift_option. { by rewrite zlookup_of_nat. }
    destruct HdB as [HlB HrB]. destruct HdW as [HlW HrW].
    apply (wp_emit (λ bw : list D * list D, encode_list bw.1 ++ encode_list bw.2) (zip B W)).
    { rewrite length_zip. lia. }
    + intros i [brow wrow] s1 [Hbi Hwi]%lookup_zip_Some. cbn in Hbi, Hwi.
      assert (∃ b, brow = [b]) as [b ->].
      { eapply Forall_lookup_1 in HrB; [|done]. destruct brow as [|b [|??]]; cbn in HrB; try lia.
        eauto. }
      eapply Forall_lookup_1 in HrW; [|done]. cbn in HrW.
      apply wp_bind. eapply wp_slot_get; [done|].
      apply wp_bind. eapply wp_data_get; [done| |].
      { change 0 with (Z.of_nat 0). rewrite block_get_of_nat, Hbi. done. }
      apply (wp_emit d_bytes wrow).
      { lia. }
      * intros j x s2 Hj. apply wp_bind. eapply wp_slot_get; [done|].
        apply wp_bind. eapply wp_data_get; [done| |].
        { rewrite block_get_of_nat, Hwi. done. }
        by apply wp_ret.
      * split; [|done]. cbn [fst snd]. unfold encode_list at 1. cbn.
        by rewrite app_nil_r, <- !app_assoc.
    + done.
  - unfold fclose_wb. eexists _, _. split; [done|]. unfold file_image, encode_layers.
    cbn [app]. by rewrite <- !app_assoc.
Qed.

(** *** Reading *)

Lemma wp_fopen_rb f bs w Q : files w !! f = Some bs → Q bs w → wp (fopen_rb f) w Q.
Proof. intros Hf HQ. exists bs, w. unfold fopen_rb. by rewrite Hf. Qed.

(** One [fread] of a [double] into an entry: the entry becomes what
    [fread_next] makes of it. *)
Lemma wp_fread_double_into (m : matrix_double) (Wdone Wrest : list (list D))
    (rdone rrest : list D) x ptr w Q :
  heap w !! data m = Some (Wdone ++ (rdone ++ x :: rrest) :: Wrest) →
  Q (fread_next ptr).2
    (set_heap (<[data m := Wdone ++ (rdone ++ (fread_next ptr).1 x :: rrest) :: Wrest]>
                 (heap w)) w) →
  wp (fread_double_into m (Z.of_nat (length Wdone)) (Z.of_nat (length rdone)) ptr) w Q.
Proof.
  intros Hp HQ. unfold fread_double_into, data_addr.
  apply wp_bind, wp_bind. eapply wp_data_get; [done|apply block_get_middle|].
  apply wp_ret. apply wp_bind. unfold fread_next in HQ. cbn [fst snd] in HQ.
  destruct (decide (8 ≤ length ptr)%nat) as [Hlen|Hlen].
  - eapply wp_data_set; [done|apply block_set_middle|]. by apply wp_ret.
  - destruct (decide (ptr = [])) as [->|Hne].
    + apply wp_ret, wp_ret. by rewrite insert_id, set_heap_id in HQ.
    + apply wp_bind. eapply wp_data_get; [done|apply block_get_middle|].
      eapply wp_data_set; [done|apply block_set_middle|]. by apply wp_ret.
Qed.

(** [load_network] on a file that starts with a header: it builds the
    network the header declares, then fills the parameters in turn from
    what follows the header, as far as that goes. *)
Lemma load_network_spec (f : string) (w : world) (n : Z) (ns body : list Z) :
  files w !! f = Some (int_bytes n ++ mjoin (int_bytes <$> ns) ++ body) →
  in_int n → Forall in_int ns → Z.of_nat (length ns) = n → Forall (λ s, 0 ≤ s) ns →
  ∃ net w0,
    create_network n ns w = Done net w0 ∧ net_ok w0 net ∧
    n_layers net = n ∧ net_structure net = ns ∧
    load_network f w
    = Done net (set_heap (fill_heap fread_next (layer_handles net) body (heap w0)).1 w0).
Proof.
  intros Hf Hn Hns Hlen Hpos.
  destruct (create_network_spec n ns w) as (net & w0 & Hrun & bms & wms & -> & Hc).
  { lia. }
  { by apply Forall_take. }
  rewrite firstn_all2 in * by lia.
  pose proof (created_net_ok n ns w w0 bms wms Hlen Hpos Hc) as Hok.
  set (net := Network n (Some <$> bms) (Some <$> wms) ns) in *.
  exists net, w0. split; [done|]. split; [done|]. split; [done|]. split; [done|].
  cut (wp (load_network f) w (λ net' w',
         net' = net ∧
         w' = set_heap (fill_heap fread_next (layer_handles net) body (heap w0)).1 w0)).
  { by intros (net' & w' & -> & -> & ->). }
  unfold load_network. apply wp_bind. eapply wp_fopen_rb; [done|]. cbv zeta.
  rewrite fread_int_bytes by done. cbn [fst snd].
  apply wp_bind. eapply wp_lift_option; [done|].
  replace (Z.to_nat n) with (length ns) by lia. rewrite fread_ints_bytes by done.
  apply wp_bind. eapply wp_lift_option; [done|]. cbn [fst snd].
  apply wp_bind. exists net, w0. split; [done|].
  apply wp_bind.
  apply (wp_fill_layers fread_next net); [done| |by intros; apply wp_ret].
  intros k bm wm t0 t1 B W s w1 Hl Hne HB HdB HW HdW.
  pose proof Hl as [Hs0 Hs1 Hwl Hbl Hwr Hwc Hbr Hbc]. cbn [net_structure net] in Hs0, Hs1.
  apply wp_bind. eapply wp_lift_option.
  { replace (Z.of_nat k + 1) with (Z.of_nat (S k)) by lia. by rewrite zlookup_of_nat. }
  apply wp_bind. eapply wp_lift_option. { by rewrite zlookup_of_nat. }
  destruct HdB as [HlB HrB]. destruct HdW as [HlW HrW].
  rewrite <- HlB.
  apply (wp_fill_rows fread_next (data bm) (data wm) _ B W); [done| |lia|done|done|done].
  intros Bdone Wdone brow wrow Brest Wrest s1 w2 HinB HinW Hlen' HpB HpW.
  assert (∃ b, brow = [b]) as [b ->].
  { eapply Forall_forall in HrB; [|done]. destruct brow as [|b [|??]]; cbn in HrB; try lia. eauto. }
  assert (Z.of_nat (length wrow) = t0) as Hwrow by (by eapply Forall_forall in HrW).
  apply wp_bind. eapply wp_slot_get; [done|].
  apply wp_bind. apply (wp_fread_double_into bm Bdone Brest [] [] b); [done|].
  rewrite <- Hwrow.
  apply (wp_fill_entries fread_next (data wm) _ Wdone Wrest).
  - intros rdone rrest x s2 w3 Hp3.
    apply wp_bind. eapply wp_slot_get; [done|].
    rewrite Hlen'. by apply (wp_fread_double_into wm Wdone Wrest rdone rrest x).
  - rewrite heap_set_heap. by rewrite lookup_insert_ne.
  - autorewrite with world. done.
Qed.

(** The bias vector and the weight matrix of a layer have as many rows. *)
Lemma layer_blocks_rows (net : network) (w : world) :
  net_ok w net →
  Forall (λ bw : list (list D) * list (list D), length bw.1 = length bw.2)
    (layer_blocks (heap w) (layer_handles net)).
Proof.
  intros Hok. apply Forall_lookup. intros k [B W] Hk.
  unfold layer_blocks in Hk. rewrite list_lookup_fmap in Hk.
  destruct (layer_handles net !! k) as [[bm wm]|] eqn:Hh; [|done].
  cbn in Hk. injection Hk as HB HW.
  assert (k < Z.to_nat (n_layers net - 1))%nat as Hkn.
  { apply lookup_lt_Some in Hh. rewrite (layer_handles_length w) in Hh; done. }
  apply (layer_handles_lookup w net k bm wm Hok) in Hh as [Hbk Hwk].
  destruct Hok as [_ _ _ _ Hlay _].
  destruct (Hlay k Hkn) as (wm' & bm' & t0 & t1 & [] & (W' & HpW & [HlW _]) & (B' & HpB & [HlB _])).
  assert (wm' = wm) as -> by congruence. assert (bm' = bm) as -> by congruence.
  rewrite HpB in HB. rewrite HpW in HW. cbn in *. subst. lia.
Qed.

(** C2.  [load_network] on the file [save_network] wrote gives a network
    with the layer count and the layer sizes of the original, and for
    every layer a weight matrix and a bias vector of the dimensions of the
    original's that hold the very values the original's held: each
    [double] read back is the one whose bytes were written. *)
Theorem load_save_round_trip (net : network) (f : string) (w : world) :
  net_ok w net → in_int (n_layers net) → Forall in_int (net_structure net) →
  ∃ w1 net' w2,
    save_network net f w = Done () w1 ∧
    load_network f w1 = Done net' w2 ∧
    n_layers net' = n_layers net ∧
    net_structure net' = net_structure net ∧
    ∀ l : nat, (l < Z.to_nat (n_layers net - 1))%nat →
      ∃ wm bm wm' bm' W B,
        weights net !! l = Some (Some wm) ∧ biases net !! l = Some (Some bm) ∧
        weights net' !! l = Some (Some wm') ∧ biases net' !! l = Some (Some bm') ∧
        nrows wm' = nrows wm ∧ ncols wm' = ncols wm ∧
        nrows bm' = nrows bm ∧ ncols bm' = ncols bm ∧
        heap w !! data wm = Some W ∧ heap w2 !! data wm' = Some W ∧
        heap w !! data bm = Some B ∧ heap w2 !! data bm' = Some B.
Proof.
  intros Hok Hn Hns.
  set (L := layer_blocks (heap w) (layer_handles net)).
  set (w1 := with_files (insert f (file_image (n_layers net) (net_structure net) L)) w).
  destruct (load_network_spec f w1 (n_layers net) (net_structure net) (encode_layers L))
    as (net' & w0 & Hcreate & Hok0 & Hn' & Hns' & Hload);
    [apply lookup_insert_eq|done|done|by destruct Hok|by destruct Hok|].
  exists w1, net', (set_heap (fill_heap fread_next (layer_handles net') (encode_layers L)
                               (heap w0)).1 w0).
  split; [by apply save_network_spec|]. split; [done|]. split; [done|]. split; [done|].
  intros l Hl.
  destruct (ok_layers w net Hok l Hl)
    as (wm & bm & s0 & s1 & [] & (W & HpW & HdW) & (B & HpB & HdB)).
  destruct (ok_layers w0 net' Hok0 l) as (wm' & bm' & t0 & t1 & [] & _); [lia|].
  exists wm, bm, wm', bm', W, B.
  assert (t0 = s0) as -> by congruence. assert (t1 = s1) as -> by congruence.
  do 4 (split; [done|]). do 4 (split; [congruence|]).
  rewrite heap_set_heap.
  destruct (fill_heap_layers fread_next (layer_handles net') (encode_layers L) (heap w0)
              (net_ok_separate w0 net' Hok0)) as [_ Hfill].
  destruct (Hfill l bm' wm') as (nb & nw & Hk & HB' & HW').
  { by apply (layer_handles_lookup w0 net' l bm' wm' Hok0). }
  rewrite <- (app_nil_r (encode_layers L)) in Hk.
  rewrite fill_layers_encoded in Hk.
  - cbn [fst] in Hk. unfold L, layer_blocks in Hk. rewrite list_lookup_fmap in Hk.
    rewrite (proj2 (layer_handles_lookup w net l bm wm Hok)) in Hk by done.
    cbn in Hk. rewrite HpB, HpW in Hk. cbn in Hk. by simplify_eq.
  - by apply layer_blocks_same_shape.
  - by apply layer_blocks_rows.
Qed.

(** C8, as the code has it.  [load_network] checks no [fread]: on a file
    whose header is complete, whatever follows the header, however short,
    it returns, and the result is a network of the layer count and the
    layer sizes the header declares.  Its parameters are what
    [create_network] allocated, filled in the order of the file from what
    follows the header: an entry for which 8 bytes are left is the
    [double] they are, an entry inside which the stream ends is
    indeterminate, and the entries after the end of the stream hold what
    [create_network] left there. *)
Theorem load_network_truncated (f : string) (w : world) (n : Z) (ns body : list Z) :
  files w !! f = Some (int_bytes n ++ mjoin (int_bytes <$> ns) ++ body) →
  in_int n → Forall in_int ns → Z.of_nat (length ns) = n → Forall (λ s, 0 ≤ s) ns →
  ∃ net w',
    load_network f w = Done net w' ∧ n_layers net = n ∧ net_structure net = ns ∧
    ∃ w0, create_network n ns w = Done net w0 ∧
      heap w' = (fill_heap fread_next (layer_handles net) body (heap w0)).1.
Proof.
  intros Hf Hn Hns Hlen Hpos.
  destruct (load_network_spec f w n ns body Hf Hn Hns Hlen Hpos)
    as (net & w0 & Hcreate & Hok0 & Hn' & Hns' & Hload).
  exists net. eexists. split; [done|]. split; [done|]. split; [done|].
  exists w0. by split.
Qed.

End Codec.
(** ** The range of the sigmoid on binary64 numbers *)

Section Rounding64.
Import Stdlib.Floats.Floats Binary64.

(** The exponent of the last place of a number of magnitude [2^e]. *)
Lemma fexp_eq (e : Z) : fexp prec emax e = Z.max (e - 53) (-1074).
Proof. reflexivity. Qed.

Lemma Zdigits2_bounds (m : Z) :
  0 < m → 2 ^ (Zdigits2 m - 1) ≤ m < 2 ^ Zdigits2 m.
Proof. destruct m as [|p|p]; [lia| |lia]. intros _. apply digits2_pos_bounds. Qed.

Lemma Zdigits2_nonneg (m : Z) : 0 ≤ Zdigits2 m.
Proof. by destruct m. Qed.

Lemma Zdigits2_le (m k : Z) : 0 ≤ k → 0 ≤ m < 2 ^ k → Zdigits2 m ≤ k.
Proof.
  intros Hk [Hm Hlt]. destruct (decide (m = 0)) as [->|Hne]; [done|].
  destruct (Zdigits2_bounds m) as [Hlo _]; [lia|].
  assert (Zdigits2 m - 1 < k); [|lia].
  apply (Z.pow_lt_mono_r_iff 2); lia.
Qed.

Lemma Zdigits2_ge (m k : Z) : 0 ≤ k → 2 ^ k ≤ m → k + 1 ≤ Zdigits2 m.
Proof.
  intros Hk Hm. assert (0 < m) as Hpos by (pose proof (Z.pow_pos_nonneg 2 k); lia).
  destruct (Zdigits2_bounds m Hpos) as [_ Hhi]. pose proof (Zdigits2_nonneg m).
  assert (k < Zdigits2 m); [|lia].
  apply (Z.pow_lt_mono_r_iff 2); lia.
Qed.

(** A shift to the right by one place halves the mantissa. *)
Lemma shr_1_m (mrs : shr_record) : 0 ≤ shr_m mrs → shr_m (shr_1 mrs) = shr_m mrs `div` 2.
Proof.
  destruct mrs as [m r s]. cbn [shr_m]. intros Hm.
  destruct m as [|[p|p|]|p]; [done| | |done|lia]; cbn [shr_1 shr_m].
  - rewrite Pos2Z.inj_xI. apply (Z.div_unique _ 2 _ 1); lia.
  - rewrite Pos2Z.inj_xO. apply (Z.div_unique _ 2 _ 0); lia.
Qed.

Lemma pow2_xO (p : positive) : 2 ^ Z.pos p~0 = 2 ^ Z.pos p * 2 ^ Z.pos p.
Proof. rewrite (Pos2Z.inj_xO p), <- Z.add_diag. apply Z.pow_add_r; lia. Qed.

Lemma pow2_xI (p : positive) : 2 ^ Z.pos p~1 = 2 * (2 ^ Z.pos p * 2 ^ Z.pos p).
Proof.
  rewrite (Pos2Z.inj_xI p), <- Z.add_diag, Z.add_comm.
  rewrite Z.pow_add_r, Z.pow_1_r by lia. f_equal. apply Z.pow_add_r; lia.
Qed.

Lemma iter_shr_1_m (p : positive) (mrs : shr_record) :
  0 ≤ shr_m mrs → shr_m (iter_pos shr_1 p mrs) = shr_m mrs `div` 2 ^ Z.pos p.
Proof.
  revert mrs. induction p as [p IH|p IH|]; intros mrs Hm; cbn [iter_pos].
  - assert (0 ≤ shr_m (shr_1 mrs)) as H1.
    { rewrite shr_1_m by done. apply Z.div_pos; lia. }
    assert (0 ≤ shr_m (iter_pos shr_1 p (shr_1 mrs))) as H2.
    { rewrite IH by done. apply Z.div_pos; [done|]. apply Z.pow_pos_nonneg; lia. }
    rewrite IH, IH, shr_1_m by done.
    pose proof (Z.pow_pos_nonneg 2 (Z.pos p)) as Hp.
    rewrite !Z.div_div by lia. f_equal. rewrite pow2_xI. lia.
  - assert (0 ≤ shr_m (iter_pos shr_1 p mrs)) as H2.
    { rewrite IH by done. apply Z.div_pos; [done|]. apply Z.pow_pos_nonneg; lia. }
    rewrite IH, IH by done.
    pose proof (Z.pow_pos_nonneg 2 (Z.pos p)) as Hp.
    rewrite !Z.div_div by lia. f_equal. by rewrite pow2_xO.
  - rewrite shr_1_m by done. done.
Qed.

Lemma shr_record_of_loc_m (m : Z) (l : location) : shr_m (shr_record_of_loc m l) = m.
Proof. by destruct l as [|[]]. Qed.

(** The shift that brings a mantissa to the exponent of the last place:
    the exponent after it, and the mantissa. *)
Lemma shr_fexp_spec (m e : Z) (l : location) :
  0 ≤ m →
  ∃ mrs, shr_fexp prec emax m e l = (mrs, Z.max e (fexp prec emax (Zdigits2 m + e))) ∧
         shr_m mrs = m `div` 2 ^ (Z.max e (fexp prec emax (Zdigits2 m + e)) - e).
Proof.
  intros Hm. unfold shr_fexp, shr. set (f := fexp prec emax (Zdigits2 m + e)).
  destruct (f - e) as [|p|p] eqn:Hd.
  - eexists. split; [f_equal; lia|]. rewrite shr_record_of_loc_m.
    replace (e `max` f - e) with 0 by lia. by rewrite Z.div_1_r.
  - eexists. split; [f_equal; lia|].
    rewrite iter_shr_1_m by (by rewrite shr_record_of_loc_m).
    rewrite shr_record_of_loc_m. do 2 f_equal. lia.
  - eexists. split; [f_equal; lia|]. rewrite shr_record_of_loc_m.
    replace (e `max` f - e) with 0 by lia. by rewrite Z.div_1_r.
Qed.

Lemma round_nearest_even_bounds (m : Z) (l : location) :
  m ≤ round_nearest_even m l ≤ m + 1.
Proof. destruct l as [|[]]; cbn; [lia| |lia|lia]. destruct (Z.even m); lia. Qed.

(** What [binary_round_aux] returns on a mantissa that is not negative:
    the mantissa is shifted to the exponent of its last place, goes up by
    one or stays, and is shifted again if that gave it one bit more. *)
Lemma binary_round_aux_spec (sx : bool) (mx ex : Z) (lx : location) :
  0 ≤ mx →
  ∃ m1 e1 e2,
    e1 = Z.max ex (fexp prec emax (Zdigits2 mx + ex)) ∧
    mx `div` 2 ^ (e1 - ex) ≤ m1 ≤ mx `div` 2 ^ (e1 - ex) + 1 ∧
    e2 = Z.max e1 (fexp prec emax (Zdigits2 m1 + e1)) ∧
    binary_round_aux prec emax sx mx ex lx =
      match m1 `div` 2 ^ (e2 - e1) with
      | 0 => S754_zero sx
      | Z.pos m => if e2 <=? emax - prec then S754_finite sx m e2 else S754_infinity sx
      | Z.neg _ => S754_nan
      end.
Proof.
  intros Hm. unfold binary_round_aux.
  destruct (shr_fexp_spec mx ex lx Hm) as (mrs1 & -> & Hm1).
  set (e1 := Z.max ex (fexp prec emax (Zdigits2 mx + ex))) in *.
  set (m1 := round_nearest_even (shr_m mrs1) (loc_of_shr_record mrs1)).
  pose proof (round_nearest_even_bounds (shr_m mrs1) (loc_of_shr_record mrs1)) as Hr.
  fold m1 in Hr. rewrite Hm1 in Hr.
  assert (0 ≤ m1) as Hm1pos.
  { assert (0 ≤ mx `div` 2 ^ (e1 - ex)); [|lia].
    apply Z.div_pos; [done|]. apply Z.pow_pos_nonneg; [lia|]. unfold e1. lia. }
  destruct (shr_fexp_spec m1 e1 loc_Exact Hm1pos) as (mrs2 & -> & Hm2).
  exists m1, e1, (Z.max e1 (fexp prec emax (Zdigits2 m1 + e1))).
  split; [done|]. split; [done|]. split; [done|]. by rewrite Hm2.
Qed.

(** Rounding a number below 1: the result is at most 1. *)
Lemma binary_round_aux_small (mx ex : Z) (lx : location) :
  0 ≤ mx < 2 ^ (- ex) → ex ≤ -53 →
  binary_round_aux prec emax false mx ex lx = S754_zero false ∨
  ∃ m e, binary_round_aux prec emax false mx ex lx = S754_finite false m e ∧
         e ≤ -52 ∧ Z.pos m ≤ 2 ^ (- e).
Proof.
  intros [Hm Hlt] Hex.
  destruct (binary_round_aux_spec false mx ex lx Hm) as (m1 & e1 & e2 & He1 & Hm1 & He2 & ->).
  rewrite fexp_eq in He1, He2.
  assert (Zdigits2 mx ≤ - ex) as Hd by (apply Zdigits2_le; lia).
  assert (ex ≤ e1 ≤ -53) as He1' by lia.
  assert (0 < 2 ^ (e1 - ex)) as Hp1 by (apply Z.pow_pos_nonneg; lia).
  assert (0 ≤ mx `div` 2 ^ (e1 - ex) < 2 ^ (- e1)) as Hq1.
  { split; [apply Z.div_pos; lia|]. apply Z.div_lt_upper_bound; [done|].
    rewrite <- Z.pow_add_r by lia. by replace (e1 - ex + - e1) with (- ex) by lia. }
  assert (0 ≤ m1 ≤ 2 ^ (- e1)) as Hm1' by lia.
  assert (Zdigits2 m1 ≤ - e1 + 1) as Hd1.
  { apply Zdigits2_le; [lia|]. rewrite Z.pow_add_r, Z.pow_1_r by lia. lia. }
  assert (e1 ≤ e2 ≤ -52) as He2' by lia.
  assert (0 < 2 ^ (e2 - e1)) as Hp2 by (apply Z.pow_pos_nonneg; lia).
  assert (0 ≤ m1 `div` 2 ^ (e2 - e1) ≤ 2 ^ (- e2)) as Hq2.
  { split; [apply Z.div_pos; lia|]. apply Z.div_le_upper_bound; [done|].
    rewrite <- Z.pow_add_r by lia. replace (e2 - e1 + - e2) with (- e1) by lia. lia. }
  destruct (m1 `div` 2 ^ (e2 - e1)) as [|m|m]; [by left| |lia].
  right. exists m, e2. split; [|lia].
  replace (e2 <=? emax - prec) with true; [done|].
  symmetry. apply Z.leb_le. unfold emax, prec. lia.
Qed.

Lemma SFleb_one_small (m : positive) (e : Z) :
  e ≤ -52 → Z.pos m ≤ 2 ^ (- e) → SFleb (S754_finite false m e) SF_one = true.
Proof.
  intros He Hm. unfold SFleb, SFcompare, SF_one.
  destruct (Z.compare_spec e (-52)) as [->|Hlt|Hgt]; [|done|lia].
  change (2 ^ (- -52)) with 4503599627370496 in Hm.
  rewrite Pos.compare_cont_spec. cbn [Pos.switch_Eq].
  destruct (Pos.compare_spec m 4503599627370496) as [?|?|Hgt]; [done|done|lia].
Qed.

Lemma shifted_mantissa (m s : Z) :
  0 ≤ s → match s with Z.pos _ => Z.shiftl m s | 0 => m | Z.neg _ => 0 end = m * 2 ^ s.
Proof. intros Hs. destruct s as [|p|p]; [lia| |lia]. apply Z.shiftl_mul_pow2. lia. Qed.

Lemma bounded_normal (m : positive) (e : Z) :
  bounded prec emax m e = true → -52 ≤ e → Z.pos (digits2_pos m) = 53.
Proof.
  unfold bounded, canonical_mantissa. rewrite fexp_eq.
  intros [Hc _]%andb_true_iff He. apply Z.eqb_eq in Hc. lia.
Qed.

(** 1 divided by a number above 1 is between 0 and 1. *)
Lemma SFdiv_one_above (md : positive) (ed : Z) :
  bounded prec emax md ed = true → -52 ≤ ed →
  Z.pos md ≠ 4503599627370496 ∨ ed ≠ -52 →
  SFleb (S754_zero false) (SFdiv prec emax SF_one (S754_finite false md ed)) = true ∧
  SFleb (SFdiv prec emax SF_one (S754_finite false md ed)) SF_one = true.
Proof.
  intros Hb He Hne. pose proof (bounded_normal md ed Hb He) as Hd.
  pose proof (digits2_pos_bounds md) as [Hlo _]. rewrite Hd in Hlo.
  change (2 ^ (53 - 1)) with 4503599627370496 in Hlo.
  unfold SFdiv, SF_one, SFdiv_core_binary. cbn [xorb Zdigits2]. rewrite Hd.
  change (Z.pos (digits2_pos 4503599627370496)) with 53. rewrite fexp_eq.
  set (e' := Z.min (Z.max (53 + -52 - (53 + ed) - 53) (-1074)) (-52 - ed)).
  assert (e' ≤ -53 ∧ e' ≤ -52 - ed) as [He' He''] by (unfold e'; lia).
  rewrite shifted_mantissa by lia.
  set (s := -52 - ed - e') in *.
  pose proof (Z_div_mod (4503599627370496 * 2 ^ s) (Z.pos md) ltac:(done)) as Hdm.
  destruct (Z.div_eucl (4503599627370496 * 2 ^ s) (Z.pos md)) as [q r].
  destruct Hdm as [Hq Hr].
  assert (0 < 2 ^ s) as Hp by (apply Z.pow_pos_nonneg; lia).
  assert (0 ≤ q) as Hq0 by nia.
  assert (q < 2 ^ (- e')) as Hqlt.
  { replace (- e') with (s + (52 + ed)) by lia. rewrite Z.pow_add_r by lia.
    assert (0 < 2 ^ (52 + ed)) as Hk by (apply Z.pow_pos_nonneg; lia).
    destruct (decide (ed = -52)) as [->|Hed].
    - change (2 ^ (52 + -52)) with 1. nia.
    - assert (2 ≤ 2 ^ (52 + ed)).
      { change 2 with (2 ^ 1) at 1. apply Z.pow_le_mono_r; lia. }
      nia. }
  destruct (binary_round_aux_small q e' (new_location (Z.pos md) r))
    as [->|(m & e & -> & Hle & Hm)]; [lia|lia|done|].
  split; [done|]. by apply SFleb_one_small.
Qed.

Lemma iter_xO (m d : positive) : Z.pos (Pos.iter xO m d) = Z.pos m * 2 ^ Z.pos d.
Proof.
  induction d as [|d IH] using Pos.peano_ind; [cbn; lia|].
  rewrite Pos.iter_succ, Pos2Z.inj_xO, IH, Pos2Z.inj_succ, Z.pow_succ_r by lia. lia.
Qed.

(** [shl_align] brings a mantissa down to the exponent asked for; it does
    nothing when the exponent is there or below already. *)
Lemma shl_align_spec (mx : positive) (ex ez : Z) :
  Z.pos (shl_align mx ex ez).1 = Z.pos mx * 2 ^ (ex - Z.min ex ez) ∧
  (shl_align mx ex ez).2 = Z.min ex ez.
Proof.
  unfold shl_align. destruct (ez - ex) as [|d|d] eqn:Hd; cbn [fst snd].
  - replace (ex - ex `min` ez) with 0 by lia. lia.
  - replace (ex - ex `min` ez) with 0 by lia. lia.
  - rewrite iter_xO. replace (ex - ex `min` ez) with (Z.pos d) by lia. lia.
Qed.

Lemma Zdigits2_shift (m k : Z) : 0 < m → 0 ≤ k → Zdigits2 (m * 2 ^ k) = Zdigits2 m + k.
Proof.
  intros Hm Hk. assert (0 < 2 ^ k) as Hp by (apply Z.pow_pos_nonneg; lia).
  destruct (Zdigits2_bounds m Hm) as [Hlo Hhi].
  destruct (Zdigits2_bounds (m * 2 ^ k)) as [Hlo' Hhi']; [nia|].
  pose proof (Zdigits2_nonneg m). pose proof (Zdigits2_nonneg (m * 2 ^ k)).
  assert (0 < Zdigits2 m).
  { destruct (decide (Zdigits2 m = 0)) as [Hz|]; [|lia]. rewrite Hz in Hhi. cbn in Hhi. lia. }
  assert (Zdigits2 m - 1 + k < Zdigits2 (m * 2 ^ k)).
  { apply (Z.pow_lt_mono_r_iff 2); [lia|lia|]. rewrite Z.pow_add_r by lia. nia. }
  assert (0 < Zdigits2 (m * 2 ^ k)) by lia.
  assert (Zdigits2 (m * 2 ^ k) - 1 < Zdigits2 m + k); [|lia].
  apply (Z.pow_lt_mono_r_iff 2); [lia|lia|]. rewrite (Z.pow_add_r 2 (Zdigits2 m)) by lia. nia.
Qed.

(** Rounding a number that is not below the least normal one: the
    result is not zero, and its exponent is that of the last place. *)
Lemma binary_round_big (sx : bool) (mx : positive) (ex : Z) :
  -1073 ≤ Z.pos (digits2_pos mx) + ex →
  binary_round prec emax sx mx ex = S754_infinity sx ∨
  ∃ m e, binary_round prec emax sx mx ex = S754_finite sx m e ∧
         fexp prec emax (Z.pos (digits2_pos mx) + ex) ≤ e.
Proof.
  intros Ht. unfold binary_round. set (t := Z.pos (digits2_pos mx) + ex) in *.
  destruct (shl_align_spec mx ex (fexp prec emax t)) as [Hmz Hez].
  destruct (shl_align mx ex (fexp prec emax t)) as [mz ez]. cbn [fst snd] in Hmz, Hez.
  destruct (binary_round_aux_spec sx (Z.pos mz) ez loc_Exact)
    as (m1 & e1 & e2 & He1 & Hm1 & He2 & ->); [lia|].
  assert (Zdigits2 (Z.pos mz) + ez = t) as Hdz.
  { rewrite Hmz, Zdigits2_shift by lia. cbn [Zdigits2]. unfold t in *. lia. }
  rewrite Hdz in He1. rewrite fexp_eq in *.
  assert (e1 = Z.max (t - 53) (-1074)) as He1' by lia.
  destruct (Zdigits2_bounds (Z.pos mz)) as [Hlo _]; [lia|].
  assert (0 < 2 ^ (e1 - ez)) as Hp1 by (apply Z.pow_pos_nonneg; lia).
  assert (1 ≤ Z.pos mz `div` 2 ^ (e1 - ez)) as Hq1.
  { apply Z.div_le_lower_bound; [done|]. rewrite Z.mul_1_r.
    etrans; [|exact Hlo]. apply Z.pow_le_mono_r; lia. }
  assert (1 ≤ m1) as Hm1' by lia.
  destruct (Zdigits2_bounds m1) as [Hlo1 _]; [lia|].
  assert (1 ≤ Zdigits2 m1) as Hd1.
  { pose proof (Zdigits2_nonneg m1). destruct (decide (Zdigits2 m1 = 0)) as [Hz|]; [|lia].
    destruct (Zdigits2_bounds m1) as [_ Hhi1]; [lia|]. rewrite Hz in Hhi1. cbn in Hhi1. lia. }
  assert (0 < 2 ^ (e2 - e1)) as Hp2 by (apply Z.pow_pos_nonneg; lia).
  assert (1 ≤ m1 `div` 2 ^ (e2 - e1)) as Hq2.
  { apply Z.div_le_lower_bound; [done|]. rewrite Z.mul_1_r.
    etrans; [|exact Hlo1]. apply Z.pow_le_mono_r; lia. }
  destruct (m1 `div` 2 ^ (e2 - e1)) as [|m|m]; [lia| |lia].
  destruct (e2 <=? emax - prec); [|by left]. right. exists m, e2. split; [done|]. lia.
Qed.

(** 1 plus a number that is not negative is 1 at least. *)
Lemma SFadd_one_nonneg (m : positive) (ex : Z) :
  SFadd prec emax SF_one (S754_finite false m ex) = S754_infinity false ∨
  ∃ m' e', SFadd prec emax SF_one (S754_finite false m ex) = S754_finite false m' e' ∧
           -52 ≤ e'.
Proof.
  unfold SFadd, SF_one. cbn [cond_Zopp]. set (ez := Z.min (-52) ex).
  assert (ez ≤ -52) as Hez by (unfold ez; lia). clearbody ez.
  destruct (shl_align_spec 4503599627370496 (-52) ez) as [Ha _].
  destruct (shl_align_spec m ex ez) as [Hb _].
  set (a := (shl_align 4503599627370496 (-52) ez).1) in *.
  set (b := (shl_align m ex ez).1) in *.
  change (Z.pos a + Z.pos b) with (Z.pos (a + b)). cbn [binary_normalize].
  assert (2 ^ (- ez) ≤ Z.pos (a + b)) as Hsum.
  { rewrite Pos2Z.inj_add, Ha. replace (Z.min (-52) ez) with ez by lia.
    change 4503599627370496 with (2 ^ 52). rewrite <- Z.pow_add_r by lia.
    replace (52 + (-52 - ez)) with (- ez) by lia. lia. }
  assert (- ez + 1 ≤ Z.pos (digits2_pos (a + b))) as Hd.
  { apply (Zdigits2_ge (Z.pos (a + b))); [lia|done]. }
  destruct (binary_round_big false (a + b) ez) as [->|(m' & e' & -> & He')]; [lia|by left|].
  right. exists m', e'. split; [done|]. rewrite fexp_eq in He'. lia.
Qed.

Lemma SFeqb_refl (X : spec_float) : SFeqb X X = false → X = S754_nan.
Proof.
  destruct X as [s|s| |s m e]; unfold SFeqb, SFcompare; [done|by destruct s|done|].
  rewrite Z.compare_refl, Pos.compare_cont_refl. by destruct s.
Qed.

Lemma is_nan_spec (x : float) : is_nan x = true ↔ Prim2SF x = S754_nan.
Proof.
  unfold is_nan. rewrite eqb_spec. split.
  - intros H. apply SFeqb_refl. by destruct (SFeqb _ _).
  - by intros ->.
Qed.

Lemma SFadd_one_range (E : spec_float) :
  E = S754_nan ∨ SFleb (S754_zero false) E = true →
  SFadd prec emax SF_one E = S754_nan ∨
  SFadd prec emax SF_one E = S754_infinity false ∨
  ∃ m e, SFadd prec emax SF_one E = S754_finite false m e ∧ -52 ≤ e.
Proof.
  intros [->|HE]; [by left|]. right.
  destruct E as [s|s| |s m e]; [|destruct s; [done|by left]|done|].
  - right. by exists 4503599627370496%positive, (-52).
  - destruct s; [done|]. destruct (SFadd_one_nonneg m e) as [->|(m' & e' & -> & He')].
    + by left.
    + right. by exists m', e'.
Qed.

Lemma SFdiv_one_range (X : spec_float) :
  valid_binary X = true →
  X = S754_nan ∨ X = S754_infinity false ∨ (∃ m e, X = S754_finite false m e ∧ -52 ≤ e) →
  SFdiv prec emax SF_one X = S754_nan ∨
  (SFleb (S754_zero false) (SFdiv prec emax SF_one X) = true ∧
   SFleb (SFdiv prec emax SF_one X) SF_one = true).
Proof.
  intros Hv [->|[->|(m & e & -> & He)]]; [by left|by right|]. right.
  destruct (decide (m = 4503599627370496%positive ∧ e = -52)) as [[-> ->]|Hne].
  - by vm_compute.
  - apply SFdiv_one_above; [done|done|].
    destruct (decide (e = -52)) as [->|]; [|by right]. left. intros [= ->]. by apply Hne.
Qed.

(** On binary64 numbers [1 / (1 + e)] is a NaN or lies between 0 and 1,
    for every [e] that is a NaN or not negative. *)
Lemma unit_of_nonneg (e : float) : nonneg_or_nan e → unit_or_nan (1 / (1 + e))%float.
Proof.
  unfold nonneg_or_nan, unit_or_nan. rewrite !is_nan_spec, !leb_spec, div_spec, add_spec.
  change (Prim2SF 0) with (S754_zero false). change (Prim2SF 1) with SF_one.
  intros He. pose proof (Prim2SF_valid (1 + e)) as Hv. rewrite add_spec in Hv.
  change (Prim2SF 1) with SF_one in Hv.
  apply SFdiv_one_range; [done|]. by apply SFadd_one_range.
Qed.

End Rounding64.

(** ** The range of the output *)

Section Range.
Import Stdlib.Floats.Floats Binary64.
Context `{Smp : Sampler float}.
Variable libm_exp : float → float.

(** On binary64 numbers the sigmoid of [z] is a NaN or lies between 0 and
    1, as soon as [exp] gives a NaN or a number that is not negative at
    [- z]. *)
Lemma sigmoid_range (z : float) :
  nonneg_or_nan (libm_exp (- z)) → unit_or_nan (sigmoid (DblOps := double_with libm_exp) z).
Proof. apply unit_of_nonneg. Qed.

(** C10, on the numbers the code computes with: binary64, with any
    function for the [exp] of the C library.  For every well-formed
    network of at least two layers and every input of [net_structure[0]]
    entries, [feedforward] returns, and every entry of the output is a NaN
    or lies between 0 and 1, the bounds included, provided [exp] gives a
    NaN or a number that is not negative at the weighted inputs of the
    last layer, negated, as the [exp] of the C library does. *)
Theorem feedforward_range (net : network) (input : list float) (w : world)
    (Ws : list (list (list float))) :
  net_ok w net → 2 ≤ n_layers net →
  net_structure net !! 0%nat = Some (Z.of_nat (length input)) →
  weight_blocks w net = Some Ws →
  Forall (λ z, nonneg_or_nan (libm_exp (- z)))
    (last_weighted (DblOps := double_with libm_exp) Ws input) →
  ∃ out, feedforward (DblOps := double_with libm_exp) net input w = Done out w ∧
         Forall unit_or_nan out.
Proof.
  intros Hok Hn Hin HWs Hexp.
  exists (forward_spec (DblOps := double_with libm_exp) Ws input).
  split; [by apply feedforward_run|].
  rewrite forward_spec_last.
  - apply Forall_fmap. eapply Forall_impl; [exact Hexp|]. intros z Hz. by apply sigmoid_range.
  - apply length_mapM in HWs. destruct Hok as [_ _ _ Hlw _ _].
    intros ->. cbn in HWs. lia.
Qed.

End Range.
(** * Beyond the claims *)

(** ** The lifetime of a network *)

Section Lifetime.
Context {D : Type} `{DblOps : Double D} `{Smp : Sampler D}.

(** [create_network] allocates the storage of the handles it returns and
    nothing else. *)
Lemma create_network_exact n ns w :
  (Z.to_nat n ≤ length ns)%nat →
  Forall (λ s, 0 ≤ s) (take (Z.to_nat n) ns) →
  wp (create_network n ns) w (λ net w',
    ∃ bms wms, net = Network n (Some <$> bms) (Some <$> wms) (take (Z.to_nat n) ns) ∧
      created ns w w' (Z.to_nat (n - 1)) bms wms ∧
      dom (heap w') = dom (heap w) ∪ list_to_set (data <$> (bms ++ wms))).
Proof.
  intros Hlen Hpos. unfold create_network.
  apply wp_bind. unfold copy_array_int. rewrite decide_True by done. apply wp_ret.
  apply wp_bind.
  set (N := Z.to_nat (n - 1)).
  apply (wp_for_fold
    (λ k (bw : slots matrix_double * slots matrix_double) w',
       ∃ bms wms, bw = ((Some <$> bms) ++ replicate (N - k) None,
                        (Some <$> wms) ++ replicate (N - k) None) ∧
                  created ns w w' k bms wms ∧
                  dom (heap w') = dom (heap w) ∪ list_to_set (data <$> (bms ++ wms)))).
  - exists [], []. rewrite Nat.sub_0_r. split; [done|]. split; [|set_solver].
    unfold created. repeat split; try done.
    + cbn. constructor.
    + cbn. intros p Hp. inversion Hp.
  - intros k [bs ws] w1 Hk (bms & wms & [= -> ->] & Hc & Hdom).
    rewrite Z.sub_0_r in Hk. fold N in Hk. rewrite Z.add_0_l.
    assert (Hlb : length bms = k) by apply Hc.
    assert (Hlw : length wms = k) by apply Hc.
    destruct (lookup_lt_is_Some_2 ns k) as [s0 Hs0]; [lia|].
    destruct (lookup_lt_is_Some_2 ns (S k)) as [s1 Hs1]; [lia|].
    assert (0 ≤ s0).
    { eapply (Forall_lookup_1 _ _ k) in Hpos; [done|]. rewrite lookup_take_lt by lia. done. }
    assert (0 ≤ s1).
    { eapply (Forall_lookup_1 _ _ (S k)) in Hpos; [done|]. rewrite lookup_take_lt by lia. done. }
    apply wp_bind. eapply wp_lift_option.
    { replace (Z.of_nat k + 1) with (Z.of_nat (S k)) by lia. by rewrite zlookup_of_nat. }
    apply wp_bind, wp_alloc_matrix_double; [done|lia|]. intros pb Hpb.
    apply wp_bind, wp_slot_set. { cbn [fst snd]. rewrite length_app, length_fmap, length_replicate. lia. }
    apply wp_bind. eapply wp_lift_option. { by rewrite zlookup_of_nat. }
    apply wp_bind, wp_alloc_matrix_double; [done|done|]. intros pw Hpw.
    apply wp_bind, wp_slot_set. { cbn [fst snd]. rewrite length_app, length_fmap, length_replicate. lia. }
    apply wp_ret. cbn [fst snd].
    exists (bms ++ [Matrix pb s1 1]), (wms ++ [Matrix pw s1 s0]). split; [|split].
    + replace (N - k)%nat with (S (N - S k)) by lia.
      by rewrite (slots_fill bms), (slots_fill wms).
    + by eapply created_step.
    + cbn [heap with_heap]. rewrite !dom_insert_L, Hdom, !fmap_app, !list_to_set_app_L.
      cbn. set_solver.
  - intros [bs ws] w' (bms & wms & [= -> ->] & Hc). apply wp_ret.
    rewrite Z.sub_0_r in *. fold N in Hc |- *. rewrite Nat.sub_diag. cbn [fst snd replicate].
    rewrite !app_nil_r. eauto.
Qed.


Lemma destroy_network_spec (net : network) (w : world) :
  net_ok w net →
  wp (destroy_network net) w (λ _ w',
    ∃ h, w' = set_heap h w ∧
      ∀ p, h !! p = if decide (p ∈ net_addrs net) then None else heap w !! p).
Proof.
  intros Hok. pose proof Hok as [Hns Hsz Hlb Hlw Hlay Hsep].
  destruct (net_ok_slots w net Hok) as [Hbs Hws].
  unfold destroy_network.
  apply (wp_for_range (λ k w',
    ∃ h, w' = set_heap h w ∧
      ∀ p, h !! p = if decide (p ∈ released net k) then None else heap w !! p)).
  - exists (heap w). split; [by rewrite set_heap_id|]. intros p.
    rewrite decide_False; [done|]. unfold released. rewrite !take_0. cbn. apply not_elem_of_nil.
  - intros k w1 Hk (h & -> & Hh). rewrite Z.sub_0_r in Hk. rewrite Z.add_0_l.
    destruct (Hlay k Hk)
      as (wm & bm & s0 & s1 & [_ _ layer_w layer_b _ _ _ _] & (W & HpW & _) & (B & HpB & _)).
    assert (Hkb : handles (biases net) !! k = Some bm).
    { rewrite Hbs, list_lookup_fmap in layer_b.
      destruct (handles (biases net) !! k); by simplify_eq/=. }
    assert (Hkw : handles (weights net) !! k = Some wm).
    { rewrite Hws, list_lookup_fmap in layer_w.
      destruct (handles (weights net) !! k); by simplify_eq/=. }
    assert (Hnd : NoDup ((data <$> handles (biases net)) ++ (data <$> handles (weights net)))).
    { unfold net_addrs in Hsep. by rewrite fmap_app in Hsep. }
    apply NoDup_app in Hnd as (Hndb & Hdisj & Hndw).
    assert (Hrel : ∀ p, p ∈ released net (S k) ↔
                        p = data bm ∨ p = data wm ∨ p ∈ released net k).
    { intros p. unfold released.
      rewrite (take_S_r _ _ bm), (take_S_r _ _ wm) by done.
      rewrite !fmap_app. cbn. set_solver. }
    assert (Hwnot : data wm ∉ released net k).
    { unfold released. rewrite fmap_app, elem_of_app. intros [Hin|Hin].
      - apply (Hdisj (data wm)).
        + apply list_elem_of_fmap in Hin as (m & -> & Hm).
          apply list_elem_of_fmap. exists m. split; [done|].
          apply elem_of_take in Hm as (i & Hi & _). by eapply list_elem_of_lookup_2.
        + apply list_elem_of_fmap. exists wm. split; [done|]. by eapply list_elem_of_lookup_2.
      - apply list_elem_of_fmap in Hin as (m & Heq & Hm).
        apply elem_of_take in Hm as (i & Hi & Hik).
        assert (i = k); [|lia].
        eapply (NoDup_lookup _ _ _ (data wm) Hndw); rewrite list_lookup_fmap.
        + by rewrite Hi, Heq.
        + by rewrite Hkw. }
    assert (Hbnot : data bm ∉ released net k).
    { unfold released. rewrite fmap_app, elem_of_app. intros [Hin|Hin].
      - apply list_elem_of_fmap in Hin as (m & Heq & Hm).
        apply elem_of_take in Hm as (i & Hi & Hik).
        assert (i = k); [|lia].
        eapply (NoDup_lookup _ _ _ (data bm) Hndb); rewrite list_lookup_fmap.
        + by rewrite Hi, Heq.
        + by rewrite Hkb.
      - apply (Hdisj (data bm)).
        + apply list_elem_of_fmap. exists bm. split; [done|]. by eapply list_elem_of_lookup_2.
        + apply list_elem_of_fmap in Hin as (m & -> & Hm).
          apply list_elem_of_fmap. exists m. split; [done|].
          apply elem_of_take in Hm as (i & Hi & _). by eapply list_elem_of_lookup_2. }
    assert (Hbw : data bm ≠ data wm).
    { intros Heq. apply (Hdisj (data bm)).
      - apply list_elem_of_fmap. exists bm. split; [done|]. by eapply list_elem_of_lookup_2.
      - rewrite Heq. apply list_elem_of_fmap. exists wm. split; [done|].
        by eapply list_elem_of_lookup_2. }
    apply wp_bind. eapply wp_slot_get; [done|].
    apply wp_bind. eapply wp_free_matrix_double.
    { rewrite heap_set_heap, Hh. by rewrite decide_False. }
    autorewrite with world.
    apply wp_bind. eapply wp_slot_get; [done|].
    eapply wp_free_matrix_double.
    { rewrite heap_set_heap, lookup_delete_ne by done. rewrite Hh. by rewrite decide_False. }
    autorewrite with world. eexists. split; [done|]. intros p.
    destruct (decide (p = data bm)) as [->|Hpb].
    { rewrite lookup_delete_eq. rewrite decide_True; [done|]. apply Hrel. auto. }
    rewrite lookup_delete_ne by done.
    destruct (decide (p = data wm)) as [->|Hpw].
    { rewrite lookup_delete_eq. rewrite decide_True; [done|]. apply Hrel. auto. }
    rewrite lookup_delete_ne by done. rewrite Hh.
    destruct (decide (p ∈ released net k)) as [Hin|Hin].
    + rewrite decide_True; [done|]. apply Hrel. auto.
    + rewrite decide_False; [done|]. rewrite Hrel. naive_solver.
  - intros w' (h & -> & Hh). exists h. split; [done|]. intros p. rewrite Hh.
    rewrite Z.sub_0_r. unfold released.
    rewrite !firstn_all2.
    + done.
    + rewrite Hws, length_fmap in Hlw. lia.
    + rewrite Hbs, length_fmap in Hlb. lia.
Qed.


(** X3.  Building a network and destroying it gives back the world the
    program started from: [destroy_network] releases all that
    [create_network] allocated. *)
Theorem create_destroy_network (n : Z) (ns : list Z) (w : world) :
  Z.of_nat (length ns) = n → Forall (λ s, 0 ≤ s) ns →
  (create_network n ns ≫= destroy_network) w = Done () w.
Proof.
  intros Hlen Hpos.
  destruct (create_network_exact n ns w) as (net & w' & Hrun & bms & wms & -> & Hc & Hdom).
  { lia. }
  { by apply Forall_take. }
  rewrite firstn_all2 in * by lia.
  pose proof (created_net_ok n ns w w' bms wms Hlen Hpos Hc) as Hok.
  rewrite (bind_Done _ _ _ _ _ Hrun).
  destruct (destroy_network_spec _ w' Hok) as ([] & w'' & Hrun' & h & -> & Hh).
  rewrite Hrun'. f_equal.
  destruct Hc as (Hf & Hcl & Hr & Hframe & _ & _ & _ & _ & Hnew).
  unfold net_addrs in Hh. cbn [biases weights] in Hh. rewrite !handles_Some in Hh.
  assert (h = heap w) as ->.
  { apply map_eq. intros p. rewrite Hh. case_decide as Hin.
    - symmetry. by apply not_elem_of_dom, Hnew.
    - destruct (decide (p ∈ dom (heap w))) as [Hd|Hd]; [by apply Hframe|].
      rewrite (proj1 (not_elem_of_dom _ _) Hd). apply not_elem_of_dom.
      rewrite Hdom. set_solver. }
  destruct w, w'. cbn in *. by subst.
Qed.

Lemma bind_Undefined {A B} (m : M A) (k : A → M B) w :
  m w = Undefined → (m ≫= k) w = Undefined.
Proof. intros H. unfold mbind, M_bind, bind. by rewrite H. Qed.

(** X4.  Destroying a network of two or more layers twice is undefined:
    the second call releases storage that the first has released. *)
Theorem destroy_network_twice (net : network) (w : world) :
  net_ok w net → 2 ≤ n_layers net →
  (destroy_network net;; destroy_network net) w = Undefined.
Proof.
  intros Hok Hn. destruct (destroy_network_spec net w Hok) as ([] & w' & Hrun & h & -> & Hh).
  rewrite (bind_Done _ _ _ _ _ Hrun).
  destruct (ok_layers w net Hok 0%nat)
    as (wm & bm & s0 & s1 & [_ _ layer_w _ _ _ _ _] & _); [lia|].
  unfold destroy_network, for_range, for_fold.
  destruct (Z.to_nat (n_layers net - 1 - 0)) as [|m] eqn:Hm; [lia|].
  cbn [for_iter]. apply bind_Undefined. cbv beta.
  change 0 with (Z.of_nat 0).
  erewrite bind_Done; [|by eapply lift_option_Done; rewrite zlookup_of_nat, layer_w].
  apply bind_Undefined. unfold free_matrix_double, mfree.
  rewrite heap_set_heap, Hh, decide_True; [done|].
  unfold net_addrs. apply list_elem_of_fmap. exists wm. split; [done|].
  apply elem_of_app. right. apply elem_of_handles. eauto.
Qed.

(** X5.  [vectorized_sigma] on a matrix whose storage has its dimensions
    returns and replaces every entry by its [sigma], in place; nothing
    else changes. *)
Theorem vectorized_sigma_spec (m : matrix_double) (bl : list (list D)) (w : world) :
  heap w !! data m = Some bl → has_dims bl (nrows m) (ncols m) →
  vectorized_sigma m w
  = Done () (set_heap (<[data m := (λ rw : list D, sigma <$> rw) <$> bl]> (heap w)) w).
Proof.
  intros Hp Hd.
  destruct (wp_vectorized_sigma m bl w (λ _ w',
    w' = set_heap (<[data m := (λ rw : list D, sigma <$> rw) <$> bl]> (heap w)) w) Hp Hd)
    as ([] & w' & Hrun & ->); done.
Qed.

End Lifetime.
(** ** The parameters: random values, files *)

Section FillShape.
Context {D : Type} `{DblOps : Double D} `{Smp : Sampler D}.
Context {St : Type} (next : St → (D → D) * St).

Lemma fill_rows_keeps_shape (B W : list (list D)) s :
  length B = length W →
  same_shape B (fill_rows next B W s).1.1 ∧ same_shape W (fill_rows next B W s).1.2.
Proof.
  revert W s. induction B as [|b B IH]; intros [|rw W] s Hlen; cbn in Hlen; try lia.
  - split; constructor.
  - cbn. destruct (IH W (fill_list next rw (fill_list next b s).2).2) as [HB HW]; [lia|].
    split; (constructor; [by rewrite fill_list_length|done]).
Qed.

Lemma fill_layers_keeps_shape (old : list (list (list D) * list (list D))) s :
  Forall (λ bw : list (list D) * list (list D), length bw.1 = length bw.2) old →
  Forall2 (λ bw bw' : list (list D) * list (list D),
             same_shape bw.1 bw'.1 ∧ same_shape bw.2 bw'.2)
    old (fill_layers next old s).1.
Proof.
  intros Hold. revert s. induction Hold as [|bw old Hbw Hold IH]; intros s; [constructor|].
  cbn. constructor; [|apply IH]. by apply fill_rows_keeps_shape.
Qed.

Lemma same_shape_has_dims (B B' : list (list D)) r c :
  has_dims B r c → same_shape B B' → has_dims B' r c.
Proof.
  intros [Hl Hr] HBB. split.
  - apply Forall2_length in HBB. lia.
  - apply Forall_lookup. intros i rw' Hi.
    destruct (Forall2_lookup_r _ _ _ _ _ HBB Hi) as (rw & Hrw & Hlen).
    eapply Forall_lookup_1 in Hr; [|done]. cbn in *. lia.
Qed.

(** Filling the parameters of a well-formed network from a source keeps
    it well-formed and reaches no other storage. *)
Lemma fill_heap_net_ok (net : network) (s : St) (w : world) :
  net_ok w net →
  net_ok (set_heap (fill_heap next (layer_handles net) s (heap w)).1 w) net ∧
  ∀ p, p ∉ net_addrs net →
    (fill_heap next (layer_handles net) s (heap w)).1 !! p = heap w !! p.
Proof.
  intros Hok.
  assert (Hlen : length (handles (biases net)) = length (handles (weights net))).
  { destruct (net_ok_slots w net Hok) as [Hb Hw]. destruct Hok as [? ? Hlb Hlw ? ?].
    rewrite Hb, length_fmap in Hlb. rewrite Hw, length_fmap in Hlw. lia. }
  split.
  - pose proof Hok as [Hns Hsz Hlb Hlw Hlay Hsep]. split; try done.
    intros l Hl. destruct (Hlay l Hl) as (wm & bm & s0 & s1 & Hlo & (W & HpW & HdW) & (B & HpB & HdB)).
    exists wm, bm, s0, s1. split; [done|].
    destruct (fill_heap_layers next (layer_handles net) s (heap w) (net_ok_separate w net Hok))
      as [_ Hfill].
    destruct (Hfill l bm wm) as (nb & nw & Hk & HB' & HW').
    { apply (layer_handles_lookup w net l bm wm Hok). by destruct Hlo. }
    pose proof (fill_layers_keeps_shape (layer_blocks (heap w) (layer_handles net)) s
                  (layer_blocks_rows net w Hok)) as Hshape.
    destruct (Forall2_lookup_r _ _ _ _ _ Hshape Hk) as ([B0 W0] & H0 & HsB & HsW).
    unfold layer_blocks in H0. rewrite list_lookup_fmap in H0.
    rewrite (proj2 (layer_handles_lookup w net l bm wm Hok)) in H0 by (by destruct Hlo).
    cbn in H0. rewrite HpB, HpW in H0. cbn in H0. simplify_eq. cbn in HsB, HsW.
    split.
    + exists nw. rewrite heap_set_heap. split; [done|]. by eapply same_shape_has_dims.
    + exists nb. rewrite heap_set_heap. split; [done|]. by eapply same_shape_has_dims.
  - intros p Hp. unfold net_addrs in Hp. rewrite fmap_app in Hp.
    apply not_elem_of_app in Hp as [Hpb Hpw].
    apply fill_heap_other; unfold layer_handles.
    + by rewrite fst_zip by lia.
    + by rewrite snd_zip by lia.
Qed.

End FillShape.

Section Randomize.
Context {D : Type} `{DblOps : Double D} `{Smp : Sampler D}.

(** X6.  [set_random_weights_biases] on a well-formed network returns and
    keeps it well-formed: every matrix keeps its dimensions.  It writes to
    the storage of the network only; the files, the clock and the
    generator of [rand_lim] are as they were. *)
Theorem set_random_weights_biases_keeps_shape (net : network) (w : world) :
  net_ok w net →
  ∃ w', set_random_weights_biases net w = Done () w' ∧ net_ok w' net ∧
    (∀ p, p ∉ net_addrs net → heap w' !! p = heap w !! p) ∧
    files w' = files w ∧ clock w' = clock w ∧ rand w' = rand w.
Proof.
  intros Hok. eexists. split; [by apply set_random_weights_biases_spec|].
  destruct (fill_heap_net_ok gauss_next net (clock w) w Hok) as [Hok' Hframe].
  split; [done|]. split; [|done]. intros p Hp. rewrite heap_set_heap. by apply Hframe.
Qed.

Lemma gauss_draws_app (a b : nat) (seed : Z) :
  gauss_draws (a + b) seed
  = ((gauss_draws a seed).1 ++ (gauss_draws b (gauss_draws a seed).2).1,
     (gauss_draws b (gauss_draws a seed).2).2).
Proof.
  revert seed. induction a as [|a IH]; intros seed; cbn [gauss_draws Nat.add fst snd app].
  - by destruct (gauss_draws b seed).
  - by rewrite IH.
Qed.

Lemma fill_list_gauss (old : list D) (seed : Z) :
  fill_list gauss_next old seed = gauss_draws (length old) seed.
Proof.
  revert seed. induction old as [|x old IH]; intros seed; [done|].
  cbn. by rewrite IH.
Qed.

Lemma fill_rows_gauss (B W : list (list D)) (seed : Z) :
  let r := fill_rows gauss_next B W seed in
  let n := length (mjoin ((λ r : list D * list D, r.1 ++ r.2) <$> zip B W)) in
  mjoin ((λ r : list D * list D, r.1 ++ r.2) <$> zip r.1.1 r.1.2) = (gauss_draws n seed).1 ∧
  r.2 = (gauss_draws n seed).2.
Proof.
  cbv zeta. revert W seed. induction B as [|b B IH]; intros [|rw W] seed; try done.
  cbn [fill_rows zip_with fst snd]. rewrite !fmap_cons, !mjoin_cons. cbn [fst snd].
  rewrite !length_app, <- Nat.add_assoc.
  rewrite !gauss_draws_app. cbn [fst snd]. rewrite !fill_list_gauss.
  destruct (IH W (gauss_draws (length rw) (gauss_draws (length b) seed).2).2) as [H1 H2].
  rewrite H1, H2. by rewrite <- app_assoc.
Qed.

Lemma fill_layers_gauss (L : list (list (list D) * list (list D))) (seed : Z) :
  parameters (fill_layers gauss_next L seed).1 = (gauss_draws (length (parameters L)) seed).1 ∧
  (fill_layers gauss_next L seed).2 = (gauss_draws (length (parameters L)) seed).2.
Proof.
  revert seed. induction L as [|bw L IH]; intros seed; [done|].
  unfold parameters. cbn [fill_layers fst snd]. rewrite !fmap_cons, !mjoin_cons.
  rewrite length_app, gauss_draws_app. cbn [fst snd].
  destruct (fill_rows_gauss bw.1 bw.2 seed) as [H1 H2]. cbv zeta in H1, H2.
  rewrite H1, H2.
  destruct (IH (gauss_draws
                  (length (mjoin ((λ r : list D * list D, r.1 ++ r.2) <$> zip bw.1 bw.2)))
                  seed).2) as [H3 H4].
  unfold parameters in H3, H4. by rewrite H3, H4.
Qed.

Lemma fill_layers_length {St : Type} (next : St → (D → D) * St)
    (L : list (list (list D) * list (list D))) s :
  length (fill_layers next L s).1 = length L.
Proof. revert s. induction L as [|bw L IH]; intros s; [done|]. cbn. by rewrite IH. Qed.

(** The storage of the layers after a fill is the fill of their storage. *)
Lemma fill_heap_blocks {St : Type} (next : St → (D → D) * St)
    (hs : list (matrix_double * matrix_double)) s (h : gmap positive (list (list D))) :
  separate hs →
  layer_blocks (fill_heap next hs s h).1 hs = (fill_layers next (layer_blocks h hs) s).1.
Proof.
  intros Hsep. destruct (fill_heap_layers next hs s h Hsep) as [_ Hfill].
  apply list_eq_same_length with (length hs).
  - rewrite fill_layers_length. unfold layer_blocks. by rewrite length_fmap.
  - unfold layer_blocks. by rewrite length_fmap.
  - intros i x y Hi Hx Hy.
    destruct (lookup_lt_is_Some_2 hs i Hi) as [[bm wm] Hbw].
    destruct (Hfill i bm wm Hbw) as (nb & nw & Hk & HB & HW).
    unfold layer_blocks in Hx at 1. rewrite list_lookup_fmap, Hbw in Hx. cbn in Hx.
    rewrite HB, HW in Hx. cbn in Hx. congruence.
Qed.

(** X7.  The values [set_random_weights_biases] leaves in a well-formed
    network, read in the order layer, neuron, bias then weights, are the
    successive draws of [gauss0] from the seed [time(NULL)], one for each
    parameter: every entry is overwritten, and none depends on what the
    network held. *)
Theorem set_random_weights_biases_draws (net : network) (w : world) :
  net_ok w net →
  ∃ w', set_random_weights_biases net w = Done () w' ∧
    parameters (layer_blocks (heap w') (layer_handles net))
    = (gauss_draws (length (parameters (layer_blocks (heap w) (layer_handles net))))
         (clock w)).1.
Proof.
  intros Hok. eexists. split; [by apply set_random_weights_biases_spec|].
  rewrite heap_set_heap, fill_heap_blocks by (by eapply net_ok_separate).
  apply fill_layers_gauss.
Qed.

End Randomize.

Section FilesMore.
Context {D : Type} `{DblOps : Double D} `{DblRepr : DoubleRepr D} `{Smp : Sampler D}.

(** X8.  [save_network] on a well-formed network returns; it creates or
    replaces the file it names, with the layer count, the layer sizes and
    the parameters of the network, and leaves the memory, the other files,
    the clock and the generator as they were. *)
Theorem save_network_only_file (net : network) (f : string) (w : world) :
  net_ok w net →
  ∃ w', save_network net f w = Done () w' ∧
    files w' !! f = Some (file_image (n_layers net) (net_structure net)
                            (layer_blocks (heap w) (layer_handles net))) ∧
    (∀ g, g ≠ f → files w' !! g = files w !! g) ∧
    heap w' = heap w ∧ clock w' = clock w ∧ rand w' = rand w.
Proof.
  intros Hok. eexists. split; [by apply save_network_spec|]. cbn.
  split; [apply lookup_insert_eq|]. split; [|done].
  intros g Hg. by rewrite lookup_insert_ne.
Qed.

Lemma int_bytes_join_length (ns : list Z) :
  length (mjoin (int_bytes <$> ns)) = (4 * length ns)%nat.
Proof.
  induction ns as [|z ns IH]; [done|].
  rewrite fmap_cons, mjoin_cons, length_app, IH. cbn. lia.
Qed.

Lemma encode_list_length (row : list D) : length (encode_list row) = (8 * length row)%nat.
Proof.
  unfold encode_list. induction row as [|x row IH]; [done|].
  rewrite fmap_cons, mjoin_cons, length_app, IH, d_bytes_length. cbn. lia.
Qed.

Lemma encode_rows_length (B W : list (list D)) (r c : Z) :
  has_dims B r 1 → has_dims W r c →
  Z.of_nat (length (encode_rows B W)) = 8 * (r * (c + 1)).
Proof.
  intros [HlB HrB] [HlW HrW]. subst r. revert W HlW HrW.
  induction HrB as [|b B Hb HrB IH]; intros W HlW HrW.
  - destruct W; [|cbn in HlW; lia]. cbn. lia.
  - destruct HrW as [|rw W Hrw HrW]; [cbn in HlW; lia|].
    unfold encode_rows. cbn [zip_with]. rewrite fmap_cons, mjoin_cons, !length_app.
    cbn [fst snd]. rewrite !encode_list_length. fold (encode_rows B W).
    rewrite !Nat2Z.inj_add, IH by (cbn in HlW; lia || done).
    cbn [length]. lia.
Qed.

Lemma encode_layers_length (ns : list Z) (L : list (list (list D) * list (list D))) :
  length L = (length ns - 1)%nat →
  (∀ k B W, L !! k = Some (B, W) →
     ∃ s0 s1, ns !! k = Some s0 ∧ ns !! S k = Some s1 ∧ has_dims B s1 1 ∧ has_dims W s1 s0) →
  Z.of_nat (length (encode_layers L)) = 8 * param_count ns.
Proof.
  revert ns. induction L as [|[B W] L IH]; intros ns Hlen Hlay.
  - destruct ns as [|s0 [|s1 ns]]; cbn in Hlen; done || lia.
  - destruct (Hlay 0%nat B W eq_refl) as (s0 & s1 & Hs0 & Hs1 & HdB & HdW).
    destruct ns as [|t0 [|t1 ns]]; simplify_eq/=.
    unfold encode_layers. rewrite fmap_cons, mjoin_cons, length_app. fold (encode_layers L).
    rewrite Nat2Z.inj_add, (encode_rows_length _ _ s1 s0) by done.
    rewrite (IH (s1 :: ns)); [cbn [param_count]; lia|cbn; lia|].
    intros k B' W' Hk. apply (Hlay (S k) B' W' Hk).
Qed.

(** X9.  The file [save_network] writes for a well-formed network of [n]
    layers has [4 (1 + n) + 8 P] bytes, where [P] is the number of
    parameters: one [int] for the layer count, one for each layer size,
    and one [double] for each bias and each weight. *)
Theorem save_network_size (net : network) (f : string) (w : world) :
  net_ok w net →
  ∃ w' bs, save_network net f w = Done () w' ∧ files w' !! f = Some bs ∧
    Z.of_nat (length bs) = 4 * (1 + n_layers net) + 8 * param_count (net_structure net).
Proof.
  intros Hok. eexists _, _. split; [by apply save_network_spec|]. cbn [files with_files].
  split; [apply lookup_insert_eq|].
  unfold file_image. rewrite !length_app, int_bytes_join_length, int_bytes_length.
  rewrite !Nat2Z.inj_add, (encode_layers_length (net_structure net)).
  - pose proof (ok_structure w net Hok). lia.
  - unfold layer_blocks. rewrite length_fmap, (layer_handles_length w net Hok).
    pose proof (ok_structure w net Hok). lia.
  - intros k B W Hk. unfold layer_blocks in Hk. rewrite list_lookup_fmap in Hk.
    destruct (layer_handles net !! k) as [[bm wm]|] eqn:Hh; [|done].
    cbn in Hk. injection Hk as HB HW.
    assert (k < Z.to_nat (n_layers net - 1))%nat as Hkn.
    { apply lookup_lt_Some in Hh. rewrite (layer_handles_length w) in Hh; done. }
    apply (layer_handles_lookup w net k bm wm Hok) in Hh as [Hbk Hwk].
    destruct (ok_layers w net Hok k Hkn)
      as (wm' & bm' & t0 & t1 & [Hs0 Hs1 Hwl Hbl Hwr Hwc Hbr Hbc] & (W' & HpW & HdW)
          & (B' & HpB & HdB)).
    assert (wm' = wm) as -> by congruence. assert (bm' = bm) as -> by congruence.
    rewrite HpB in HB. rewrite HpW in HW. cbn in HB, HW. subst B' W'.
    exists t0, t1. split; [done|]. split; [done|]. split; congruence.
Qed.

(** X10.  [load_network] on a file whose header is complete returns a
    well-formed network of the declared layer count and sizes, in storage
    of its own: the storage is new, and what was allocated before, the
    files, the clock and the generator are as they were. *)
Theorem load_network_fresh (f : string) (w : world) (n : Z) (ns body : list Z) :
  files w !! f = Some (int_bytes n ++ mjoin (int_bytes <$> ns) ++ body) →
  in_int n → Forall in_int ns → Z.of_nat (length ns) = n → Forall (λ s, 0 ≤ s) ns →
  ∃ net w',
    load_network f w = Done net w' ∧ net_ok w' net ∧
    n_layers net = n ∧ net_structure net = ns ∧
    (∀ p, p ∈ net_addrs net → heap w !! p = None) ∧
    (∀ p, p ∈ dom (heap w) → heap w' !! p = heap w !! p) ∧
    files w' = files w ∧ clock w' = clock w ∧ rand w' = rand w.
Proof.
  intros Hf Hn Hns Hlen Hpos.
  destruct (load_network_spec f w n ns body Hf Hn Hns Hlen Hpos)
    as (net & w0 & Hcreate & Hok0 & Hn' & Hns' & Hload).
  destruct (create_network_exact n ns w) as (net' & w0' & Hrun & bms & wms & Hnet & Hc & Hdom).
  { lia. }
  { by apply Forall_take. }
  rewrite Hcreate in Hrun. injection Hrun as <- <-.
  destruct Hc as (Hfl & Hcl & Hr & Hframe & _ & _ & _ & _ & Hnew).
  assert (Haddrs : net_addrs net = data <$> (bms ++ wms)).
  { rewrite Hnet. unfold net_addrs. cbn [biases weights]. by rewrite !handles_Some. }
  destruct (fill_heap_net_ok fread_next net body w0 Hok0) as [Hok' Hother].
  exists net. eexists. split; [done|]. split; [done|]. split; [done|]. split; [done|].
  cbn. split; [|split; [|done]].
  - intros p Hp. apply not_elem_of_dom, Hnew. by rewrite <- Haddrs.
  - intros p Hp. rewrite Hother; [by apply Hframe|].
    intros Hin. rewrite Haddrs in Hin. by apply Hnew in Hin.
Qed.

(** X11.  Saving a network, loading the file and saving what was loaded
    writes the same bytes again. *)
Theorem save_load_save (net : network) (f g : string) (w : world) :
  net_ok w net → in_int (n_layers net) → Forall in_int (net_structure net) →
  ∃ w1 net' w2 w3 bs,
    save_network net f w = Done () w1 ∧
    load_network f w1 = Done net' w2 ∧
    save_network net' g w2 = Done () w3 ∧
    files w1 !! f = Some bs ∧ files w3 !! g = Some bs.
Proof.
  intros Hok Hn Hns.
  set (L := layer_blocks (heap w) (layer_handles net)).
  set (w1 := with_files (insert f (file_image (n_layers net) (net_structure net) L)) w).
  destruct (load_network_spec f w1 (n_layers net) (net_structure net) (encode_layers L))
    as (net' & w0 & Hcreate & Hok0 & Hn' & Hns' & Hload);
    [apply lookup_insert_eq|done|done|by destruct Hok|by destruct Hok|].
  destruct (fill_heap_net_ok fread_next net' (encode_layers L) w0 Hok0) as [Hok' _].
  eexists w1, net', _, _, _.
  split; [by apply save_network_spec|]. split; [exact Hload|].
  split; [by apply save_network_spec|]. split; [apply lookup_insert_eq|].
  cbn [files with_files]. rewrite lookup_insert_eq. f_equal.
  rewrite Hn', Hns', heap_set_heap. f_equal.
  rewrite fill_heap_blocks by (by eapply net_ok_separate).
  rewrite <- (app_nil_r (encode_layers L)), fill_layers_encoded; [done| |].
  - by apply layer_blocks_same_shape.
  - by apply layer_blocks_rows.
Qed.

Lemma fread_ints_short (k : nat) (ptr : list Z) :
  (length ptr < 4 * k)%nat → fread_ints k ptr = None.
Proof.
  revert ptr. induction k as [|k IH]; intros ptr Hlen; [lia|].
  cbn [fread_ints]. unfold fread_item. case_decide as Hd; [|done].
  rewrite IH; [done|]. rewrite length_drop. lia.
Qed.

(** X12.  [load_network] has no defined result when the file is missing,
    when it is shorter than the [int] of the layer count, or when the
    layer sizes the count announces are not all there: no [fopen] or
    [fread] is checked, so the values it goes on with are not what the
    file holds. *)
Theorem load_network_no_header (f : string) (w : world) :
  (files w !! f = None ∨
   (∃ bs, files w !! f = Some bs ∧ (length bs < 4)%nat) ∨
   (∃ n rest, files w !! f = Some (int_bytes n ++ rest) ∧ in_int n ∧
      Z.of_nat (length rest) < 4 * n)) →
  load_network f w = Undefined.
Proof.
  unfold load_network, fopen_rb.
  intros [Hf|[(bs & Hf & Hlen)|(n & rest & Hf & Hn & Hshort)]];
    unfold mbind, M_bind, bind at 1; rewrite Hf; [done| |].
  - cbv zeta. unfold fread_item at 1. rewrite decide_False by lia. done.
  - cbv zeta. rewrite fread_int_bytes by done. cbn [fst snd].
    unfold mbind, M_bind, bind, lift_option, ret.
    rewrite fread_ints_short by lia. done.
Qed.

End FilesMore.
(** ** Training: edge cases and termination *)

Section TrainingEdges.
Context {D : Type} `{DblOps : Double D} `{Smp : Sampler D}.

(** X13.  [network_backprop] on a batch of no columns has no defined
    result, whatever the network: the loop over the examples does not run,
    so [costs] is never assigned, and the cleanup releases it. *)
Theorem network_backprop_empty_batch (net : network) (td tl : matrix_double) (w : world) :
  ncols td ≤ 0 → network_backprop net td tl w = Undefined.
Proof.
  intros Hc. unfold network_backprop, for_fold.
  replace (Z.to_nat (ncols td - 0)) with 0%nat by lia. done.
Qed.

(** X14.  [network_SGD] with an epoch count of zero or less returns at
    once and changes nothing: the count is not validated, the loop over
    the epochs does not run, and neither the data nor the generator is
    touched. *)
Theorem network_SGD_no_epochs (fuel : nat) (net : network) (td tl : matrix_double)
    (epochs mbs : Z) (eta : D) (w : world) :
  epochs ≤ 0 → network_SGD fuel net td tl epochs mbs eta w = Done () w.
Proof.
  intros He. unfold network_SGD, for_range, for_fold.
  replace (Z.to_nat (epochs - 0)) with 0%nat by lia. done.
Qed.

Lemma extract_section_inv (m : matrix_double) (s : pair_coordinates) (w : world) m' w' :
  extract_section_matrix_double m s w = Done m' w' →
  0 ≤ col (a s) ≤ col (b s) ∧ ncols m' = col (b s) - col (a s).
Proof.
  unfold extract_section_matrix_double.
  intros (bl & w1 & _ & Hrest)%bind_inv. case_decide as Hd; [|done].
  apply bind_inv in Hrest as (p & w2 & _ & [-> ->]%ret_inv). cbn. lia.
Qed.

(** X15.  With at least one epoch and at least one example, a mini-batch
    size of zero or less never lets [network_SGD] return, with any amount
    of fuel: the size is not validated, and the first mini-batch is empty
    (size 0, which [network_backprop] has no defined result on) or has its
    end before its start (a negative size). *)
Theorem network_SGD_nonpositive_batch (fuel : nat) (net : network) (td tl : matrix_double)
    (epochs mbs : Z) (eta : D) (w w' : world) :
  1 ≤ epochs → 1 ≤ ncols td → mbs ≤ 0 →
  network_SGD fuel net td tl epochs mbs eta w ≠ Done () w'.
Proof.
  intros He HN Hmbs Hrun. unfold network_SGD, for_range, for_fold in Hrun.
  destruct (Z.to_nat (epochs - 0)) as [|e] eqn:Hepochs; [lia|].
  cbn [for_iter] in Hrun.
  apply bind_inv in Hrun as ([] & w1 & Hbody & _).
  apply bind_inv in Hbody as ([] & w2 & _ & Hbatch).
  destruct fuel as [|fuel]; [discriminate|]. cbn [mini_batches] in Hbatch.
  rewrite decide_True in Hbatch by lia.
  apply bind_inv in Hbatch as (k & w3 & Hk & Hbatch).
  unfold int_add in Hk. destruct (decide (in_int (0 + mbs))); [|discriminate Hk].
  apply ret_inv in Hk as [-> ->].
  cbv zeta in Hbatch. rewrite decide_False in Hbatch by lia.
  apply bind_inv in Hbatch as (bd & w4 & Hbd & Hbatch).
  apply extract_section_inv in Hbd as [Hcols Hbd]. cbn in Hcols, Hbd.
  apply bind_inv in Hbatch as (bl & w5 & _ & Hbatch).
  apply bind_inv in Hbatch as ([] & w6 & Hbp & _).
  unfold network_backprop, for_fold in Hbp.
  replace (Z.to_nat (ncols bd - 0)) with 0%nat in Hbp by lia. done.
Qed.

(** *** Termination *)

Lemma fuelless_ret {A} (x : A) : fuelless (mret x).
Proof. by intros w. Qed.

Lemma fuelless_undef {A} : fuelless (undef : M A).
Proof. by intros w. Qed.

Lemma bind_fuel {A B} (m : M A) (k : A → M B) w :
  fuelless m → (∀ x w', m w = Done x w' → k x w' ≠ OutOfFuel) → (m ≫= k) w ≠ OutOfFuel.
Proof.
  intros Hm Hk. unfold mbind, M_bind, bind. specialize (Hm w).
  destruct (m w) as [x w'| |]; [by apply Hk|done|done].
Qed.

Lemma fuelless_bind {A B} (m : M A) (k : A → M B) :
  fuelless m → (∀ x, fuelless (k x)) → fuelless (m ≫= k).
Proof. intros Hm Hk w. apply bind_fuel; [done|]. intros x w' _. apply Hk. Qed.

Lemma fuelless_lift_option {A} (o : option A) : fuelless (lift_option o).
Proof. by destruct o. Qed.

Lemma fuelless_for_fold {St} lo hi (body : Z → St → M St) (s : St) :
  (∀ i s, fuelless (body i s)) → fuelless (for_fold lo hi body s).
Proof.
  intros Hbody. unfold for_fold. generalize (Z.to_nat (hi - lo)) as n. intros n.
  revert lo s. induction n as [|n IH]; intros lo s; [apply fuelless_ret|].
  cbn [for_iter]. apply fuelless_bind; [apply Hbody|]. intros s'. apply IH.
Qed.

Lemma fuelless_for_range lo hi (body : Z → M ()) :
  (∀ i, fuelless (body i)) → fuelless (for_range lo hi body).
Proof. intros Hbody. apply fuelless_for_fold. intros i _. apply Hbody. Qed.

Lemma fuelless_for_down n (body : Z → M ()) :
  (∀ i, fuelless (body i)) → fuelless (for_down n body).
Proof.
  intros Hbody. induction n as [|n IH]; [apply fuelless_ret|].
  cbn [for_down]. apply fuelless_bind; [apply Hbody|]. by intros _.
Qed.

Lemma fuelless_malloc (bl : list (list D)) : fuelless (malloc bl).
Proof. by intros w. Qed.

Lemma fuelless_mfree p : fuelless (mfree p).
Proof. intros w. unfold mfree. by destruct (heap w !! p). Qed.

Lemma fuelless_mload p : fuelless (mload p).
Proof. intros w. unfold mload. by destruct (heap w !! p). Qed.

Lemma fuelless_mstore p (bl : list (list D)) : fuelless (mstore p bl).
Proof. intros w. unfold mstore. by destruct (heap w !! p). Qed.

Lemma fuelless_rand_lim_call limit : fuelless (rand_lim_call limit).
Proof. by intros w. Qed.

Lemma fuelless_if {A} (P : Prop) `{Decision P} (m1 m2 : M A) :
  fuelless m1 → fuelless m2 → fuelless (if decide P then m1 else m2).
Proof. by case_decide. Qed.

(** The computations built from the above by sequencing, branching and
    counted loops. *)
Ltac fuelless :=
  repeat first
    [ apply fuelless_ret | apply fuelless_undef | apply fuelless_lift_option
    | apply fuelless_malloc | apply fuelless_mfree | apply fuelless_mload
    | apply fuelless_mstore | apply fuelless_rand_lim_call
    | apply fuelless_if
    | apply fuelless_for_fold; intros ? ?
    | apply fuelless_for_range; intros ?
    | apply fuelless_for_down; intros ?
    | apply fuelless_bind; [|intros ?] ].

Lemma fuelless_matrix_block m : fuelless (matrix_block m).
Proof. unfold matrix_block. fuelless. Qed.

Lemma fuelless_alloc_matrix_double r c : fuelless (alloc_matrix_double r c).
Proof. unfold alloc_matrix_double. fuelless. Qed.

Lemma fuelless_free_matrix_double m : fuelless (free_matrix_double m).
Proof. apply fuelless_mfree. Qed.

Lemma fuelless_extract_section m s : fuelless (extract_section_matrix_double m s).
Proof. unfold extract_section_matrix_double. fuelless. Qed.

Lemma fuelless_shuffle_data d l : fuelless (shuffle_data d l).
Proof.
  unfold shuffle_data, interchange_cols_matrix_double. fuelless.
Qed.

Lemma fuelless_slot2_get arr l i : fuelless (slot2_get arr l i).
Proof. unfold slot2_get, slot_get. fuelless. Qed.

Lemma fuelless_slot2_set arr l i x : fuelless (slot2_set arr l i x).
Proof. unfold slot2_set, slot_set. fuelless. Qed.

Lemma fuelless_vectorized_sigma m : fuelless (vectorized_sigma m).
Proof. unfold vectorized_sigma, data_get, data_set. fuelless. Qed.

Lemma fuelless_network_backprop net td tl : fuelless (network_backprop net td tl).
Proof.
  unfold network_backprop, calculate_costs, copy_col_matrix_double, set_col_matrix_double,
    matrix_product_matrix_double, copy_matrix_double, slot_get.
  cbv zeta.
  fuelless.
Qed.

Lemma fuelless_int_add x y : fuelless (int_add x y).
Proof. unfold int_add. fuelless. Qed.

(** The batch loop with a positive step: [N - j] rounds at most. *)
Lemma mini_batches_fuel (fuel : nat) net td tl mbs N j :
  1 ≤ mbs → (Z.to_nat (N - j) < fuel)%nat →
  fuelless (mini_batches fuel net td tl mbs N j).
Proof.
  intros Hmbs. revert j. induction fuel as [|fuel IH]; intros j Hfuel; [lia|].
  cbn [mini_batches]. case_decide as Hj; [|apply fuelless_ret].
  intros w. apply bind_fuel; [apply fuelless_int_add|]. intros k w1 _. cbv zeta.
  apply bind_fuel; [apply fuelless_extract_section|]. intros bd w2 _.
  apply bind_fuel; [apply fuelless_extract_section|]. intros bl w3 _.
  apply bind_fuel; [apply fuelless_network_backprop|]. intros [] w4 _.
  apply bind_fuel; [apply fuelless_free_matrix_double|]. intros [] w5 _.
  apply bind_fuel; [apply fuelless_free_matrix_double|]. intros [] w6 _.
  apply bind_fuel; [apply fuelless_int_add|]. intros j' w7 Hj'.
  unfold int_add in Hj'. case_decide; [|discriminate Hj']. apply ret_inv in Hj' as [-> ->].
  apply IH. lia.
Qed.

(** X16.  With a mini-batch size of one or more, the batch loop of
    [network_SGD] ends: each round moves the start of the batch forward, so
    a run takes no more rounds per epoch than there are examples.  (In the
    model the loop runs on fuel; with more fuel than examples, a run never
    stops for lack of it.) *)
Theorem network_SGD_terminates (fuel : nat) (net : network) (td tl : matrix_double)
    (epochs mbs : Z) (eta : D) (w : world) :
  1 ≤ mbs → (Z.to_nat (ncols td) < fuel)%nat →
  network_SGD fuel net td tl epochs mbs eta w ≠ OutOfFuel.
Proof.
  intros Hmbs Hfuel. revert w. unfold network_SGD.
  apply fuelless_for_range. intros i.
  apply fuelless_bind; [apply fuelless_shuffle_data|]. intros _.
  apply mini_batches_fuel; [done|]. by rewrite Z.sub_0_r.
Qed.

End TrainingEdges.
(** ** The forward pass and the sigmoid *)

Section Forward.
Context {D : Type} `{DblOps : Double D} `{Smp : Sampler D}.

(** X20.  A network of a single layer has no weights to apply:
    [feedforward] returns its input as it is, and leaves the world as it
    was. *)
Theorem feedforward_single_layer (net : network) (input : list D) (w : world) :
  net_ok w net → n_layers net = 1 →
  net_structure net !! 0%nat = Some (Z.of_nat (length input)) →
  feedforward net input w = Done input w.
Proof.
  intros Hok Hn H0.
  assert (weights net = []) as Hw.
  { apply nil_length_inv. rewrite (ok_weights w net Hok), Hn. done. }
  apply (feedforward_run net input w []); [done|done|].
  unfold weight_blocks. by rewrite Hw.
Qed.

End Forward.

Section Sigmoid.
Import Stdlib.Floats.Floats Binary64.

(** X19.  On binary64 numbers, with any function for the [exp] of the C
    library: when [exp] gives a NaN or a number that is not negative at
    [- z], and [sigma z] is a number, it lies between 0 and 1, the bounds
    included.  [sigma] returns nothing below 0 and nothing above 1. *)
Theorem sigma_between (libm_exp : float → float) (z : float) :
  nonneg_or_nan (libm_exp (- z)%float) →
  is_nan (sigma (DblOps := double_with libm_exp) z) = false →
  (0 <=? sigma (DblOps := double_with libm_exp) z)%float = true ∧
  (sigma (DblOps := double_with libm_exp) z <=? 1)%float = true.
Proof.
  intros Hexp Hnum. destruct (unit_of_nonneg (libm_exp (- z)%float) Hexp) as [Hnan|Hunit].
  - unfold sigma in Hnum. cbn in Hnum. congruence.
  - exact Hunit.
Qed.

End Sigmoid.

(** ** The shuffle *)

Section ShuffleMore.
Context {D : Type} `{DblOps : Double D} `{Smp : Sampler D}.

Lemma fisher_yates_rand_after {A} (n : nat) (r : rng) (l : list A) :
  (fisher_yates n r l).2 = rand_after n r.
Proof. revert r l. induction n as [|n IH]; intros r l; [done|]. cbn. apply IH. Qed.

(** X17.  [shuffle_data] on two matrices of [N] columns each, in storage
    of their own, returns.  Both matrices keep their dimensions and every
    row keeps its entries, in another order; no other storage, no file and
    not the clock is touched; and the generator has made [N - 1] draws,
    with the limits [N - 1] down to 1. *)
Theorem shuffle_data_keeps_shape (d l : matrix_double) (bd bl : list (list D)) (w : world) :
  rand_lim_in_range →
  heap w !! data d = Some bd → has_dims bd (nrows d) (ncols d) →
  heap w !! data l = Some bl → has_dims bl (nrows l) (ncols l) →
  data d ≠ data l → ncols d = ncols l →
  ∃ w' bd' bl',
    shuffle_data d l w = Done () w' ∧
    heap w' !! data d = Some bd' ∧ has_dims bd' (nrows d) (ncols d) ∧
    heap w' !! data l = Some bl' ∧ has_dims bl' (nrows l) (ncols l) ∧
    Forall2 (≡ₚ) bd' bd ∧ Forall2 (≡ₚ) bl' bl ∧
    (∀ p, p ≠ data d → p ≠ data l → heap w' !! p = heap w !! p) ∧
    files w' = files w ∧ clock w' = clock w ∧
    rand w' = rand_after (Z.to_nat (ncols d - 1)) (rand w).
Proof.
  intros Hrange Hd Hdd Hl Hdl Hne Hcols.
  pose proof (shuffle_data_spec d l bd bl w Hrange Hd Hdd Hl Hdl Hne Hcols) as Hrun.
  cbn zeta in Hrun. set (n := Z.to_nat (ncols d - 1)) in *.
  assert (Hdims : ∀ (b : list (list D)) r c, has_dims b r c →
            has_dims ((λ rw, (fisher_yates n (rand w) rw).1) <$> b) r c).
  { intros b r c [Hlen Hrows]. split; [by rewrite length_fmap|].
    apply Forall_fmap. eapply Forall_impl; [done|]. intros rw Hrw. cbn.
    by rewrite fisher_yates_length. }
  assert (Hperm : ∀ b : list (list D),
            Forall2 (≡ₚ) ((λ rw, (fisher_yates n (rand w) rw).1) <$> b) b).
  { intros b. apply Forall2_fmap_l, Forall_Forall2_diag, Forall_forall.
    intros rw _. apply fisher_yates_Permutation. }
  eexists _, _, _. split; [exact Hrun|]. cbn [heap files clock rand].
  split; [by rewrite lookup_insert_ne, lookup_insert_eq|]. split; [by apply Hdims|].
  split; [by rewrite lookup_insert_eq|]. split; [by apply Hdims|].
  split; [apply Hperm|]. split; [apply Hperm|].
  split; [|split; [done|split; [done|apply fisher_yates_rand_after]]].
  intros p Hpd Hpl. by rewrite !lookup_insert_ne.
Qed.

(** X18.  With one column or none there is nothing to shuffle:
    [shuffle_data] returns at once, draws no number and reads no storage,
    whatever the matrices. *)
Theorem shuffle_data_small (d l : matrix_double) (w : world) :
  ncols d ≤ 1 → shuffle_data d l w = Done () w.
Proof.
  intros Hc. unfold shuffle_data. replace (Z.to_nat (ncols d - 1)) with 0%nat by lia. done.
Qed.

End ShuffleMore.
(** ** network_backprop: what it allocates and what it releases *)

Section Backprop.
Context {D : Type} `{DblOps : Double D} `{Smp : Sampler D}.

Lemma cell_insert_eq arr l i row (x : option matrix_double) :
  arr !! l = Some row → (i < length row)%nat →
  cell (<[l := <[i := x]> row]> arr) l i = Some x.
Proof.
  intros Hl Hi. unfold cell. rewrite list_lookup_insert_eq by (by eapply lookup_lt_Some).
  cbn. by rewrite list_lookup_insert_eq.
Qed.

Lemma cell_insert_ne arr l i l' i' row (x : option matrix_double) :
  arr !! l = Some row → (l', i') ≠ (l, i) →
  cell (<[l := <[i := x]> row]> arr) l' i' = cell arr l' i'.
Proof.
  intros Hl Hne. unfold cell. destruct (decide (l' = l)) as [->|Hll].
  - rewrite list_lookup_insert_eq by (by eapply lookup_lt_Some). rewrite Hl. cbn.
    rewrite list_lookup_insert_ne; [done|]. congruence.
  - by rewrite list_lookup_insert_ne.
Qed.

Lemma wp_slot2_set (arr : list (list (option matrix_double))) (l i : nat) row x w Q :
  arr !! l = Some row → (i < length row)%nat →
  Q (<[l := <[i := Some x]> row]> arr) w →
  wp (slot2_set arr (Z.of_nat l) (Z.of_nat i) x) w Q.
Proof.
  intros Hl Hi HQ. unfold slot2_set.
  apply wp_bind. eapply wp_lift_option; [by rewrite zlookup_of_nat|].
  apply wp_bind, wp_slot_set; [done|].
  eapply wp_lift_option; [|done]. apply zinsert_of_nat. by eapply lookup_lt_Some.
Qed.

Lemma wp_slot2_get (arr : list (list (option matrix_double))) (l i : nat) x w Q :
  cell arr l i = Some (Some x) → Q x w → wp (slot2_get arr (Z.of_nat l) (Z.of_nat i)) w Q.
Proof.
  unfold cell. intros Hc HQ. destruct (arr !! l) as [row|] eqn:Hl; [|done]. cbn in Hc.
  unfold slot2_get. apply wp_bind. eapply wp_lift_option; [by rewrite zlookup_of_nat|].
  by eapply wp_slot_get.
Qed.

Lemma tracked_ext w n c (V V' : tag → Prop) k zs activs addr w' :
  (∀ t, V' t ↔ V t) → tracked w n c V k zs activs addr w' →
  tracked w n c V' k zs activs addr w'.
Proof.
  intros HV []. split; try done.
  - intros t Ht. apply tr_alloc0. by apply HV.
  - intros t1 t2 H1 H2. apply tr_inj0; by apply HV.
  - intros kd l i Ht. apply tr_cells0. by apply HV.
Qed.

(** A write to storage that belongs to one of the matrices. *)
Lemma tracked_write w n c V k zs activs addr w' p (bl : list (list D)) :
  tracked w n c V k zs activs addr w' →
  is_Some (heap w' !! p) → heap w !! p = None →
  tracked w n c V k zs activs addr (set_heap (<[p := bl]> (heap w')) w').
Proof.
  intros [] Hp Hnew. split; try done; cbn [heap set_heap].
  - intros q Hq. rewrite lookup_insert_ne; [by apply tr_frame0|].
    intros ->. apply elem_of_dom in Hq as [? Hq]. congruence.
  - rewrite dom_insert_L. rewrite <- tr_size0. f_equal.
    apply elem_of_dom in Hp. set_solver.
  - intros t Ht. destruct (tr_alloc0 t Ht) as [Ha Hn]. split; [|done].
    apply lookup_insert_is_Some'. by right.
Qed.

(** A new matrix, stored at a place of the arrays. *)
Lemma tracked_add_cell w n c V k zs activs addr w' kd l i row p r cc
    (bl : list (list D)) zs' activs' :
  tracked w n c V k zs activs addr w' →
  ¬ V (Cell kd l i) → heap w' !! p = None →
  pick kd zs activs !! l = Some row → (i < length row)%nat →
  pick kd zs' activs' = <[l := <[i := Some (Matrix p r cc)]> row]> (pick kd zs activs) →
  (∀ kd', kd' ≠ kd → pick kd' zs' activs' = pick kd' zs activs) →
  tracked w n c (λ t, V t ∨ t = Cell kd l i) (S k) zs' activs'
    (λ t, if decide (t = Cell kd l i) then p else addr t)
    (set_heap (<[p := bl]> (heap w')) w').
Proof.
  intros [] HnV Hp Hrow Hi Hsame Hother.
  assert (Hrows : ∀ arr : list (list (option matrix_double)),
            arr !! l = Some row → Forall (λ rw, length rw = c) arr →
            Forall (λ rw, length rw = c) (<[l := <[i := Some (Matrix p r cc)]> row]> arr)).
  { intros arr Hl Hall. apply Forall_insert; [done|]. rewrite length_insert.
    by eapply (Forall_lookup_1 _ _ _ _ Hall). }
  assert (Hzs : length zs' = n ∧ Forall (λ rw, length rw = c) zs').
  { destruct kd; cbn [pick] in *.
    - pose proof (Hother KZ ltac:(done)) as Ho. cbn [pick] in Ho. by rewrite Ho.
    - rewrite Hsame, length_insert. split; [done|]. by apply Hrows. }
  assert (Hactivs : length activs' = n ∧ Forall (λ rw, length rw = c) activs').
  { destruct kd; cbn [pick] in *.
    - rewrite Hsame, length_insert. split; [done|]. by apply Hrows.
    - pose proof (Hother KA ltac:(done)) as Ho. cbn [pick] in Ho. by rewrite Ho. }
  destruct Hzs as [Hlz Hrz], Hactivs as [Hla Hra].
  split; try done; cbn [heap set_heap].
  - intros q Hq. rewrite lookup_insert_ne; [by apply tr_frame0|].
    intros ->. specialize (tr_frame0 _ Hq). apply elem_of_dom in Hq as [? Hq]. congruence.
  - rewrite dom_insert_L, size_union, size_singleton, tr_size0; [lia|].
    apply disjoint_singleton_l. by apply not_elem_of_dom.
  - intros t [Ht| ->].
    + rewrite decide_False by (by intros ->). destruct (tr_alloc0 t Ht) as [Ha Hn].
      split; [|done]. apply lookup_insert_is_Some'. by right.
    + rewrite decide_True by done. split; [rewrite lookup_insert_eq; eauto|].
      destruct (heap w !! p) eqn:Hw; [|done]. assert (p ∈ dom (heap w)) as Hd by (by apply elem_of_dom).
      specialize (tr_frame0 _ Hd). congruence.
  - intros t1 t2 H1 H2 Heq. repeat case_decide; subst; try done.
    + destruct H2 as [H2|?]; [|done]. destruct (tr_alloc0 t2 H2) as [[? Ha] _]. congruence.
    + destruct H1 as [H1|?]; [|done]. destruct (tr_alloc0 t1 H1) as [[? Ha] _]. congruence.
    + destruct H1 as [H1|?]; [|done]. destruct H2 as [H2|?]; [|done]. by apply tr_inj0.
  - intros kd' l' i' [Ht|Ht].
    + rewrite decide_False by (by intros Heq; rewrite Heq in Ht).
      destruct (tr_cells0 kd' l' i' Ht) as (m & Hm & Hd). exists m. split; [|done].
      destruct (decide (kd' = kd)) as [->|Hkd]; [|by rewrite Hother].
      rewrite Hsame, cell_insert_ne; [done|done|]. intros [= -> ->]. done.
    + injection Ht as -> -> ->. rewrite decide_True by done.
      exists (Matrix p r cc). split; [|done]. rewrite Hsame. by apply cell_insert_eq.
Qed.

(** A new matrix, held by [costs]. *)
Lemma tracked_add_cost w n c V k zs activs addr w' i p (bl : list (list D)) :
  tracked w n c V k zs activs addr w' →
  ¬ V (Cost i) → heap w' !! p = None →
  tracked w n c (λ t, V t ∨ t = Cost i) (S k) zs activs
    (λ t, if decide (t = Cost i) then p else addr t)
    (set_heap (<[p := bl]> (heap w')) w').
Proof.
  intros [] HnV Hp. split; try done; cbn [heap set_heap].
  - intros q Hq. rewrite lookup_insert_ne; [by apply tr_frame0|].
    intros ->. specialize (tr_frame0 _ Hq). apply elem_of_dom in Hq as [? Hq]. congruence.
  - rewrite dom_insert_L, size_union, size_singleton, tr_size0; [lia|].
    apply disjoint_singleton_l. by apply not_elem_of_dom.
  - intros t [Ht| ->].
    + rewrite decide_False by (by intros ->). destruct (tr_alloc0 t Ht) as [Ha Hn].
      split; [|done]. apply lookup_insert_is_Some'. by right.
    + rewrite decide_True by done. split; [rewrite lookup_insert_eq; eauto|].
      destruct (heap w !! p) eqn:Hw; [|done]. assert (p ∈ dom (heap w)) as Hd by (by apply elem_of_dom).
      specialize (tr_frame0 _ Hd). congruence.
  - intros t1 t2 H1 H2 Heq. repeat case_decide; subst; try done.
    + destruct H2 as [H2|?]; [|done]. destruct (tr_alloc0 t2 H2) as [[? Ha] _]. congruence.
    + destruct H1 as [H1|?]; [|done]. destruct (tr_alloc0 t1 H1) as [[? Ha] _]. congruence.
    + destruct H1 as [H1|?]; [|done]. destruct H2 as [H2|?]; [|done]. by apply tr_inj0.
  - intros kd' l' i' [Ht|Ht]; [|done].
    rewrite decide_False by done. by apply tr_cells0.
Qed.

Lemma block_col_Some (bl : list (list D)) (r c : Z) (i : nat) :
  has_dims bl r c → Z.of_nat i < c →
  ∃ v, block_col bl (Z.of_nat i) = Some v ∧ length v = length bl.
Proof.
  intros [_ Hrows] Hi. unfold block_col.
  destruct (mapM_is_Some_2 (λ rw : list D, zlookup rw (Z.of_nat i)) bl) as [v Hv].
  - eapply Forall_impl; [done|]. intros rw Hrw. cbn in *. rewrite zlookup_of_nat.
    apply lookup_lt_is_Some_2. lia.
  - exists v. split; [done|]. symmetry. by eapply length_mapM.
Qed.

Lemma wp_copy_col m (bl : list (list D)) (i : nat) w Q :
  heap w !! data m = Some bl → has_dims bl (nrows m) (ncols m) → Z.of_nat i < ncols m →
  (∀ v, length v = length bl → Q v w) →
  wp (copy_col_matrix_double m (Z.of_nat i)) w Q.
Proof.
  intros Hp Hd Hi HQ. unfold copy_col_matrix_double.
  apply wp_bind. eapply wp_matrix_block; [done|done|].
  destruct (block_col_Some bl _ _ i Hd Hi) as (v & Hv & Hlen).
  eapply wp_lift_option; [done|]. by apply HQ.
Qed.

(** A loop whose round [k] has no defined result, the rounds before it
    returning. *)
Lemma for_iter_stuck {St} (n : nat) lo (body : Z → St → M St) (s : St) w (k : nat)
    (I : nat → St → world → Prop) :
  (k < n)%nat → I 0%nat s w →
  (∀ j s w, (j < k)%nat → I j s w → wp (body (lo + Z.of_nat j) s) w (I (S j))) →
  (∀ s w, I k s w → body (lo + Z.of_nat k) s w = Undefined) →
  for_iter n lo body s w = Undefined.
Proof.
  revert n lo s w I. induction k as [|k IH]; intros n lo s w I Hk H0 Hstep Hstuck.
  - destruct n as [|n]; [lia|]. cbn [for_iter]. apply bind_Undefined.
    rewrite <- (Z.add_0_r lo). by apply Hstuck.
  - destruct n as [|n]; [lia|]. cbn [for_iter].
    destruct (Hstep 0%nat s w ltac:(lia) H0) as (s' & w' & Hrun & H1).
    rewrite Z.add_0_r in Hrun. rewrite (bind_Done _ _ _ _ _ Hrun).
    apply (IH n (lo + 1) s' w' (λ j, I (S j))); [lia|done| |].
    + intros j s1 w1 Hj HI. replace (lo + 1 + Z.of_nat j) with (lo + Z.of_nat (S j)) by lia.
      apply Hstep; [lia|done].
    + intros s1 w1 HI. replace (lo + 1 + Z.of_nat k) with (lo + Z.of_nat (S k)) by lia.
      by apply Hstuck.
Qed.

Lemma for_range_stuck lo hi (body : Z → M ()) w (k : nat) (I : nat → world → Prop) :
  (k < Z.to_nat (hi - lo))%nat → I 0%nat w →
  (∀ j w, (j < k)%nat → I j w → wp (body (lo + Z.of_nat j)) w (λ _, I (S j))) →
  (∀ w, I k w → body (lo + Z.of_nat k) w = Undefined) →
  for_range lo hi body w = Undefined.
Proof.
  intros Hk H0 Hstep Hstuck. unfold for_range, for_fold.
  apply (for_iter_stuck _ _ _ _ _ k (λ j _, I j)); [done|done| |].
  - intros j [] w1 Hj HI. by apply Hstep.
  - intros [] w1 HI. by apply Hstuck.
Qed.

Ltac tag_goal :=
  solve [ lia | reflexivity | f_equal; lia | left; tag_goal | right; tag_goal
        | split; tag_goal ].

Ltac tag_solver :=
  intros [[] ? ?|?]; unfold V_in, V_main; split; intros;
  repeat match goal with
         | H : _ ∨ _ |- _ => destruct H
         | H : _ ∧ _ |- _ => destruct H
         | H : False |- _ => destruct H
         | H : Cell _ _ _ = Cell _ _ _ |- _ => injection H as ? ?
         | H : Cost _ = Cost _ |- _ => injection H as ?
         | H : Cell _ _ _ = Cost _ |- _ => discriminate H
         | H : Cost _ = Cell _ _ _ |- _ => discriminate H
         end;
  subst;
  first [ tag_goal
        | match goal with
          | H : (?a < S ?b)%nat |- _ => destruct (decide (a = b)); [subst|]; tag_goal
          end ].

Section Run.
Variables (net : network) (td tl : matrix_double) (w : world) (T : list (list D)).
Hypothesis Hok : net_ok w net.
Hypothesis HT : heap w !! data td = Some T.
Hypothesis HdT : has_dims T (nrows td) (ncols td).
Hypothesis Hin : net_structure net !! 0%nat = Some (nrows td).
Hypothesis Hcols : 1 ≤ ncols td.

Let n := Z.to_nat (n_layers net).
Let c := Z.to_nat (ncols td).

Lemma backprop_layers_pos : (1 ≤ n)%nat.
Proof.
  unfold n. pose proof (ok_structure w net Hok). apply lookup_lt_Some in Hin. lia.
Qed.

(** The loop over the examples: when it ends every place of the two
    arrays holds a matrix of its own, and so does [costs]; the rest of
    [network_backprop] is the cleanup. *)
Lemma backprop_main :
  ∃ zs activs addr mc w1,
    tracked w n c (V_main n c) (c * (2 * n + 1)) zs activs addr w1 ∧
    data mc = addr (Cost (c - 1)) ∧
    network_backprop net td tl w = backprop_cleanup zs activs mc (ncols td) w1.
Proof.
  pose proof backprop_layers_pos as Hn.
  pose proof Hok as [Hns Hsz Hlb Hlw Hlay Hsep].
  unfold network_backprop. cbv zeta.
  match goal with
  | |- context [ (for_fold ?lo ?hi ?body ?s ≫= ?k) w ] =>
    destruct (wp_for_fold
      (λ i (st : list (list (option matrix_double)) * list (list (option matrix_double))
                 * option matrix_double) w1,
         ∃ addr, tracked w n c (V_main n i) (i * (2 * n + 1)) st.1.1 st.1.2 addr w1 ∧
           match i with
           | O => True
           | S i' => ∃ mc, st.2 = Some mc ∧ data mc = addr (Cost i')
           end)
      lo hi body s w
      (λ st w1,
         ∃ addr, tracked w n c (V_main n c) (c * (2 * n + 1)) st.1.1 st.1.2 addr w1 ∧
           ∃ mc, st.2 = Some mc ∧ data mc = addr (Cost (c - 1))))
      as (st & w1 & Hrun & addr & Htr & mc & Hmc & Hdata)
  end.
  - exists (λ _, 1%positive). split; [|done]. cbn [fst snd].
    split; try done.
    + apply length_replicate.
    + apply length_replicate.
    + apply Forall_replicate. apply length_replicate.
    + apply Forall_replicate. apply length_replicate.
    + intros t Ht. destruct t; cbn in Ht; lia.
    + intros t1 t2 Ht. destruct t1; cbn in Ht; lia.
    + intros kd l i Ht. cbn in Ht. lia.
  - intros i [[zs activs] costs] w1 Hi (addr & Htr & _). cbn [fst snd] in *.
    rewrite Z.sub_0_r in Hi. fold c in Hi. rewrite Z.add_0_l.
    destruct HdT as [HlT HrT].
    assert (HTw1 : heap w1 !! data td = Some T).
    { rewrite (tr_frame _ _ _ _ _ _ _ _ _ Htr); [done|]. by apply elem_of_dom. }
    (* activs[0][i] *)
    apply wp_bind, wp_alloc_matrix_double; [lia|done|]. intros p1 Hp1. rewrite with_heap_eq.
    destruct (lookup_lt_is_Some_2 activs 0%nat) as [arow Harow].
    { rewrite (tr_activs _ _ _ _ _ _ _ _ _ Htr). lia. }
    assert (Halen : length arow = c).
    { by eapply (Forall_lookup_1 _ _ _ _ (tr_activs_rows _ _ _ _ _ _ _ _ _ Htr)). }
    apply wp_bind. apply (wp_slot2_set activs 0 i arow); [done|lia|].
    pose proof (tracked_add_cell w n c _ _ zs activs addr w1 KA 0 i arow p1 (nrows td) 1
                  (replicate (Z.to_nat (nrows td)) (replicate (Z.to_nat 1) d_uninit))
                  zs (<[0%nat := <[i := Some (Matrix p1 (nrows td) 1)]> arow]> activs) Htr)
      as Htr1.
    specialize (Htr1 ltac:(cbn; lia) Hp1 Harow ltac:(lia) eq_refl
                     ltac:(by intros [] ?)).
    set (w2 := set_heap _ w1) in *.
    assert (Hp1w2 : heap w2 !! p1
                    = Some (replicate (Z.to_nat (nrows td)) (replicate (Z.to_nat 1) d_uninit)))
      by apply lookup_insert_eq.
    assert (HTw2 : heap w2 !! data td = Some T).
    { unfold w2. cbn [heap set_heap]. rewrite lookup_insert_ne; [done|]. intros ->. congruence. }
    clearbody w2.
    apply wp_bind. eapply wp_copy_col; [done|done|lia|]. intros input Hinput.
    apply wp_bind. eapply (wp_slot2_get _ 0 i); [by apply cell_insert_eq; [|lia]|].
    apply wp_bind. eapply (wp_set_col_fresh _ input d_uninit).
    { cbn [data]. rewrite Hp1w2. do 2 f_equal. lia. }
    { cbn [nrows]. lia. }
    { done. }
    cbn [data].
    assert (Hp1w : heap w !! p1 = None).
    { destruct (tr_alloc _ _ _ _ _ _ _ _ _ Htr1 (Cell KA 0%nat i)) as [_ Hnew]; [by right|].
      by rewrite decide_True in Hnew. }
    pose proof (tracked_write w n c _ _ _ _ _ w2 p1 (col_block input) Htr1
                  ltac:(by eexists) Hp1w) as Htr2.
    set (w3 := set_heap _ w2) in *.
    assert (Hp1w3 : heap w3 !! p1 = Some (col_block input)) by apply lookup_insert_eq.
    clearbody w3. clear Htr1 Hp1w2 HTw2 w2.
    (* zs[0][i] *)
    apply wp_bind, wp_alloc_matrix_double; [done|done|]. intros p2 Hp2. rewrite with_heap_eq.
    destruct (lookup_lt_is_Some_2 zs 0%nat) as [zrow Hzrow].
    { rewrite (tr_zs _ _ _ _ _ _ _ _ _ Htr). lia. }
    assert (Hzlen : length zrow = c).
    { by eapply (Forall_lookup_1 _ _ _ _ (tr_zs_rows _ _ _ _ _ _ _ _ _ Htr)). }
    apply wp_bind. apply (wp_slot2_set zs 0 i zrow); [done|lia|].
    pose proof (tracked_add_cell w n c _ _ _ _ _ w3 KZ 0 i zrow p2 0 0
                  (replicate (Z.to_nat 0) (replicate (Z.to_nat 0) d_uninit))
                  (<[0%nat := <[i := Some (Matrix p2 0 0)]> zrow]> zs)
                  (<[0%nat := <[i := Some (Matrix p1 (nrows td) 1)]> arow]> activs) Htr2)
      as Htr3.
    specialize (Htr3 ltac:(cbn; intros [[? ?]|[=]]; lia) Hp2 Hzrow ltac:(lia) eq_refl
                     ltac:(by intros [] ?)).
    set (w4 := set_heap _ w3) in *.
    assert (Hp1w4 : heap w4 !! p1 = Some (col_block input)).
    { unfold w4. cbn [heap set_heap]. rewrite lookup_insert_ne; [done|]. intros ->. congruence. }
    clearbody w4. clear Htr2 Hp1w3 Hp2 w3.
    (* the layers *)
    apply wp_bind.
    apply (wp_for_fold
      (λ k (za : list (list (option matrix_double)) * list (list (option matrix_double))) w5,
         ∃ addr' ma v,
           tracked w n c (V_in n i (S k)) (i * (2 * n + 1) + 2 * S k) za.1 za.2 addr' w5 ∧
           cell za.2 k i = Some (Some ma) ∧ heap w5 !! data ma = Some (col_block v) ∧
           nrows ma = Z.of_nat (length v) ∧ ncols ma = 1 ∧
           net_structure net !! k = Some (Z.of_nat (length v)))).
    + eexists _, (Matrix p1 (nrows td) 1), input. cbn [fst snd data nrows ncols].
      split; [|split; [by apply cell_insert_eq; [|lia]|split; [done|]]].
      * replace (i * (2 * n + 1) + 2 * 1)%nat with (S (S (i * (2 * n + 1)))) by lia.
        eapply tracked_ext; [|exact Htr3].
        tag_solver.
      * split; [lia|]. split; [done|]. rewrite Hin. f_equal. lia.
    + intros k [zs5 activs5] w5 Hk (addr5 & ma & v & Htr5 & Hcell & Hma & Hr & Hc & Hlen).
      cbn [fst snd] in *.
      replace (1 + Z.of_nat k) with (Z.of_nat (S k)) by lia.
      replace (Z.of_nat (S k) - 1) with (Z.of_nat k) by lia.
      destruct (Hlay k Hk)
        as (wm & bm & s0 & s1 & [Hs0 Hs1 Hwl Hbl Hwr Hwc Hbr Hbc] & (Wk & HWk & HdW) & _).
      assert (HWk5 : heap w5 !! data wm = Some Wk).
      { rewrite (tr_frame _ _ _ _ _ _ _ _ _ Htr5); [done|]. by apply elem_of_dom. }
      assert (Hrows : Z.of_nat (length (mat_vec Wk v)) = nrows wm).
      { rewrite mat_vec_length. by destruct HdW. }
      apply wp_bind. eapply wp_slot_get; [done|].
      apply wp_bind. eapply wp_slot2_get; [done|].
      apply wp_bind. eapply (wp_matrix_product_col wm ma Wk v); [done|done|done|done|done| |].
      { rewrite Hwc, Hr. congruence. }
      intros q Hq.
      destruct (lookup_lt_is_Some_2 zs5 (S k)) as [zrow5 Hzrow5].
      { rewrite (tr_zs _ _ _ _ _ _ _ _ _ Htr5). lia. }
      assert (Hzlen5 : length zrow5 = c).
      { by eapply (Forall_lookup_1 _ _ _ _ (tr_zs_rows _ _ _ _ _ _ _ _ _ Htr5)). }
      apply wp_bind. apply (wp_slot2_set zs5 (S k) i zrow5); [done|lia|].
      pose proof (tracked_add_cell w n c _ _ _ _ _ w5 KZ (S k) i zrow5 q (nrows wm) 1
                    (col_block (mat_vec Wk v))
                    (<[S k := <[i := Some (Matrix q (nrows wm) 1)]> zrow5]> zs5) activs5 Htr5)
        as Htr6.
      specialize (Htr6 ltac:(unfold V_in, V_main; lia) Hq Hzrow5 ltac:(lia) eq_refl
                       ltac:(by intros [] ?)).
      set (w6 := set_heap _ w5) in *.
      assert (Hqw6 : heap w6 !! q = Some (col_block (mat_vec Wk v))) by apply lookup_insert_eq.
      clearbody w6.
      apply wp_bind. eapply (wp_slot2_get _ (S k) i); [by apply cell_insert_eq; [|lia]|].
      apply wp_bind. eapply wp_copy_matrix_double; [done| |].
      { cbn [nrows ncols]. rewrite <- Hrows. apply col_block_dims. }
      intros r Hrw6. cbn [nrows ncols].
      destruct (lookup_lt_is_Some_2 activs5 (S k)) as [arow5 Harow5].
      { rewrite (tr_activs _ _ _ _ _ _ _ _ _ Htr5). lia. }
      assert (Halen5 : length arow5 = c).
      { by eapply (Forall_lookup_1 _ _ _ _ (tr_activs_rows _ _ _ _ _ _ _ _ _ Htr5)). }
      apply wp_bind. apply (wp_slot2_set activs5 (S k) i arow5); [done|lia|].
      pose proof (tracked_add_cell w n c _ _ _ _ _ w6 KA (S k) i arow5 r (nrows wm) 1
                    (col_block (mat_vec Wk v))
                    (<[S k := <[i := Some (Matrix q (nrows wm) 1)]> zrow5]> zs5)
                    (<[S k := <[i := Some (Matrix r (nrows wm) 1)]> arow5]> activs5) Htr6)
        as Htr7.
      specialize (Htr7 ltac:(unfold V_in, V_main; intros [?|[=]]; lia) Hrw6 Harow5 ltac:(lia)
                       eq_refl ltac:(by intros [] ?)).
      set (w7 := set_heap _ w6) in *.
      assert (Hrw7 : heap w7 !! r = Some (col_block (mat_vec Wk v))) by apply lookup_insert_eq.
      clearbody w7.
      apply wp_bind. eapply (wp_slot2_get _ (S k) i); [by apply cell_insert_eq; [|lia]|].
      eapply wp_bind, wp_vectorized_sigma; [done| |].
      { cbn [nrows ncols]. rewrite <- Hrows. apply col_block_dims. }
      cbn [data]. rewrite col_block_sigma.
      assert (Hrw : heap w !! r = None).
      { destruct (tr_alloc _ _ _ _ _ _ _ _ _ Htr7 (Cell KA (S k) i)) as [_ Hnew]; [by right|].
        by rewrite decide_True in Hnew. }
      pose proof (tracked_write w n c _ _ _ _ _ w7 r (col_block (sigma <$> mat_vec Wk v)) Htr7
                    ltac:(by eexists) Hrw) as Htr8.
      apply wp_ret. cbn [fst snd].
      eexists _, (Matrix r (nrows wm) 1), (sigma <$> mat_vec Wk v). cbn [data nrows ncols].
      split; [|split; [by apply cell_insert_eq; [|lia]|split; [apply lookup_insert_eq|]]].
      * replace (i * (2 * n + 1) + 2 * S (S k))%nat
          with (S (S (i * (2 * n + 1) + 2 * S k))) by lia.
        eapply tracked_ext; [|exact Htr8].
        tag_solver.
      * rewrite length_fmap. split; [lia|]. split; [done|]. rewrite Hs1. f_equal. lia.
    + intros [zs5 activs5] w5 (addr5 & ma & v & Htr5 & _). cbn [fst snd] in *.
      replace (S (Z.to_nat (n_layers net - 1))) with n in Htr5 by lia.
      destruct (lookup_lt_is_Some_2 activs5 (n - 1)) as [outputs Houtputs].
      { rewrite (tr_activs _ _ _ _ _ _ _ _ _ Htr5). lia. }
      apply wp_bind. eapply wp_lift_option.
      { replace (n_layers net - 1) with (Z.of_nat (n - 1)) by lia. by rewrite zlookup_of_nat. }
      apply wp_bind. unfold calculate_costs.
      apply wp_alloc_matrix_double; [done|done|]. intros pc Hpc. rewrite with_heap_eq.
      apply wp_ret. cbn [fst snd].
      pose proof (tracked_add_cost w n c _ _ _ _ _ w5 i pc
                    (replicate (Z.to_nat 0) (replicate (Z.to_nat 0) d_uninit)) Htr5
                    ltac:(unfold V_in, V_main; lia) Hpc) as Htr6.
      eexists. split.
      * replace (S i * (2 * n + 1))%nat with (S (i * (2 * n + 1) + 2 * n)) by lia.
        eapply tracked_ext; [|exact Htr6].
        tag_solver.
      * exists (Matrix pc 0 0). split; [done|]. cbn [data]. by rewrite decide_True.
  - intros st w1 (addr & Htr & Hcost). rewrite Z.sub_0_r in *. fold c in Htr, Hcost.
    exists addr. split; [done|].
    destruct c as [|c'] eqn:Hc; [lia|]. by replace (S c' - 1)%nat with c' by lia.
  - destruct st as [[zs activs] costs]. cbn [fst snd] in *. subst costs.
    exists zs, activs, addr, mc, w1. split; [done|]. split; [done|].
    by rewrite (bind_Done _ _ _ _ _ Hrun).
Qed.

Section Cleanup.
Variables (zs activs : list (list (option matrix_double))) (addr : tag → positive).
Variables (mc : matrix_double) (w1 : world).
Hypothesis Htr : tracked w n c (V_main n c) (c * (2 * n + 1)) zs activs addr w1.
Hypothesis Hmc : data mc = addr (Cost (c - 1)).

Local Abbreviation cleaning := (cleaning w n c addr).

Lemma cleaning_ext (F F' : tag → Prop) cnt cnt' w' :
  (∀ t, V_main n c t → F t → F' t) → cnt = cnt' → cleaning F cnt w' → cleaning F' cnt' w'.
Proof.
  intros HF -> (? & ? & ? & ? & ? & Hall). repeat split; try done.
  intros t Ht HnF. apply Hall; [done|]. intros HFt. by apply HnF, HF.
Qed.

Lemma cleaning_start : cleaning (λ _, False) 0 w1.
Proof.
  destruct Htr. repeat split; try done.
  - lia.
  - intros t Ht _. by apply tr_alloc0.
Qed.

Lemma wp_cleaning_free (F : tag → Prop) cnt w' (t0 : tag) (m : matrix_double) Q :
  cleaning F cnt w' → V_main n c t0 → ¬ F t0 → data m = addr t0 →
  (∀ w'', cleaning (λ t, F t ∨ t = t0) (S cnt) w'' → Q () w'') →
  wp (free_matrix_double m) w' Q.
Proof.
  intros (Hf & Hcl & Hr & Hframe & Hsize & Hall) Ht0 HnF Hm HQ.
  destruct (Hall t0 Ht0 HnF) as [bl Hbl].
  eapply wp_free_matrix_double; [by rewrite Hm|]. apply HQ.
  destruct Htr. repeat split; try done; cbn [heap set_heap]; rewrite Hm.
  - intros p Hp. rewrite lookup_delete_ne; [by apply Hframe|].
    intros Heq. destruct (tr_alloc0 t0 Ht0) as [_ Hnew]. rewrite Heq in Hnew.
    apply elem_of_dom in Hp as [? Hp]. congruence.
  - rewrite dom_delete_L.
    assert (addr t0 ∈ dom (heap w')) as Hdom0 by (by apply elem_of_dom).
    pose proof (size_difference (dom (heap w')) {[addr t0]}) as Hd.
    rewrite size_singleton in Hd. specialize (Hd (proj2 (singleton_subseteq_l _ _) Hdom0)).
    assert (size (dom (heap w')) ≠ 0)%nat.
    { intros H0. apply size_empty_inv in H0. rewrite H0 in Hdom0. by apply elem_of_empty in Hdom0. }
    lia.
  - intros t Ht HnF'. rewrite lookup_delete_ne.
    + apply Hall; [done|]. intros HFt. apply HnF'. by left.
    + intros Heq. apply HnF'. right. symmetry. by apply tr_inj0.
Qed.

(** One round of the cleanup: the two matrices of layer [l] of example
    [i]. *)
Lemma wp_cleanup_round (i l : nat) w' Q :
  (i < c)%nat → (l < c)%nat → (l < n)%nat →
  cleaning (freed c i l) (1 + 2 * (i * c + l)) w' →
  (∀ w'', cleaning (freed c i (S l)) (1 + 2 * (i * c + S l)) w'' → Q () w'') →
  wp (al ← slot2_get activs (Z.of_nat l) (Z.of_nat i);
      free_matrix_double al;;
      zl ← slot2_get zs (Z.of_nat l) (Z.of_nat i);
      free_matrix_double zl) w' Q.
Proof.
  intros Hi Hlc Hln Hcl HQ.
  destruct (tr_cells _ _ _ _ _ _ _ _ _ Htr KA l i) as (ma & Hma & Hda); [done|].
  destruct (tr_cells _ _ _ _ _ _ _ _ _ Htr KZ l i) as (mz & Hmz & Hdz); [done|].
  cbn [pick] in Hma, Hmz.
  apply wp_bind. eapply wp_slot2_get; [done|].
  apply wp_bind. eapply (wp_cleaning_free _ _ _ (Cell KA l i)); [done|done| |done|].
  { cbn. lia. }
  intros w2 Hcl2.
  apply wp_bind. eapply wp_slot2_get; [done|].
  eapply (wp_cleaning_free _ _ _ (Cell KZ l i)); [done|done| |done|].
  { cbn. intros [?|[=]]. lia. }
  intros w3 Hcl3. apply HQ. eapply cleaning_ext; [| |exact Hcl3].
  - intros [kd l' i'|i'] _; cbn; [|by intros [[?|[=]]|[=]]].
    intros [[?|[= -> ->]]|[= -> ->]]; lia.
  - lia.
Qed.

Lemma wp_cleanup_costs Q :
  (1 ≤ c)%nat →
  (∀ w'', cleaning (freed c 0 0) 1 w'' → Q () w'') →
  wp (free_matrix_double mc) w1 Q.
Proof.
  intros Hc HQ. eapply (wp_cleaning_free _ _ _ (Cost (c - 1))); [apply cleaning_start| | |done|].
  - cbn. lia.
  - by intros [].
  - intros w'' Hcl. apply HQ. eapply cleaning_ext; [| |exact Hcl]; [|done].
    intros [kd l' i'|i'] _; cbn; [by intros [[]|[=]]|]. by intros [?|[= ->]].
Qed.

(** With no more columns than layers the cleanup returns. *)
Lemma backprop_cleanup_returns :
  (1 ≤ c ≤ n)%nat →
  wp (backprop_cleanup zs activs mc (ncols td)) w1 (λ _ w',
    cleaning (freed c c 0) (1 + 2 * (c * c)) w').
Proof.
  intros Hc. unfold backprop_cleanup.
  apply wp_bind, wp_cleanup_costs; [lia|]. intros w2 Hcl2.
  apply (wp_for_range (λ i w', cleaning (freed c i 0) (1 + 2 * (i * c)) w')).
  - eapply cleaning_ext; [| |exact Hcl2]; [done|lia].
  - intros i w3 Hi Hcl3. rewrite Z.sub_0_r in Hi. fold c in Hi. rewrite Z.add_0_l.
    apply (wp_for_range (λ l w', cleaning (freed c i l) (1 + 2 * (i * c + l)) w')).
    + eapply cleaning_ext; [| |exact Hcl3]; [done|lia].
    + intros l w4 Hl Hcl4. rewrite Z.sub_0_r in Hl. fold c in Hl. rewrite Z.add_0_l.
      apply wp_cleanup_round; [done|done|lia|done|done].
    + intros w4 Hcl4. rewrite Z.sub_0_r in Hcl4. fold c in Hcl4.
      eapply cleaning_ext; [| |exact Hcl4]; [|lia].
      intros [kd l' i'|i'] _; cbn; [lia|done].
  - intros w3 Hcl3. rewrite Z.sub_0_r in Hcl3. by fold c in Hcl3.
Qed.

(** With more columns than layers the cleanup reads [activs[n_layers]],
    which the array does not have. *)
Lemma backprop_cleanup_stuck :
  (n < c)%nat → backprop_cleanup zs activs mc (ncols td) w1 = Undefined.
Proof.
  intros Hc. pose proof backprop_layers_pos as Hn. unfold backprop_cleanup.
  destruct (wp_cleanup_costs (λ _ w'', cleaning (freed c 0 0) 1 w'')) as ([] & w2 & Hrun & Hcl2);
    [lia|done|].
  rewrite (bind_Done _ _ _ _ _ Hrun).
  apply (for_range_stuck _ _ _ _ 0 (λ _ w', cleaning (freed c 0 0) 1 w')).
  - rewrite Z.sub_0_r. fold c. lia.
  - done.
  - intros j w3 Hj. lia.
  - intros w3 Hcl3. rewrite Z.add_0_l.
    apply (for_range_stuck _ _ _ _ n
             (λ l w', cleaning (freed c 0 l) (1 + 2 * (0 * c + l)) w')).
    + rewrite Z.sub_0_r. fold c. lia.
    + eapply cleaning_ext; [| |exact Hcl3]; [done|lia].
    + intros l w4 Hl Hcl4. rewrite Z.add_0_l.
      apply wp_cleanup_round; [lia|lia|done|done|done].
    + intros w4 _. rewrite Z.add_0_l. apply bind_Undefined.
      unfold slot2_get. apply bind_Undefined. rewrite zlookup_of_nat.
      rewrite lookup_ge_None_2; [done|].
      rewrite (tr_activs _ _ _ _ _ _ _ _ _ Htr). lia.
Qed.

End Cleanup.

End Run.

(** What a call of [network_backprop] on a batch that fits does to the
    world: it returns and leaves [backprop_leak] more blocks allocated. *)
Lemma network_backprop_run (net : network) (td tl : matrix_double) (w : world)
    (T : list (list D)) :
  net_ok w net →
  heap w !! data td = Some T → has_dims T (nrows td) (ncols td) →
  net_structure net !! 0%nat = Some (nrows td) →
  1 ≤ ncols td ≤ n_layers net →
  wp (network_backprop net td tl) w
    (λ _, grown w (backprop_leak (n_layers net) (ncols td))).
Proof.
  intros Hok HT HdT Hin [Hc Hcn].
  destruct (backprop_main net td tl w T Hok HT HdT Hin Hc)
    as (zs & activs & addr & mc & w1 & Htr & Hmc & Heq).
  destruct (backprop_cleanup_returns net td w Hc zs activs addr mc w1 Htr Hmc)
    as ([] & w' & Hrun & Hf & Hcl & Hr & Hframe & Hsize & _); [lia|].
  exists (), w'. rewrite Heq. split; [done|]. repeat (split; [done|]).
  unfold backprop_leak.
  assert (Hc' : ncols td = Z.of_nat (Z.to_nat (ncols td))) by lia.
  assert (Hn' : n_layers net = Z.of_nat (Z.to_nat (n_layers net))) by lia.
  set (cN := Z.to_nat (ncols td)) in *. set (nN := Z.to_nat (n_layers net)) in *.
  rewrite Hc', Hn'. clearbody cN nN. clear -Hsize. nia.
Qed.

(** X23.  [network_backprop] on a well-formed network and a batch of [c]
    examples, [1 <= c <= n_layers], whose rows are the inputs of the
    network, returns.  It changes no storage that was allocated before and
    touches no file; but it releases [zs[l][i]] and [activs[l][i]] for the
    layers [l < c] only, and only the last of the [costs], so
    [2 c (n_layers - c) + (c - 1)] blocks are left allocated. *)
Theorem network_backprop_leaks (net : network) (td tl : matrix_double) (w : world)
    (T : list (list D)) :
  net_ok w net →
  heap w !! data td = Some T → has_dims T (nrows td) (ncols td) →
  net_structure net !! 0%nat = Some (nrows td) →
  1 ≤ ncols td ≤ n_layers net →
  ∃ w', network_backprop net td tl w = Done () w' ∧
    (∀ p, p ∈ dom (heap w) → heap w' !! p = heap w !! p) ∧
    Z.of_nat (size (dom (heap w')))
    = Z.of_nat (size (dom (heap w)))
      + 2 * ncols td * (n_layers net - ncols td) + (ncols td - 1) ∧
    files w' = files w ∧ clock w' = clock w ∧ rand w' = rand w.
Proof.
  intros Hok HT HdT Hin Hc.
  destruct (network_backprop_run net td tl w T Hok HT HdT Hin Hc)
    as ([] & w' & Hrun & Hf & Hcl & Hr & Hframe & Hsize).
  exists w'. unfold backprop_leak in Hsize. repeat (split; [done|]).
  split; [lia|done].
Qed.

(** X22.  [network_backprop] on a batch of more examples than the network
    has layers has no defined result: the cleanup runs its layer index up
    to the number of examples, and reads [activs[n_layers]]. *)
Theorem network_backprop_wide_batch (net : network) (td tl : matrix_double) (w : world)
    (T : list (list D)) :
  net_ok w net →
  heap w !! data td = Some T → has_dims T (nrows td) (ncols td) →
  net_structure net !! 0%nat = Some (nrows td) →
  n_layers net < ncols td →
  network_backprop net td tl w = Undefined.
Proof.
  intros Hok HT HdT Hin Hwide.
  assert (1 ≤ ncols td) as Hc.
  { pose proof (ok_structure w net Hok). apply lookup_lt_Some in Hin. lia. }
  destruct (backprop_main net td tl w T Hok HT HdT Hin Hc)
    as (zs & activs & addr & mc & w1 & Htr & Hmc & Heq).
  rewrite Heq. apply (backprop_cleanup_stuck net td w Hok Hin Hc zs activs addr mc w1 Htr Hmc).
  lia.
Qed.

End Backprop.
(** ** network_SGD: a run that returns *)

Section Training.
Context {D : Type} `{DblOps : Double D} `{Smp : Sampler D}.

Lemma epoch_leak_0 n m : epoch_leak n m 0 = 0.
Proof. unfold epoch_leak. rewrite Zdiv_0_l, Zmod_0_l. by rewrite decide_True. Qed.

Lemma epoch_leak_rest n m R : 0 < R < m → epoch_leak n m R = backprop_leak n R.
Proof.
  intros HR. unfold epoch_leak. rewrite Z.div_small, Z.mod_small by lia.
  rewrite decide_False by lia. lia.
Qed.

Lemma epoch_leak_step n m R :
  1 ≤ m ≤ R → epoch_leak n m R = backprop_leak n m + epoch_leak n m (R - m).
Proof.
  intros HR. unfold epoch_leak.
  assert (R `div` m = (R - m) `div` m + 1) as ->.
  { rewrite <- Z.div_add by lia. f_equal. lia. }
  assert (R `mod` m = (R - m) `mod` m) as ->.
  { rewrite <- (Z.mod_add (R - m) 1 m) by lia. f_equal. lia. }
  lia.
Qed.

Lemma net_ok_frame (w w' : world) (net : network) :
  net_ok w net → (∀ p, p ∈ net_addrs net → heap w' !! p = heap w !! p) → net_ok w' net.
Proof.
  intros [Hs Hz Hb Hw Hl Hn] Hframe. split; try done.
  intros l Hlt. destruct (Hl l Hlt) as (wm & bm & s0 & s1 & Hlay & Hwm & Hbm).
  exists wm, bm, s0, s1. split; [done|].
  split.
  - destruct Hwm as (bl & Hbl & Hd). exists bl. split; [|done]. rewrite Hframe; [done|].
    unfold net_addrs. apply list_elem_of_fmap_2, elem_of_app. right.
    apply elem_of_handles. exists l. apply Hlay.
  - destruct Hbm as (bl & Hbl & Hd). exists bl. split; [|done]. rewrite Hframe; [done|].
    unfold net_addrs. apply list_elem_of_fmap_2, elem_of_app. left.
    apply elem_of_handles. exists l. apply Hlay.
Qed.

Lemma net_ok_allocated (w : world) (net : network) p :
  net_ok w net → p ∈ net_addrs net → p ∈ dom (heap w).
Proof.
  intros Hok (m & -> & Hm)%list_elem_of_fmap. apply elem_of_dom.
  assert (∃ l, biases net !! l = Some (Some m) ∨ weights net !! l = Some (Some m))
    as (l & Hl).
  { apply elem_of_app in Hm as [(l & Hl)%elem_of_handles|(l & Hl)%elem_of_handles];
      exists l; auto. }
  assert (l < Z.to_nat (n_layers net - 1))%nat as Hlt.
  { destruct Hl as [Hl|Hl]; apply lookup_lt_Some in Hl.
    - by rewrite <- (ok_biases w net Hok).
    - by rewrite <- (ok_weights w net Hok). }
  destruct (ok_layers w net Hok l Hlt) as (wm & bm & s0 & s1 & Hlay & Hwm & Hbm).
  destruct Hlay as [_ _ Hlw Hlb _ _ _ _].
  destruct Hl as [Hl|Hl].
  - rewrite Hlb in Hl. injection Hl as <-. by destruct Hbm as (bl & -> & _).
  - rewrite Hlw in Hl. injection Hl as <-. by destruct Hwm as (bl & -> & _).
Qed.

Lemma has_dims_sublist (T : list (list D)) r N j k :
  has_dims T r N → 0 ≤ j ≤ k → k ≤ N →
  has_dims (sublist j k <$> sublist 0 r T) (r - 0) (k - j).
Proof.
  intros [Hr Hrows] Hjk HkN. unfold sublist at 2. rewrite drop_0, Z.sub_0_r.
  rewrite take_ge by lia. split; [by rewrite length_fmap|].
  apply Forall_fmap. eapply Forall_impl; [done|]. intros rw Hrw. cbv beta in Hrw. cbn.
  unfold sublist. rewrite length_take, length_drop. lia.
Qed.

Lemma wp_extract_section (m : matrix_double) (T : list (list D)) j k w Q :
  heap w !! data m = Some T → has_dims T (nrows m) (ncols m) →
  0 ≤ j ≤ k → k ≤ ncols m →
  (∀ p, heap w !! p = None →
     Q (Matrix p (nrows m - 0) (k - j))
       (set_heap (<[p := sublist j k <$> sublist 0 (nrows m) T]> (heap w)) w)) →
  wp (extract_section_matrix_double m
        (Pair_coordinates (Coordinate 0 j) (Coordinate (nrows m) k))) w Q.
Proof.
  intros HT Hd Hjk Hk HQ. unfold extract_section_matrix_double.
  apply wp_bind. eapply wp_matrix_block; [done..|]. cbn.
  assert (0 ≤ nrows m) by (destruct Hd as [<- _]; lia).
  rewrite decide_True by lia.
  apply wp_bind, wp_malloc. intros p Hp. apply wp_ret. by apply HQ.
Qed.

Lemma size_dom_insert_fresh (h : gmap positive (list (list D))) p x :
  h !! p = None → size (dom (<[p := x]> h)) = S (size (dom h)).
Proof.
  intros Hp. rewrite dom_insert_L, size_union by (apply not_elem_of_dom in Hp; set_solver).
  by rewrite size_singleton.
Qed.

Lemma size_dom_delete (h : gmap positive (list (list D))) p :
  is_Some (h !! p) → S (size (dom (delete p h))) = size (dom h).
Proof.
  intros Hp%elem_of_dom. rewrite dom_delete_L.
  pose proof (size_difference (dom h) {[p]}) as Hs. rewrite size_singleton in Hs.
  rewrite Hs by set_solver.
  assert (size (dom h) ≠ 0)%nat; [|lia].
  intros Hz%size_empty_inv. set_solver.
Qed.

Lemma grown_trans (w0 w w' : world) (s t : Z) :
  grown w0 s w → grown w t w' → grown w0 (s + t) w'.
Proof.
  intros (Hf & Hc & Hr & Hfr & Hsz) (Hf' & Hc' & Hr' & Hfr' & Hsz').
  split; [congruence|]. split; [congruence|]. split; [congruence|]. split; [|lia].
  intros p Hp. rewrite <- (Hfr p Hp). apply Hfr', elem_of_dom. rewrite (Hfr p Hp).
  by apply elem_of_dom.
Qed.

Lemma grown_net_ok (w0 w : world) (s : Z) (net : network) :
  grown w0 s w → net_ok w0 net → net_ok w net.
Proof.
  intros (_ & _ & _ & Hfr & _) Hok. apply (net_ok_frame w0); [done|].
  intros p Hp. by apply Hfr, (net_ok_allocated w0 net).
Qed.

(** The two sections [network_SGD] cuts out for a batch: the columns [j]
    to [k - 1] of the data and of the labels, in two new blocks. *)
Lemma wp_sections (td tl : matrix_double) (T L : list (list D)) (w : world) (j k : Z)
    (K : matrix_double → matrix_double → world → Prop) :
  heap w !! data td = Some T → has_dims T (nrows td) (ncols td) →
  heap w !! data tl = Some L → has_dims L (nrows tl) (ncols tl) →
  ncols td = ncols tl → 0 ≤ j ≤ k → k ≤ ncols td →
  (∀ p1 p2 B1 w2,
     grown w 2 w2 → heap w !! p1 = None → heap w !! p2 = None → p1 ≠ p2 →
     heap w2 !! p1 = Some B1 → has_dims B1 (nrows td - 0) (k - j) →
     is_Some (heap w2 !! p2) →
     K (Matrix p1 (nrows td - 0) (k - j)) (Matrix p2 (nrows tl - 0) (k - j)) w2) →
  wp (extract_section_matrix_double td
        (Pair_coordinates (Coordinate 0 j) (Coordinate (nrows td) k))) w
    (λ mini_batch_data w1,
       wp (extract_section_matrix_double tl
             (Pair_coordinates (Coordinate 0 j) (Coordinate (nrows tl) k))) w1
         (λ mini_batch_labels w2, K mini_batch_data mini_batch_labels w2)).
Proof.
  intros HT HdT HL HdL Hcols Hjk Hk HK.
  eapply wp_extract_section; [exact HT|done|lia|lia|]. intros p1 Hp1.
  eapply (wp_extract_section tl L).
  { cbn. rewrite lookup_insert_ne; [done|]. by intros ->; rewrite HL in Hp1. }
  { done. } { lia. } { lia. }
  intros p2 Hp2. cbn [heap set_heap] in Hp2.
  assert (Hp21 : p2 ≠ p1) by (by intros ->; rewrite lookup_insert_eq in Hp2).
  rewrite lookup_insert_ne in Hp2 by done.
  apply (HK p1 p2 (sublist j k <$> sublist 0 (nrows td) T)); try done.
  - split; [done|]. split; [done|]. split; [done|]. cbn [heap set_heap]. split.
    + intros p [x Hx]%elem_of_dom. rewrite !lookup_insert_ne by congruence. done.
    + rewrite !size_dom_insert_fresh; [lia|done|by rewrite lookup_insert_ne].
  - cbn. by rewrite lookup_insert_ne, lookup_insert_eq.
  - eapply has_dims_sublist; [exact HdT|lia|lia].
  - cbn. by rewrite lookup_insert_eq.
Qed.

Section Batches.
Variables (net : network) (td tl : matrix_double) (w0 : world) (T L : list (list D)).
Variable mbs : Z.
Hypothesis Hok : net_ok w0 net.
Hypothesis HT : heap w0 !! data td = Some T.
Hypothesis HdT : has_dims T (nrows td) (ncols td).
Hypothesis HL : heap w0 !! data tl = Some L.
Hypothesis HdL : has_dims L (nrows tl) (ncols tl).
Hypothesis Hcols : ncols td = ncols tl.
Hypothesis Hin : net_structure net !! 0%nat = Some (nrows td).
Hypothesis Hm : 1 ≤ mbs ≤ n_layers net.
Hypothesis Hmax : ncols td + mbs ≤ INT_MAX.

(** One round of the batch loop: the two sections are cut out, the batch
    goes through [network_backprop], the two sections are released. *)
Lemma wp_batch {B} (rest : M B) (w : world) (s j k : Z) (Q : B → world → Prop) :
  grown w0 s w → 0 ≤ j < k → k ≤ ncols td → k - j ≤ n_layers net →
  (∀ w', grown w0 (s + backprop_leak (n_layers net) (k - j)) w' → wp rest w' Q) →
  wp (mini_batch_data ← extract_section_matrix_double td
        (Pair_coordinates (Coordinate 0 j) (Coordinate (nrows td) k));
      mini_batch_labels ← extract_section_matrix_double tl
        (Pair_coordinates (Coordinate 0 j) (Coordinate (nrows tl) k));
      network_backprop net mini_batch_data mini_batch_labels;;
      free_matrix_double mini_batch_data;;
      free_matrix_double mini_batch_labels;;
      rest) w Q.
Proof.
  intros Hg Hjk Hk Hkn HQ. pose proof Hg as (_ & _ & _ & Hfr & _).
  assert (HTw : heap w !! data td = Some T).
  { rewrite Hfr; [done|]. apply elem_of_dom. by rewrite HT. }
  assert (HLw : heap w !! data tl = Some L).
  { rewrite Hfr; [done|]. apply elem_of_dom. by rewrite HL. }
  apply wp_bind. eapply wp_mono.
  { apply (wp_sections td tl T L w j k (λ mbd mbl w2,
      wp (network_backprop net mbd mbl;; free_matrix_double mbd;;
          free_matrix_double mbl;; rest) w2 Q)); [done|done|done|done|done|lia|lia|].
    intros p1 p2 B1 w2 Hg2 Hp1 Hp2 Hp12 H21 HdB1 [B2 H22].
    pose proof (grown_trans _ _ _ _ _ Hg Hg2) as Hg02.
    apply wp_bind. eapply wp_mono.
    { apply (network_backprop_run net _ _ w2 B1); [|done|done| |].
      - by apply (grown_net_ok w0 w2 (s + 2)).
      - cbn [nrows]. by rewrite Z.sub_0_r.
      - cbn [ncols]. lia. }
    intros [] w3 Hg3. cbn [ncols] in Hg3.
    pose proof (grown_trans _ _ _ _ _ Hg02 Hg3) as Hg03.
    destruct Hg3 as (_ & _ & _ & Hfr3 & _).
    assert (H31 : heap w3 !! p1 = Some B1).
    { rewrite Hfr3; [done|]. apply elem_of_dom. by rewrite H21. }
    assert (H32 : heap w3 !! p2 = Some B2).
    { rewrite Hfr3; [done|]. apply elem_of_dom. by rewrite H22. }
    apply wp_bind. eapply wp_free_matrix_double; [exact H31|].
    apply wp_bind. eapply wp_free_matrix_double.
    { cbn. by rewrite lookup_delete_ne. }
    apply HQ. destruct Hg03 as (Hf3 & Hc3 & Hr3 & Hfr03 & Hsz3).
    split; [done|]. split; [done|]. split; [done|]. cbn [heap set_heap data]. split.
    - intros p Hp. pose proof (Hfr p Hp) as Hpw.
      apply elem_of_dom in Hp as Hp'. destruct Hp' as [x Hx]. rewrite Hx in Hpw.
      rewrite !lookup_delete_ne by congruence. by apply Hfr03.
    - pose proof (size_dom_delete (delete p1 (heap w3)) p2) as Hs5.
      pose proof (size_dom_delete (heap w3) p1) as Hs4.
      rewrite lookup_delete_ne in Hs5 by done.
      rewrite H32 in Hs5. rewrite H31 in Hs4.
      specialize (Hs5 ltac:(done)). specialize (Hs4 ltac:(done)). lia. }
  intros mbd w1 Hrest. apply wp_bind. exact Hrest.
Qed.

(** The batch loop from [j] on: it returns, and what it leaves allocated
    is what an epoch over the remaining examples leaves. *)
Lemma wp_mini_batches (fuel : nat) (j : Z) (w : world) (s : Z) :
  grown w0 s w → 0 ≤ j ≤ ncols td → (Z.to_nat (ncols td - j) < fuel)%nat →
  wp (mini_batches fuel net td tl mbs (ncols td) j) w
    (λ _, grown w0 (s + epoch_leak (n_layers net) mbs (ncols td - j))).
Proof.
  revert j w s. induction fuel as [|fuel IH]; intros j w s Hg Hj Hfuel; [lia|].
  cbn [mini_batches]. destruct (decide (j < ncols td)) as [Hlt|Hge].
  2: { apply wp_ret. replace (ncols td - j) with 0 by lia.
       by rewrite epoch_leak_0, Z.add_0_r. }
  assert (Hint : in_int (j + mbs)).
  { unfold in_int, INT_MIN, INT_MAX in *. lia. }
  apply wp_bind. unfold int_add at 1. rewrite decide_True by done. apply wp_ret.
  cbv zeta. cbn [a b col]. destruct (decide (j + mbs > ncols td)) as [Hover|Hfit].
  - apply (wp_batch _ w s j (ncols td)); [done|lia|lia|lia|]. intros w' Hg'.
    apply wp_bind. unfold int_add. rewrite decide_True by done. apply wp_ret.
    destruct fuel as [|fuel']; [lia|]. cbn [mini_batches].
    rewrite decide_False by lia. apply wp_ret.
    by rewrite epoch_leak_rest by lia.
  - apply (wp_batch _ w s j (j + mbs)); [done|lia|lia|lia|]. intros w' Hg'.
    apply wp_bind. unfold int_add. rewrite decide_True by done. apply wp_ret.
    eapply wp_mono; [apply IH; [exact Hg'|lia|lia]|].
    intros [] w'' Hg''. cbv beta in Hg''.
    rewrite (epoch_leak_step _ mbs (ncols td - j)) by lia.
    replace (j + mbs - j) with mbs in Hg'' by lia.
    replace (ncols td - j - mbs) with (ncols td - (j + mbs)) by lia.
    by rewrite Z.add_assoc.
Qed.

End Batches.

Lemma dom_insert_same (h : gmap positive (list (list D))) p x :
  is_Some (h !! p) → dom (<[p := x]> h) = dom h.
Proof. intros Hp%elem_of_dom. rewrite dom_insert_L. set_solver. Qed.

Lemma has_dims_shuffled (b : list (list D)) r c n (g : rng) :
  has_dims b r c → has_dims ((λ rw, (fisher_yates n g rw).1) <$> b) r c.
Proof.
  intros [Hlen Hrows]. split; [by rewrite length_fmap|].
  apply Forall_fmap. eapply Forall_impl; [done|]. intros rw Hrw. cbn.
  by rewrite fisher_yates_length.
Qed.

Lemma shuffled_Permutation (b : list (list D)) n (g : rng) :
  Forall2 (≡ₚ) ((λ rw, (fisher_yates n g rw).1) <$> b) b.
Proof.
  apply Forall2_fmap_l, Forall_Forall2_diag, Forall_forall.
  intros rw _. apply fisher_yates_Permutation.
Qed.

(** X24.  Training returns when every batch fits the cleanup of
    [network_backprop]: for a well-formed network, data and labels of the
    same number of columns in storage of their own, no epoch count below
    zero and a batch size from 1 to the number of layers, [network_SGD]
    returns.  The data and the labels keep their dimensions and, row by
    row, their entries in another order; all other storage that was
    allocated (the parameters of the network with it), the files and the
    clock are as before; and every epoch leaves [epoch_leak] blocks
    allocated that nothing refers to any more. *)
Theorem network_SGD_returns (fuel : nat) (net : network) (td tl : matrix_double)
    (epochs mbs : Z) (eta : D) (w : world) (T L : list (list D)) :
  rand_lim_in_range → net_ok w net →
  heap w !! data td = Some T → has_dims T (nrows td) (ncols td) →
  heap w !! data tl = Some L → has_dims L (nrows tl) (ncols tl) →
  data td ≠ data tl → ncols td = ncols tl →
  data td ∉ net_addrs net → data tl ∉ net_addrs net →
  net_structure net !! 0%nat = Some (nrows td) →
  0 ≤ ncols td → 0 ≤ epochs → 1 ≤ mbs ≤ n_layers net → ncols td + mbs ≤ INT_MAX →
  (Z.to_nat (ncols td) < fuel)%nat →
  ∃ w' T' L',
    network_SGD fuel net td tl epochs mbs eta w = Done () w' ∧
    heap w' !! data td = Some T' ∧ has_dims T' (nrows td) (ncols td) ∧
    Forall2 (≡ₚ) T' T ∧
    heap w' !! data tl = Some L' ∧ has_dims L' (nrows tl) (ncols tl) ∧
    Forall2 (≡ₚ) L' L ∧
    (∀ p, p ∈ dom (heap w) → p ≠ data td → p ≠ data tl → heap w' !! p = heap w !! p) ∧
    Z.of_nat (size (dom (heap w')))
    = Z.of_nat (size (dom (heap w))) + epochs * epoch_leak (n_layers net) mbs (ncols td) ∧
    files w' = files w ∧ clock w' = clock w.
Proof.
  intros Hrange Hok HT HdT HL HdL Hne Hcols Htd Htl Hin HN Hep Hm Hmax Hfuel.
  set (E := λ (i : nat) (w' : world), ∃ T' L',
    heap w' !! data td = Some T' ∧ has_dims T' (nrows td) (ncols td) ∧
    Forall2 (≡ₚ) T' T ∧
    heap w' !! data tl = Some L' ∧ has_dims L' (nrows tl) (ncols tl) ∧
    Forall2 (≡ₚ) L' L ∧
    (∀ p, p ∈ dom (heap w) → p ≠ data td → p ≠ data tl → heap w' !! p = heap w !! p) ∧
    Z.of_nat (size (dom (heap w')))
    = Z.of_nat (size (dom (heap w)))
      + Z.of_nat i * epoch_leak (n_layers net) mbs (ncols td) ∧
    files w' = files w ∧ clock w' = clock w).
  assert (wp (network_SGD fuel net td tl epochs mbs eta) w (λ _, E (Z.to_nat epochs)))
    as ([] & w' & Hrun & T' & L' & HE).
  2: { exists w', T', L'. split; [done|]. by rewrite Z2Nat.id in HE. }
  unfold network_SGD. cbv zeta. apply (wp_for_range E).
  - exists T, L. repeat (split; [done|]). split; [lia|done].
  - intros k w1 _ (T1 & L1 & HT1 & HdT1 & HpT1 & HL1 & HdL1 & HpL1 & Hfr1 & Hsz1 & Hf1 & Hc1).
    apply wp_bind.
    pose proof (shuffle_data_spec td tl T1 L1 w1 Hrange HT1 HdT1 HL1 HdL1 Hne Hcols) as Hsh.
    cbv zeta in Hsh. set (n := Z.to_nat (ncols td - 1)) in *.
    set (T2 := (λ rw, (fisher_yates n (rand w1) rw).1) <$> T1) in *.
    set (L2 := (λ rw, (fisher_yates n (rand w1) rw).1) <$> L1) in *.
    set (w2 := World _ _ _ _) in Hsh.
    exists (), w2. split; [exact Hsh|].
    assert (HT2 : heap w2 !! data td = Some T2).
    { cbn. by rewrite lookup_insert_ne, lookup_insert_eq. }
    assert (HL2 : heap w2 !! data tl = Some L2) by (cbn; by rewrite lookup_insert_eq).
    assert (Hother : ∀ p, p ≠ data td → p ≠ data tl → heap w2 !! p = heap w1 !! p).
    { intros p Hpd Hpl. cbn. by rewrite !lookup_insert_ne. }
    assert (Hok2 : net_ok w2 net).
    { apply (net_ok_frame w); [done|]. intros p Hp.
      rewrite Hother by (intros ->; done).
      apply Hfr1; [by apply (net_ok_allocated w net)|by intros ->..]. }
    assert (Hdom2 : dom (heap w2) = dom (heap w1)).
    { cbn. rewrite dom_insert_same; [by apply dom_insert_same; rewrite HT1|].
      rewrite lookup_insert_ne by done. by rewrite HL1. }
    eapply wp_mono.
    { apply (wp_mini_batches net td tl w2 T2 L2 mbs Hok2 HT2 (has_dims_shuffled _ _ _ _ _ HdT1)
               HL2 (has_dims_shuffled _ _ _ _ _ HdL1) Hcols Hin Hm Hmax fuel 0 w2 0).
      - by repeat split; try done; lia.
      - lia.
      - by rewrite Z.sub_0_r. }
    intros [] w3 (Hf3 & Hc3 & _ & Hfr3 & Hsz3). rewrite Z.sub_0_r, Z.add_0_l in Hsz3.
    exists T2, L2.
    split; [rewrite Hfr3; [done|by apply elem_of_dom; rewrite HT2]|].
    split; [by apply has_dims_shuffled|].
    split; [etrans; [apply shuffled_Permutation|done]|].
    split; [rewrite Hfr3; [done|by apply elem_of_dom; rewrite HL2]|].
    split; [by apply has_dims_shuffled|].
    split; [etrans; [apply shuffled_Permutation|done]|].
    split.
    { intros p Hp Hpd Hpl. rewrite <- (Hfr1 p Hp Hpd Hpl), <- (Hother p Hpd Hpl).
      apply Hfr3. rewrite Hdom2. apply elem_of_dom. rewrite (Hfr1 p Hp Hpd Hpl).
      by apply elem_of_dom. }
    split; [|split; [by rewrite Hf3|by rewrite Hc3]].
    rewrite Hsz3, Hdom2, Hsz1. lia.
  - intros w' HE. rewrite Z.sub_0_r in HE. exact HE.
Qed.

Lemma bind_stuck {A B} (m : M A) (k : A → M B) (w : world) :
  wp m w (λ x w', k x w' = Undefined) → (m ≫= k) w = Undefined.
Proof. intros (x & w' & Hrun & Hk). by rewrite (bind_Done _ _ _ _ _ Hrun). Qed.

(** X25.  Training with batches wider than the network is deep is
    undefined: for a well-formed network, data and labels in storage of
    their own, at least one epoch, and both the batch size and the number
    of examples above the number of layers, the first batch already takes
    the cleanup of [network_backprop] past its arrays. *)
Theorem network_SGD_wide_batch (fuel : nat) (net : network) (td tl : matrix_double)
    (epochs mbs : Z) (eta : D) (w : world) (T L : list (list D)) :
  rand_lim_in_range → net_ok w net →
  heap w !! data td = Some T → has_dims T (nrows td) (ncols td) →
  heap w !! data tl = Some L → has_dims L (nrows tl) (ncols tl) →
  data td ≠ data tl → ncols td = ncols tl →
  data td ∉ net_addrs net → data tl ∉ net_addrs net →
  net_structure net !! 0%nat = Some (nrows td) →
  1 ≤ epochs → n_layers net < mbs → n_layers net < ncols td →
  (1 ≤ fuel)%nat →
  network_SGD fuel net td tl epochs mbs eta w = Undefined.
Proof.
  intros Hrange Hok HT HdT HL HdL Hne Hcols Htd Htl Hin Hep Hm HN Hfuel.
  pose proof (ok_structure w net Hok) as Hlen.
  unfold network_SGD. cbv zeta.
  apply (for_range_stuck _ _ _ _ 0 (λ _ w', w' = w)); [lia|done|intros; lia|].
  intros ? ->. cbn [Z.of_nat Z.add].
  pose proof (shuffle_data_spec td tl T L w Hrange HT HdT HL HdL Hne Hcols) as Hsh.
  cbv zeta in Hsh. set (n := Z.to_nat (ncols td - 1)) in *.
  set (T2 := (λ rw, (fisher_yates n (rand w) rw).1) <$> T) in *.
  set (L2 := (λ rw, (fisher_yates n (rand w) rw).1) <$> L) in *.
  set (w2 := World _ _ _ _) in Hsh.
  rewrite (bind_Done _ _ _ _ _ Hsh).
  assert (HT2 : heap w2 !! data td = Some T2).
  { cbn. by rewrite lookup_insert_ne, lookup_insert_eq. }
  assert (HL2 : heap w2 !! data tl = Some L2) by (cbn; by rewrite lookup_insert_eq).
  assert (Hok2 : net_ok w2 net).
  { apply (net_ok_frame w); [done|]. intros p Hp. cbn.
    assert (p ≠ data td) by (by intros ->). assert (p ≠ data tl) by (by intros ->).
    by rewrite !lookup_insert_ne. }
  destruct fuel as [|fuel]; [lia|]. cbn [mini_batches].
  rewrite decide_True by lia.
  destruct (decide (in_int (0 + mbs))) as [Hint|Hint].
  2: { apply bind_Undefined. unfold int_add. by rewrite decide_False. }
  erewrite bind_Done; [|unfold int_add; by rewrite decide_True].
  cbv zeta. cbn [a b col].
  set (k := if decide (0 + mbs > ncols td) then ncols td else 0 + mbs).
  assert (n_layers net < k ≤ ncols td) as Hk by (unfold k; case_decide; lia).
  apply bind_stuck. eapply wp_mono.
  { apply (wp_sections td tl T2 L2 w2 0 k (λ mbd mbl w3,
      (network_backprop net mbd mbl;; free_matrix_double mbd;;
       free_matrix_double mbl;; j ← int_add 0 mbs;
       mini_batches fuel net td tl mbs (ncols td) j) w3 = Undefined));
      [done|by apply has_dims_shuffled|done|by apply has_dims_shuffled|done|lia|lia|].
    intros p1 p2 B1 w3 Hg3 Hp1 Hp2 Hp12 H31 HdB1 _.
    apply bind_Undefined.
    assert (Hok3 : net_ok w3 (net)) by (by apply (grown_net_ok w2 w3 2)).
    set (mbd := Matrix p1 (nrows td - 0) (k - 0)).
    assert (Hin' : net_structure net !! 0%nat = Some (nrows mbd))
      by (cbn [nrows mbd]; by rewrite Z.sub_0_r).
    assert (Hc : 1 ≤ ncols mbd) by (cbn [ncols mbd]; lia).
    destruct (backprop_main net mbd (Matrix p2 (nrows tl - 0) (k - 0)) w3 B1
                Hok3 H31 HdB1 Hin' Hc)
      as (zs & activs & addr & mc & w4 & Htr & Hmc & Heq).
    rewrite Heq.
    apply (backprop_cleanup_stuck net mbd w3 Hok3 Hin' Hc zs activs addr mc w4 Htr Hmc).
    cbn [ncols mbd]. lia. }
  intros mbd w3 Hrest. apply bind_stuck. exact Hrest.
Qed.

End Training.
(** * Concrete runs *)

Lemma net11_ok {D : Type} `{Smp : Sampler D} (bias wt : D) (r : rng) :
  net_ok (world11 bias wt r) net11.
Proof.
  split; cbn.
  - reflexivity.
  - repeat constructor; lia.
  - reflexivity.
  - reflexivity.
  - intros l Hl. assert (l = 0%nat) as -> by lia.
    exists (Matrix 2 1 1), (Matrix 1 1 1), 1, 1. split; [by split|]. split.
    + exists [[wt]]. split; [reflexivity|]. split; [reflexivity|]. by repeat constructor.
    + exists [[bias]]. split; [reflexivity|]. split; [reflexivity|]. by repeat constructor.
  - unfold net_addrs. cbn. apply NoDup_cons. split; [set_solver|]. apply NoDup_singleton.
Defined.

Lemma lcg_rand_lim_in_range {D : Type} `{DblOps : Double D} (of_Z : Z → D) :
  @rand_lim_in_range D (lcg_sampler of_Z).
Proof.
  intros limit r Hlimit. cbn. unfold lcg_rand_lim. cbn [fst].
  pose proof (Z.mod_pos_bound (lcg r) (limit + 1)). lia.
Defined.

Section Runs.
Import Binary64 PrimFloat.
#[local] Existing Instance float_sampler.

Lemma create_network_shape_witness :
  ∃ net w', create_network 3 [2; 3; 1] (boot 0 1) = Done net w' ∧
    ∀ l : nat, (l < Z.to_nat (3 - 1))%nat →
      ∃ wm bm, weights net !! l = Some (Some wm) ∧ biases net !! l = Some (Some bm) ∧
        [2; 3; 1] !! S l = Some (nrows wm) ∧ [2; 3; 1] !! l = Some (ncols wm) ∧
        [2; 3; 1] !! S l = Some (nrows bm) ∧ ncols bm = 1 ∧
        matrix_ok w' wm ∧ matrix_ok w' bm.
Proof.
  apply (create_network_shape 3 [2; 3; 1] (boot 0 1)); [lia|reflexivity|].
  repeat constructor.
Defined.

(** C7 fails on the code: a schedule of one layer, and one with a layer of
    no neurons, both give a network. *)
Lemma create_network_unchecked :
  create_network 1 [3] (boot 0 1) = Done (Network 1 [] [] [3]) (boot 0 1) ∧
  ∃ w', create_network 2 [2; 0] (boot 0 1)
        = Done (Network 2 [Some (Matrix 1 0 1)] [Some (Matrix 2 0 2)] [2; 0]) w'.
Proof. split; [reflexivity|]. eexists. reflexivity. Qed.

Lemma create_network_returns_witness :
  ∃ net w', create_network 1 [3] (boot 0 1) = Done net w' ∧
    n_layers net = 1 ∧ net_structure net = take (Z.to_nat 1) [3].
Proof.
  apply (create_network_returns 1 [3] (boot 0 1)); [cbn; lia|].
  cbn. constructor; [lia|constructor].
Defined.

(** A network whose one neuron has the bias 5 and the weight 2: on the
    input 0 the output is [sigmoid (2 * 0) = 1/2], not [sigmoid 5]. *)
Lemma feedforward_spec_witness :
  feedforward net11 [0%float] (world11 (Smp:=float_sampler) 5%float 2%float 1)
  = Done [0.5%float] (world11 (Smp:=float_sampler) 5%float 2%float 1).
Proof.
  rewrite (feedforward_spec net11 [0%float] (world11 (Smp:=float_sampler) 5%float 2%float 1)
             [[[2%float]]]);
    [vm_compute; reflexivity|apply net11_ok|cbn; lia|reflexivity|reflexivity].
Defined.

Lemma feedforward_range_witness :
  ∃ out, feedforward net11 [40%float] (world11 (Smp:=float_sampler) 0%float 1%float 1)
         = Done out (world11 (Smp:=float_sampler) 0%float 1%float 1) ∧
         Forall unit_or_nan out.
Proof.
  apply (feedforward_range exp net11 [40%float]
           (world11 (Smp:=float_sampler) 0%float 1%float 1) [[[1%float]]]);
    [apply net11_ok|cbn; lia|reflexivity|reflexivity|].
  apply Forall_singleton. right. vm_compute. reflexivity.
Defined.

(** C10 fails on binary64 numbers: [exp (-40)] is below half an ulp of 1,
    so [1 + exp (-40)] rounds to 1 and the output is 1 exactly, which is
    not below 1.  And an input that is not a number gives an output that
    is not a number, which is in no interval. *)
Lemma feedforward_saturates :
  feedforward net11 [40%float] (world11 (Smp:=float_sampler) 0%float 1%float 1)
  = Done [1%float] (world11 (Smp:=float_sampler) 0%float 1%float 1) ∧
  (1 <? 1)%float = false ∧
  feedforward net11 [nan] (world11 (Smp:=float_sampler) 0%float 1%float 1)
  = Done [nan] (world11 (Smp:=float_sampler) 0%float 1%float 1) ∧
  (0 <? nan)%float = false.
Proof. repeat split; reflexivity. Qed.

Lemma shuffle_data_aligned_witness :
  ∃ w' bd' bl' (σ : list nat),
    shuffle_data data23 labels13 (corpus 7) = Done () w' ∧
    heap w' !! data data23 = Some bd' ∧ heap w' !! data labels13 = Some bl' ∧
    σ = (fisher_yates (Z.to_nat (ncols data23 - 1)) (rand (corpus 7))
           (seq 0 (Z.to_nat (ncols data23)))).1 ∧
    σ ≡ₚ seq 0 (Z.to_nat (ncols data23)) ∧
    ∀ r k : nat, (k < Z.to_nat (ncols data23))%nat →
      bd' !! r ≫= (λ rw, rw !! k)
        = [[1; 2; 3]%float; [4; 5; 6]%float] !! r ≫= (λ rw, rw !! (σ !!! k)) ∧
      bl' !! r ≫= (λ rw, rw !! k) = [[10; 20; 30]%float] !! r ≫= (λ rw, rw !! (σ !!! k)).
Proof.
  apply (shuffle_data_aligned data23 labels13 _ _ (corpus 7)).
  - apply lcg_rand_lim_in_range.
  - reflexivity.
  - split; [reflexivity|]. by repeat constructor.
  - reflexivity.
  - split; [reflexivity|]. by repeat constructor.
  - discriminate.
  - reflexivity.
  - reflexivity.
Defined.

Lemma network_SGD_keeps_parameters_witness :
  heap (final (network_SGD 3 net11 examples12 targets12 1 2 0.5%float classroom)
          classroom) !! 1%positive
  = heap classroom !! 1%positive ∧
  heap (final (network_SGD 3 net11 examples12 targets12 1 2 0.5%float classroom)
          classroom) !! 2%positive
  = heap classroom !! 2%positive.
Proof.
  assert (Hkeeps : ∀ p, p ∈ net_addrs net11 →
    heap (final (network_SGD 3 net11 examples12 targets12 1 2 0.5%float classroom)
            classroom) !! p
    = heap classroom !! p).
  { apply (network_SGD_keeps_parameters 3 net11 examples12 targets12 1 2 0.5%float classroom).
    - intros p Hp. unfold net_addrs in Hp. cbn in Hp.
      apply elem_of_cons in Hp as [->|Hp]; [by eexists|].
      apply elem_of_cons in Hp as [->|Hp]; [by eexists|]. by apply elem_of_nil in Hp.
    - unfold net_addrs. cbn. intros Hin.
      apply elem_of_cons in Hin as [?|Hin]; [done|].
      apply elem_of_cons in Hin as [?|Hin]; [done|]. by apply elem_of_nil in Hin.
    - unfold net_addrs. cbn. intros Hin.
      apply elem_of_cons in Hin as [?|Hin]; [done|].
      apply elem_of_cons in Hin as [?|Hin]; [done|]. by apply elem_of_nil in Hin.
    - vm_compute. reflexivity. }
  split; apply Hkeeps; unfold net_addrs; cbn; repeat constructor.
Defined.

Lemma network_SGD_batch_size_witness :
  network_SGD 3 net11 examples12 targets12 1 5 0.5%float classroom
  = network_SGD 3 net11 examples12 targets12 1 (ncols examples12) 0.5%float classroom ∧
  mini_batches 3 net11 no_examples no_targets (-1) (ncols no_examples) 0 = mret () ∧
  network_SGD 3 net11 no_examples no_targets 4 (-1) 0.5%float recess = Done () recess.
Proof.
  split.
  - apply (proj1 (network_SGD_batch_size 3 net11 examples12 targets12 1 5 0.5%float classroom));
      cbn; unfold INT_MAX; lia.
  - apply (proj2 (network_SGD_batch_size 2 net11 no_examples no_targets 4 (-1) 0.5%float recess)).
    reflexivity.
Defined.

(** C6 fails on the code for a mini-batch size of 0: the call is not
    refused and the size is not clamped.  The first mini-batch is empty,
    [network_backprop] skips its loop and releases [costs], which was never
    assigned, so with no amount of fuel does the call return; with the
    sizes 1 and 2 that a clamp could choose for two examples, it does. *)
Lemma network_SGD_zero_batch_size :
  (¬ ∃ fuel, returns (network_SGD fuel net11 examples12 targets12 1 0 0.5%float classroom)
             = true) ∧
  returns (network_SGD 3 net11 examples12 targets12 1 1 0.5%float classroom) = true ∧
  returns (network_SGD 3 net11 examples12 targets12 1 2 0.5%float classroom) = true.
Proof.
  split; [|split; vm_compute; reflexivity].
  intros [fuel Hret]. destruct fuel; vm_compute in Hret; discriminate.
Qed.

Lemma set_random_weights_biases_by_clock_witness :
  ∃ w1' w2',
    set_random_weights_biases net11 (world11 (Smp:=float_sampler) 0%float 1%float 1)
      = Done () w1' ∧
    set_random_weights_biases net11 (world11 (Smp:=float_sampler) 5%float 7%float 9)
      = Done () w2' ∧
    ∀ l wm1 bm1 wm2 bm2,
      weights net11 !! l = Some (Some wm1) → biases net11 !! l = Some (Some bm1) →
      weights net11 !! l = Some (Some wm2) → biases net11 !! l = Some (Some bm2) →
      is_Some (heap w1' !! data wm1) ∧ is_Some (heap w1' !! data bm1) ∧
      heap w1' !! data wm1 = heap w2' !! data wm2 ∧
      heap w1' !! data bm1 = heap w2' !! data bm2.
Proof.
  apply (set_random_weights_biases_by_clock net11 net11
           (world11 (Smp:=float_sampler) 0%float 1%float 1)
           (world11 (Smp:=float_sampler) 5%float 7%float 9));
    [apply net11_ok|apply net11_ok|reflexivity|reflexivity|reflexivity].
Defined.

(** C9 fails on the code: the caller supplies no seed.  With one network,
    one memory and one state of the generator, the weight written when the
    clock reads 0 is below 1 and the weight written when it reads 1 is
    not. *)
Lemma set_random_weights_biases_time_seeded :
  heap (final (set_random_weights_biases net11
                 (at_time 0 (world11 (Smp:=float_sampler) 0%float 1%float 1))) (boot 0 0))
    !! 2%positive
  ≠ heap (final (set_random_weights_biases net11
                   (at_time 1 (world11 (Smp:=float_sampler) 0%float 1%float 1))) (boot 0 0))
      !! 2%positive.
Proof.
  intros Heq.
  pose proof (f_equal (λ o : option (list (list float)),
                         match o with Some [[x]] => (x <? 1)%float | _ => false end) Heq) as Hlt.
  vm_compute in Hlt. discriminate.
Qed.

Lemma load_save_round_trip_witness :
  ∃ w1 net' w2,
    save_network net11 "net.bin" (world11 (Smp:=float_sampler) 0.5%float (-1.25)%float 1)
      = Done () w1 ∧
    load_network "net.bin" w1 = Done net' w2 ∧
    n_layers net' = n_layers net11 ∧
    net_structure net' = net_structure net11 ∧
    ∀ l : nat, (l < Z.to_nat (n_layers net11 - 1))%nat →
      ∃ wm bm wm' bm' W B,
        weights net11 !! l = Some (Some wm) ∧ biases net11 !! l = Some (Some bm) ∧
        weights net' !! l = Some (Some wm') ∧ biases net' !! l = Some (Some bm') ∧
        nrows wm' = nrows wm ∧ ncols wm' = ncols wm ∧
        nrows bm' = nrows bm ∧ ncols bm' = ncols bm ∧
        heap (world11 (Smp:=float_sampler) 0.5%float (-1.25)%float 1) !! data wm = Some W ∧
        heap w2 !! data wm' = Some W ∧
        heap (world11 (Smp:=float_sampler) 0.5%float (-1.25)%float 1) !! data bm = Some B ∧
        heap w2 !! data bm' = Some B.
Proof.
  apply (load_save_round_trip net11 "net.bin"
           (world11 (Smp:=float_sampler) 0.5%float (-1.25)%float 1)).
  - apply net11_ok.
  - cbn. unfold in_int, INT_MIN, INT_MAX. lia.
  - cbn. repeat constructor; unfold INT_MIN, INT_MAX; lia.
Defined.

(** The file [save_network] writes for the network of two layers of one
    neuron with the bias 0.5 and the weight -1.25: three [int]s and two
    [double]s. *)
Lemma save_network_bytes :
  files (final (save_network net11 "net.bin"
                  (world11 (Smp:=float_sampler) 0.5%float (-1.25)%float 1)) (boot 0 0))
    !! "net.bin"%string
  = Some [2; 0; 0; 0;  1; 0; 0; 0;  1; 0; 0; 0;
          0; 0; 0; 0; 0; 0; 224; 63;  0; 0; 0; 0; 0; 0; 244; 191].
Proof. vm_compute. reflexivity. Qed.

Lemma load_network_truncated_witness :
  ∃ net w',
    load_network "torn.bin" torn = Done net w' ∧ n_layers net = 2 ∧
    net_structure net = [1; 1] ∧
    ∃ w0, create_network 2 [1; 1] torn = Done net w0 ∧
      heap w' = (fill_heap fread_next (layer_handles net) (bytes 0.5%float ++ [0; 0; 0])
                   (heap w0)).1.
Proof.
  apply (load_network_truncated "torn.bin" torn 2 [1; 1] (bytes 0.5%float ++ [0; 0; 0])).
  - unfold torn, header11. cbn [files]. rewrite lookup_insert_eq. by rewrite <- app_assoc.
  - unfold in_int, INT_MIN, INT_MAX. lia.
  - repeat constructor; unfold INT_MIN, INT_MAX; lia.
  - reflexivity.
  - repeat constructor; lia.
Defined.

(** C8 fails on the code.  [cut.bin] declares a network of one bias and
    one weight and holds one number.  [load_network] returns as it does on
    the whole file, with a network of the same handles; the bias is the
    number read and the weight is what the allocation left there, where
    the whole file gives -1.25. *)
Lemma load_network_partial :
  ∃ w' w'',
    load_network "cut.bin" shelf
      = Done (Network 2 [Some (Matrix 1 1 1)] [Some (Matrix 2 1 1)] [1; 1]) w' ∧
    heap w' !! 1%positive = Some [[0.5%float]] ∧
    heap w' !! 2%positive = Some [[d_uninit]] ∧
    load_network "whole.bin" shelf
      = Done (Network 2 [Some (Matrix 1 1 1)] [Some (Matrix 2 1 1)] [1; 1]) w'' ∧
    heap w'' !! 1%positive = Some [[0.5%float]] ∧
    heap w'' !! 2%positive = Some [[(-1.25)%float]].
Proof.
  exists (final (load_network "cut.bin" shelf) shelf),
         (final (load_network "whole.bin" shelf) shelf).
  repeat split; vm_compute; reflexivity.
Qed.

End Runs.

(** * More concrete runs *)

Lemma net11_ok_classroom : net_ok classroom net11.
Proof.
  split; cbn.
  - reflexivity.
  - repeat constructor; lia.
  - reflexivity.
  - reflexivity.
  - intros l Hl. assert (l = 0%nat) as -> by lia.
    exists (Matrix 2 1 1), (Matrix 1 1 1), 1, 1. split; [by split|]. split.
    + eexists. split; [reflexivity|]. split; [reflexivity|]. by repeat constructor.
    + eexists. split; [reflexivity|]. split; [reflexivity|]. by repeat constructor.
  - unfold net_addrs. cbn. apply NoDup_cons. split; [set_solver|]. apply NoDup_singleton.
Defined.

Lemma net11_ok_crowd : net_ok crowd net11.
Proof.
  split; cbn.
  - reflexivity.
  - repeat constructor; lia.
  - reflexivity.
  - reflexivity.
  - intros l Hl. assert (l = 0%nat) as -> by lia.
    exists (Matrix 2 1 1), (Matrix 1 1 1), 1, 1. split; [by split|]. split.
    + eexists. split; [reflexivity|]. split; [reflexivity|]. by repeat constructor.
    + eexists. split; [reflexivity|]. split; [reflexivity|]. by repeat constructor.
  - unfold net_addrs. cbn. apply NoDup_cons. split; [set_solver|]. apply NoDup_singleton.
Defined.

Lemma net1_ok {D : Type} `{Smp : Sampler D} (w : world) : net_ok w net1.
Proof.
  split; cbn.
  - reflexivity.
  - repeat constructor; lia.
  - reflexivity.
  - reflexivity.
  - intros l Hl. lia.
  - constructor.
Defined.

Lemma net11_ok_assembly : net_ok assembly net11.
Proof.
  split; cbn.
  - reflexivity.
  - repeat constructor; lia.
  - reflexivity.
  - reflexivity.
  - intros l Hl. assert (l = 0%nat) as -> by lia.
    exists (Matrix 2 1 1), (Matrix 1 1 1), 1, 1. split; [by split|]. split.
    + eexists. split; [reflexivity|]. split; [reflexivity|]. by repeat constructor.
    + eexists. split; [reflexivity|]. split; [reflexivity|]. by repeat constructor.
  - unfold net_addrs. cbn. apply NoDup_cons. split; [set_solver|]. apply NoDup_singleton.
Defined.

Section RunsMore.
Import Binary64 PrimFloat.
#[local] Existing Instance float_sampler.

Lemma sigma_between_witness :
  (0 <=? sigma 40)%float = true ∧ (sigma 40 <=? 1)%float = true.
Proof.
  apply (sigma_between exp 40%float).
  - right. vm_compute. reflexivity.
  - vm_compute. reflexivity.
Defined.



Lemma create_destroy_network_witness :
  (create_network 3 [2; 3; 1] ≫= destroy_network) (boot 0 1) = Done () (boot 0 1).
Proof.
  apply (create_destroy_network 3 [2; 3; 1] (boot 0 1)); [reflexivity|].
  repeat constructor; lia.
Defined.

Lemma destroy_network_twice_witness :
  (destroy_network net11;; destroy_network net11)
    (world11 (Smp:=float_sampler) 0%float 1%float 1) = Undefined.
Proof.
  apply (destroy_network_twice net11 (world11 (Smp:=float_sampler) 0%float 1%float 1));
    [apply net11_ok|cbn; lia].
Defined.

Lemma vectorized_sigma_spec_witness :
  vectorized_sigma (Matrix 2 1 1) (world11 (Smp:=float_sampler) 0%float 1%float 1)
  = Done () (set_heap (<[2%positive := (λ rw : list float, sigma <$> rw) <$> [[1%float]]]>
                         (heap (world11 (Smp:=float_sampler) 0%float 1%float 1)))
               (world11 (Smp:=float_sampler) 0%float 1%float 1)).
Proof.
  apply (vectorized_sigma_spec (Matrix 2 1 1) [[1%float]]
           (world11 (Smp:=float_sampler) 0%float 1%float 1)); [reflexivity|].
  split; [reflexivity|]. by repeat constructor.
Defined.

Lemma set_random_weights_biases_keeps_shape_witness :
  ∃ w', set_random_weights_biases net11 (world11 (Smp:=float_sampler) 0%float 1%float 1)
        = Done () w' ∧ net_ok w' net11 ∧
    (∀ p, p ∉ net_addrs net11 →
       heap w' !! p = heap (world11 (Smp:=float_sampler) 0%float 1%float 1) !! p) ∧
    files w' = files (world11 (Smp:=float_sampler) 0%float 1%float 1) ∧
    clock w' = clock (world11 (Smp:=float_sampler) 0%float 1%float 1) ∧
    rand w' = rand (world11 (Smp:=float_sampler) 0%float 1%float 1).
Proof.
  apply (set_random_weights_biases_keeps_shape net11
           (world11 (Smp:=float_sampler) 0%float 1%float 1)).
  apply net11_ok.
Defined.

Lemma set_random_weights_biases_draws_witness :
  ∃ w', set_random_weights_biases net11 (world11 (Smp:=float_sampler) 0%float 1%float 1)
        = Done () w' ∧
    parameters (layer_blocks (heap w') (layer_handles net11))
    = (gauss_draws
         (length (parameters
                    (layer_blocks (heap (world11 (Smp:=float_sampler) 0%float 1%float 1))
                       (layer_handles net11))))
         (clock (world11 (Smp:=float_sampler) 0%float 1%float 1))).1.
Proof.
  apply (set_random_weights_biases_draws net11
           (world11 (Smp:=float_sampler) 0%float 1%float 1)).
  apply net11_ok.
Defined.

Lemma save_network_only_file_witness :
  ∃ w', save_network net11 "net.bin" (world11 (Smp:=float_sampler) 0.5%float (-1.25)%float 1)
        = Done () w' ∧
    files w' !! "net.bin"%string
    = Some (file_image (n_layers net11) (net_structure net11)
              (layer_blocks (heap (world11 (Smp:=float_sampler) 0.5%float (-1.25)%float 1))
                 (layer_handles net11))) ∧
    (∀ g, g ≠ "net.bin"%string →
       files w' !! g
       = files (world11 (Smp:=float_sampler) 0.5%float (-1.25)%float 1) !! g) ∧
    heap w' = heap (world11 (Smp:=float_sampler) 0.5%float (-1.25)%float 1) ∧
    clock w' = clock (world11 (Smp:=float_sampler) 0.5%float (-1.25)%float 1) ∧
    rand w' = rand (world11 (Smp:=float_sampler) 0.5%float (-1.25)%float 1).
Proof.
  apply (save_network_only_file net11 "net.bin"
           (world11 (Smp:=float_sampler) 0.5%float (-1.25)%float 1)).
  apply net11_ok.
Defined.

Lemma save_network_size_witness :
  ∃ w' bs,
    save_network net11 "net.bin" (world11 (Smp:=float_sampler) 0.5%float (-1.25)%float 1)
    = Done () w' ∧ files w' !! "net.bin"%string = Some bs ∧
    Z.of_nat (length bs) = 4 * (1 + n_layers net11) + 8 * param_count (net_structure net11).
Proof.
  apply (save_network_size net11 "net.bin"
           (world11 (Smp:=float_sampler) 0.5%float (-1.25)%float 1)).
  apply net11_ok.
Defined.

Lemma load_network_fresh_witness :
  ∃ net w',
    load_network "whole.bin" shelf = Done net w' ∧ net_ok w' net ∧
    n_layers net = 2 ∧ net_structure net = [1; 1] ∧
    (∀ p, p ∈ net_addrs net → heap shelf !! p = None) ∧
    (∀ p, p ∈ dom (heap shelf) → heap w' !! p = heap shelf !! p) ∧
    files w' = files shelf ∧ clock w' = clock shelf ∧ rand w' = rand shelf.
Proof.
  apply (load_network_fresh "whole.bin" shelf 2 [1; 1]
           (bytes 0.5%float ++ bytes (-1.25)%float)).
  - vm_compute. reflexivity.
  - unfold in_int, INT_MIN, INT_MAX. lia.
  - repeat constructor; unfold INT_MIN, INT_MAX; lia.
  - reflexivity.
  - repeat constructor; lia.
Defined.

Lemma save_load_save_witness :
  ∃ w1 net' w2 w3 bs,
    save_network net11 "a.bin" (world11 (Smp:=float_sampler) 0.5%float (-1.25)%float 1)
    = Done () w1 ∧
    load_network "a.bin" w1 = Done net' w2 ∧
    save_network net' "b.bin" w2 = Done () w3 ∧
    files w1 !! "a.bin"%string = Some bs ∧ files w3 !! "b.bin"%string = Some bs.
Proof.
  apply (save_load_save net11 "a.bin" "b.bin"
           (world11 (Smp:=float_sampler) 0.5%float (-1.25)%float 1)).
  - apply net11_ok.
  - cbn. unfold in_int, INT_MIN, INT_MAX. lia.
  - cbn. repeat constructor; unfold INT_MIN, INT_MAX; lia.
Defined.

Lemma load_network_no_header_witness :
  load_network "none.bin" scraps = Undefined ∧
  load_network "short.bin" scraps = Undefined ∧
  load_network "sizes.bin" scraps = Undefined.
Proof.
  split; [|split].
  - apply (load_network_no_header "none.bin" scraps). left. reflexivity.
  - apply (load_network_no_header "short.bin" scraps). right. left.
    exists [2; 0]. split; [reflexivity|cbn; lia].
  - apply (load_network_no_header "sizes.bin" scraps). right. right.
    exists 3, (int_bytes 2). split; [reflexivity|].
    split; [unfold in_int, INT_MIN, INT_MAX; lia|cbn; lia].
Defined.

Lemma network_backprop_empty_batch_witness :
  network_backprop net11 no_examples no_targets recess = Undefined.
Proof. apply (network_backprop_empty_batch net11 no_examples no_targets recess). cbn. lia. Defined.

Lemma network_SGD_no_epochs_witness :
  network_SGD 0 net11 examples12 targets12 0 2 0.5%float classroom = Done () classroom.
Proof.
  apply (network_SGD_no_epochs 0 net11 examples12 targets12 0 2 0.5%float classroom). lia.
Defined.

Lemma network_SGD_nonpositive_batch_witness :
  network_SGD 3 net11 examples12 targets12 1 0 0.5%float classroom ≠ Done () classroom.
Proof.
  apply (network_SGD_nonpositive_batch 3 net11 examples12 targets12 1 0 0.5%float
           classroom classroom); cbn; lia.
Defined.

Lemma network_SGD_terminates_witness :
  network_SGD 3 net11 examples12 targets12 1 1 0.5%float classroom ≠ OutOfFuel.
Proof.
  apply (network_SGD_terminates 3 net11 examples12 targets12 1 1 0.5%float classroom);
    cbn; lia.
Defined.

Lemma shuffle_data_keeps_shape_witness :
  ∃ w' bd' bl',
    shuffle_data data23 labels13 (corpus 7) = Done () w' ∧
    heap w' !! data data23 = Some bd' ∧ has_dims bd' (nrows data23) (ncols data23) ∧
    heap w' !! data labels13 = Some bl' ∧ has_dims bl' (nrows labels13) (ncols labels13) ∧
    Forall2 (≡ₚ) bd' [[1; 2; 3]%float; [4; 5; 6]%float] ∧
    Forall2 (≡ₚ) bl' [[10; 20; 30]%float] ∧
    (∀ p, p ≠ data data23 → p ≠ data labels13 → heap w' !! p = heap (corpus 7) !! p) ∧
    files w' = files (corpus 7) ∧ clock w' = clock (corpus 7) ∧
    rand w' = rand_after (Z.to_nat (ncols data23 - 1)) (rand (corpus 7)).
Proof.
  apply (shuffle_data_keeps_shape data23 labels13 _ _ (corpus 7)).
  - apply lcg_rand_lim_in_range.
  - reflexivity.
  - split; [reflexivity|]. by repeat constructor.
  - reflexivity.
  - split; [reflexivity|]. by repeat constructor.
  - discriminate.
  - reflexivity.
Defined.

Lemma shuffle_data_small_witness : shuffle_data no_examples no_targets recess = Done () recess.
Proof. apply (shuffle_data_small no_examples no_targets recess). cbn. lia. Defined.

Lemma feedforward_single_layer_witness :
  feedforward net1 [0.5; -0.25]%float (boot 0 1) = Done [0.5; -0.25]%float (boot 0 1).
Proof.
  apply (feedforward_single_layer net1 [0.5; -0.25]%float (boot 0 1));
    [apply net1_ok|reflexivity|reflexivity].
Defined.

Lemma network_backprop_wide_batch_witness :
  network_backprop net11 triples targets12 crowd = Undefined.
Proof.
  apply (network_backprop_wide_batch net11 triples targets12 crowd [[0.5; -0.25; 1]%float]).
  - apply net11_ok_crowd.
  - reflexivity.
  - split; [reflexivity|]. by repeat constructor.
  - reflexivity.
  - cbn. lia.
Defined.

Lemma network_backprop_leaks_witness :
  ∃ w', network_backprop net11 examples12 targets12 classroom = Done () w' ∧
    (∀ p, p ∈ dom (heap classroom) → heap w' !! p = heap classroom !! p) ∧
    Z.of_nat (size (dom (heap w')))
    = Z.of_nat (size (dom (heap classroom)))
      + 2 * ncols examples12 * (n_layers net11 - ncols examples12) + (ncols examples12 - 1) ∧
    files w' = files classroom ∧ clock w' = clock classroom ∧ rand w' = rand classroom.
Proof.
  apply (network_backprop_leaks net11 examples12 targets12 classroom [[0.5; -0.25]%float]).
  - apply net11_ok_classroom.
  - reflexivity.
  - split; [reflexivity|]. by repeat constructor.
  - reflexivity.
  - cbn. lia.
Defined.

Lemma network_SGD_returns_witness :
  ∃ w' T' L',
    network_SGD 3 net11 examples12 targets12 2 1 0.5%float classroom = Done () w' ∧
    heap w' !! data examples12 = Some T' ∧
    has_dims T' (nrows examples12) (ncols examples12) ∧
    Forall2 (≡ₚ) T' [[0.5; -0.25]%float] ∧
    heap w' !! data targets12 = Some L' ∧
    has_dims L' (nrows targets12) (ncols targets12) ∧
    Forall2 (≡ₚ) L' [[1; 0]%float] ∧
    (∀ p, p ∈ dom (heap classroom) → p ≠ data examples12 → p ≠ data targets12 →
       heap w' !! p = heap classroom !! p) ∧
    Z.of_nat (size (dom (heap w')))
    = Z.of_nat (size (dom (heap classroom)))
      + 2 * epoch_leak (n_layers net11) 1 (ncols examples12) ∧
    files w' = files classroom ∧ clock w' = clock classroom.
Proof.
  apply (network_SGD_returns 3 net11 examples12 targets12 2 1 0.5%float classroom
           [[0.5; -0.25]%float] [[1; 0]%float]).
  - apply lcg_rand_lim_in_range.
  - apply net11_ok_classroom.
  - reflexivity.
  - split; [reflexivity|]. by repeat constructor.
  - reflexivity.
  - split; [reflexivity|]. by repeat constructor.
  - discriminate.
  - reflexivity.
  - unfold net_addrs. cbn. set_solver.
  - unfold net_addrs. cbn. set_solver.
  - reflexivity.
  - cbn. lia.
  - lia.
  - cbn. lia.
  - unfold INT_MAX. cbn. lia.
  - cbn. lia.
Defined.

Lemma network_SGD_wide_batch_witness :
  network_SGD 1 net11 triples answers 1 3 0.5%float assembly = Undefined.
Proof.
  apply (network_SGD_wide_batch 1 net11 triples answers 1 3 0.5%float assembly
           [[0.5; -0.25; 1]%float] [[1; 0; 1]%float]).
  - apply lcg_rand_lim_in_range.
  - apply net11_ok_assembly.
  - reflexivity.
  - split; [reflexivity|]. by repeat constructor.
  - reflexivity.
  - split; [reflexivity|]. by repeat constructor.
  - discriminate.
  - reflexivity.
  - unfold net_addrs. cbn. set_solver.
  - unfold net_addrs. cbn. set_solver.
  - reflexivity.
  - lia.
  - cbn. lia.
  - cbn. lia.
  - lia.
Defined.

End RunsMore.
